(** * LyricArsenal setup scripts: a shallow embedding and its properties

    The three scripts under [setup_scripts/] are embedded here:
    - [build_master_from_imports.py]  (module [Build]),
    - [diff_album.py]                 (module [Diff]),
    - [sync_lyrics_from_imports.py]   (module [Sync]).

    Modelling conventions, fixed once for the whole development:
    - a file name, and every Python [str] made from file names, is a
      Rocq [string] of bytes: the file-system encoding of the [str]
      (UTF-8 with [surrogateescape], as [os.fsencode] gives it).  The
      methods that depend on characters ([lower], [title], the digit
      class of [re], the escapes of [json]) work on the code points
      of the decoded name, with the character database of CPython 3.11
      (Unicode 14.0.0); the library behaviour modelled is that of
      CPython 3.11 ([pathlib], [re], [json]);
    - a [pathlib.Path] is the list of its components below the repository
      base directory, which always exists and is the empty list;
    - the file system is a finite map from paths to nodes (a regular file
      with its bytes, or a directory); there are no symbolic links and no
      permissions;
    - platform behaviour is the POSIX one: globbing is case-sensitive and
      the line separator written in text mode is a single line feed;
    - a script run is a computation over a [world] (file system and
      standard output) that either returns or raises; the world reached
      when an exception is raised is kept.  Standard output takes every
      line. *)

From Stdlib Require Import Ascii.
From stdpp Require Import gmap strings list fin_maps sorting pretty.

(** ** Python [str] methods *)

Module Str.

Fixpoint map_chars (f : ascii → ascii) (s : string) : string :=
  match s with
  | EmptyString => EmptyString
  | String c s' => String (f c) (map_chars f s')
  end.

(** [s.replace(a, b)] for one-character [a] and [b] *)
Definition replace_char (a b : ascii) (s : string) : string :=
  map_chars (λ c, if Ascii.eqb c a then b else c) s.

(** [s.startswith(p)] *)
Definition startswith (p s : string) : bool := String.prefix p s.

(** [s.endswith(p)] *)
Definition endswith (p s : string) : bool :=
  String.prefix (String.rev p) (String.rev s).

(** [sub in s] *)
Fixpoint contains (sub s : string) : bool :=
  startswith sub s ||
  match s with
  | EmptyString => false
  | String _ s' => contains sub s'
  end.

(** [s.replace(old, "")] for a non-empty [old]: occurrences are removed
    left to right without overlap.  [skip] counts the characters of the
    occurrence being removed that are still to be dropped. *)
Fixpoint remove_go (old : string) (skip : nat) (s : string) : string :=
  match s with
  | EmptyString => EmptyString
  | String c s' =>
      match skip with
      | S k => remove_go old k s'
      | O =>
          if startswith old s
          then remove_go old (String.length old - 1) s'
          else String c (remove_go old 0 s')
      end
  end.

Definition remove (old s : string) : string := remove_go old 0 s.

(** [s.split(sep, 1)[0]]: the part before the first [sep] *)
Fixpoint before_first (sep : ascii) (s : string) : string :=
  match s with
  | EmptyString => EmptyString
  | String c s' =>
      if Ascii.eqb c sep then EmptyString else String c (before_first sep s')
  end.

(** [s.rfind(".")], as an option *)
Fixpoint rfind_dot (s : string) : option nat :=
  match s with
  | EmptyString => None
  | String c s' =>
      match rfind_dot s' with
      | Some i => Some (S i)
      | None => if Ascii.eqb c "."%char then Some 0 else None
      end
  end.

Fixpoint take (n : nat) (s : string) : string :=
  match n, s with
  | S k, String c s' => String c (take k s')
  | _, _ => EmptyString
  end.

Fixpoint drop (n : nat) (s : string) : string :=
  match n, s with
  | S k, String _ s' => drop k s'
  | _, _ => s
  end.

(** [sep.join(l)] for a one-character [sep] *)
Fixpoint join (sep : ascii) (l : list string) : string :=
  match l with
  | [] => EmptyString
  | [x] => x
  | x :: l' => x +:+ String sep (join sep l')
  end.

End Str.

(** ** Text encoding: UTF-8 and universal newlines *)

Module Codec.

Definition byte_in (lo hi : N) (c : ascii) : bool :=
  let n := Ascii.N_of_ascii c in (lo <=? n)%N && (n <=? hi)%N.

Definition cont (c : ascii) : bool := byte_in 128 191 c.

(** Length of the well-formed UTF-8 sequence that starts [s], if any
    (the table of RFC 3629: no overlong forms, no surrogates, nothing
    above U+10FFFF). *)
Definition utf8_seq_len (s : string) : option nat :=
  match s with
  | EmptyString => None
  | String b0 r0 =>
      if byte_in 0 127 b0 then Some 1
      else match r0 with
      | EmptyString => None
      | String b1 r1 =>
          if byte_in 194 223 b0 then (if cont b1 then Some 2 else None)
          else match r1 with
          | EmptyString => None
          | String b2 r2 =>
              if byte_in 224 224 b0 then
                (if byte_in 160 191 b1 && cont b2 then Some 3 else None)
              else if byte_in 225 236 b0 || byte_in 238 239 b0 then
                (if cont b1 && cont b2 then Some 3 else None)
              else if byte_in 237 237 b0 then
                (if byte_in 128 159 b1 && cont b2 then Some 3 else None)
              else match r2 with
              | EmptyString => None
              | String b3 _ =>
                  if byte_in 240 240 b0 then
                    (if byte_in 144 191 b1 && cont b2 && cont b3
                     then Some 4 else None)
                  else if byte_in 241 243 b0 then
                    (if cont b1 && cont b2 && cont b3 then Some 4 else None)
                  else if byte_in 244 244 b0 then
                    (if byte_in 128 143 b1 && cont b2 && cont b3
                     then Some 4 else None)
                  else None
              end
          end
      end
  end.

(** Strict decoding succeeds: [skip] bytes of the current sequence are
    still to be passed. *)
Fixpoint utf8_valid_go (skip : nat) (s : string) : bool :=
  match s with
  | EmptyString => bool_decide (skip = 0)
  | String _ s' =>
      match skip with
      | S k => utf8_valid_go k s'
      | O => match utf8_seq_len s with
             | Some (S n) => utf8_valid_go n s'
             | _ => false
             end
      end
  end.

Definition utf8_valid (s : string) : bool := utf8_valid_go 0 s.

(** Decoding with [errors="ignore"]: bytes that start no well-formed
    sequence are dropped. *)
Fixpoint utf8_ignore_go (skip : nat) (s : string) : string :=
  match s with
  | EmptyString => EmptyString
  | String c s' =>
      match skip with
      | S k => String c (utf8_ignore_go k s')
      | O => match utf8_seq_len s with
             | Some (S n) => String c (utf8_ignore_go n s')
             | _ => utf8_ignore_go 0 s'
             end
      end
  end.

Definition utf8_ignore (s : string) : string := utf8_ignore_go 0 s.

Definition CR : ascii := "013"%char.
Definition LF : ascii := "010"%char.

(** Reading in text mode with [newline=None]: ["\r\n"] and a lone
    ["\r"] both become ["\n"]. *)
Fixpoint universal_newlines (s : string) : string :=
  match s with
  | EmptyString => EmptyString
  | String c s' =>
      if Ascii.eqb c CR then
        String LF
          match s' with
          | EmptyString => EmptyString
          | String c' s'' =>
              if Ascii.eqb c' LF then universal_newlines s''
              else universal_newlines s'
          end
      else String c (universal_newlines s')
  end.

End Codec.

(** ** Unicode: the file-system encoding and the character database *)

Module Unicode.

Local Open Scope N_scope.

(** A Python [str]: the sequence of its code points. *)
Abbreviation str := (list N).

(** *** The file-system encoding

    A file name is a sequence of bytes; Python sees it as the [str]
    that [os.fsdecode] makes of it (UTF-8, where each byte that starts
    no well-formed sequence becomes the lone surrogate [U+DC00 + byte]),
    and [os.fsencode] gives the bytes back. *)

Definition byte (c : ascii) : N := Ascii.N_of_ascii c.

(** The code point of a well-formed sequence of one to four bytes. *)
Definition scalar (s : string) : N :=
  match s with
  | EmptyString => 0
  | String b0 EmptyString => byte b0
  | String b0 (String b1 EmptyString) =>
      (byte b0 - 192) * 64 + (byte b1 - 128)
  | String b0 (String b1 (String b2 EmptyString)) =>
      (byte b0 - 224) * 4096 + (byte b1 - 128) * 64 + (byte b2 - 128)
  | String b0 (String b1 (String b2 (String b3 _))) =>
      (byte b0 - 240) * 262144 + (byte b1 - 128) * 4096
      + (byte b2 - 128) * 64 + (byte b3 - 128)
  end.

(** [os.fsdecode]: [skip] bytes of the current sequence are still to be
    passed. *)
Fixpoint fsdecode_go (skip : nat) (s : string) : str :=
  match s with
  | EmptyString => []
  | String b s' =>
      match skip with
      | S k => fsdecode_go k s'
      | O => match Codec.utf8_seq_len s with
             | Some (S n) => scalar (Str.take (S n) s) :: fsdecode_go n s'
             | _ => (56320 + byte b) :: fsdecode_go 0 s'
             end
      end
  end.

Definition fsdecode (s : string) : str := fsdecode_go 0 s.

Definition chr (n : N) : ascii := Ascii.ascii_of_N n.

(** The bytes of one code point: a lone surrogate [U+DC80] to [U+DCFF]
    gives the byte it stands for, every other code point its UTF-8
    form. *)
Definition encode_cp (c : N) : string :=
  if c <? 128 then String (chr c) ""
  else if c <? 2048 then
    String (chr (192 + c / 64)) (String (chr (128 + c mod 64)) "")
  else if (56448 <=? c) && (c <=? 56575) then String (chr (c - 56320)) ""
  else if c <? 65536 then
    String (chr (224 + c / 4096))
      (String (chr (128 + (c / 64) mod 64))
         (String (chr (128 + c mod 64)) ""))
  else
    String (chr (240 + c / 262144))
      (String (chr (128 + (c / 4096) mod 64))
         (String (chr (128 + (c / 64) mod 64))
            (String (chr (128 + c mod 64)) ""))).

(** [os.fsencode] *)
Fixpoint fsencode (l : str) : string :=
  match l with
  | [] => ""
  | c :: l' => encode_cp c +:+ fsencode l'
  end.

(** *** The character database (Unicode 14.0.0)

    A row [(first, count, step, image)] of a case table stands for the
    [count] code points [first + k * step], each mapped to the single
    code point [image + k * step]; the code points with a longer image
    are listed apart. *)

Definition LOWER_ROWS : list (N * N * N * N) := [
  (65, 26, 1, 97); (192, 23, 1, 224); (216, 7, 1, 248);
  (256, 24, 2, 257); (306, 3, 2, 307); (313, 8, 2, 314);
  (330, 23, 2, 331); (376, 1, 1, 255); (377, 3, 2, 378);
  (385, 1, 1, 595); (386, 2, 2, 387); (390, 1, 1, 596);
  (391, 1, 1, 392); (393, 2, 1, 598); (395, 1, 1, 396);
  (398, 1, 1, 477); (399, 1, 1, 601); (400, 1, 1, 603);
  (401, 1, 1, 402); (403, 1, 1, 608); (404, 1, 1, 611);
  (406, 1, 1, 617); (407, 1, 1, 616); (408, 1, 1, 409);
  (412, 1, 1, 623); (413, 1, 1, 626); (415, 1, 1, 629);
  (416, 3, 2, 417); (422, 1, 1, 640); (423, 1, 1, 424);
  (425, 1, 1, 643); (428, 1, 1, 429); (430, 1, 1, 648);
  (431, 1, 1, 432); (433, 2, 1, 650); (435, 2, 2, 436);
  (439, 1, 1, 658); (440, 1, 1, 441); (444, 1, 1, 445);
  (452, 1, 1, 454); (453, 1, 1, 454); (455, 1, 1, 457);
  (456, 1, 1, 457); (458, 1, 1, 460); (459, 9, 2, 460);
  (478, 9, 2, 479); (497, 1, 1, 499); (498, 2, 2, 499);
  (502, 1, 1, 405); (503, 1, 1, 447); (504, 20, 2, 505);
  (544, 1, 1, 414); (546, 9, 2, 547); (570, 1, 1, 11365);
  (571, 1, 1, 572); (573, 1, 1, 410); (574, 1, 1, 11366);
  (577, 1, 1, 578); (579, 1, 1, 384); (580, 1, 1, 649);
  (581, 1, 1, 652); (582, 5, 2, 583); (880, 2, 2, 881);
  (886, 1, 1, 887); (895, 1, 1, 1011); (902, 1, 1, 940);
  (904, 3, 1, 941); (908, 1, 1, 972); (910, 2, 1, 973);
  (913, 17, 1, 945); (931, 9, 1, 963); (975, 1, 1, 983);
  (984, 12, 2, 985); (1012, 1, 1, 952); (1015, 1, 1, 1016);
  (1017, 1, 1, 1010); (1018, 1, 1, 1019); (1021, 3, 1, 891);
  (1024, 16, 1, 1104); (1040, 32, 1, 1072); (1120, 17, 2, 1121);
  (1162, 27, 2, 1163); (1216, 1, 1, 1231); (1217, 7, 2, 1218);
  (1232, 48, 2, 1233); (1329, 38, 1, 1377); (4256, 38, 1, 11520);
  (4295, 1, 1, 11559); (4301, 1, 1, 11565); (5024, 80, 1, 43888);
  (5104, 6, 1, 5112); (7312, 43, 1, 4304); (7357, 3, 1, 4349);
  (7680, 75, 2, 7681); (7838, 1, 1, 223); (7840, 48, 2, 7841);
  (7944, 8, 1, 7936); (7960, 6, 1, 7952); (7976, 8, 1, 7968);
  (7992, 8, 1, 7984); (8008, 6, 1, 8000); (8025, 4, 2, 8017);
  (8040, 8, 1, 8032); (8072, 8, 1, 8064); (8088, 8, 1, 8080);
  (8104, 8, 1, 8096); (8120, 2, 1, 8112); (8122, 2, 1, 8048);
  (8124, 1, 1, 8115); (8136, 4, 1, 8050); (8140, 1, 1, 8131);
  (8152, 2, 1, 8144); (8154, 2, 1, 8054); (8168, 2, 1, 8160);
  (8170, 2, 1, 8058); (8172, 1, 1, 8165); (8184, 2, 1, 8056);
  (8186, 2, 1, 8060); (8188, 1, 1, 8179); (8486, 1, 1, 969);
  (8490, 1, 1, 107); (8491, 1, 1, 229); (8498, 1, 1, 8526);
  (8544, 16, 1, 8560); (8579, 1, 1, 8580); (9398, 26, 1, 9424);
  (11264, 48, 1, 11312); (11360, 1, 1, 11361); (11362, 1, 1, 619);
  (11363, 1, 1, 7549); (11364, 1, 1, 637); (11367, 3, 2, 11368);
  (11373, 1, 1, 593); (11374, 1, 1, 625); (11375, 1, 1, 592);
  (11376, 1, 1, 594); (11378, 1, 1, 11379); (11381, 1, 1, 11382);
  (11390, 2, 1, 575); (11392, 50, 2, 11393); (11499, 2, 2, 11500);
  (11506, 1, 1, 11507); (42560, 23, 2, 42561); (42624, 14, 2, 42625);
  (42786, 7, 2, 42787); (42802, 31, 2, 42803); (42873, 2, 2, 42874);
  (42877, 1, 1, 7545); (42878, 5, 2, 42879); (42891, 1, 1, 42892);
  (42893, 1, 1, 613); (42896, 2, 2, 42897); (42902, 10, 2, 42903);
  (42922, 1, 1, 614); (42923, 1, 1, 604); (42924, 1, 1, 609);
  (42925, 1, 1, 620); (42926, 1, 1, 618); (42928, 1, 1, 670);
  (42929, 1, 1, 647); (42930, 1, 1, 669); (42931, 1, 1, 43859);
  (42932, 8, 2, 42933); (42948, 1, 1, 42900); (42949, 1, 1, 642);
  (42950, 1, 1, 7566); (42951, 2, 2, 42952); (42960, 1, 1, 42961);
  (42966, 2, 2, 42967); (42997, 1, 1, 42998); (65313, 26, 1, 65345);
  (66560, 40, 1, 66600); (66736, 36, 1, 66776); (66928, 11, 1, 66967);
  (66940, 15, 1, 66979); (66956, 7, 1, 66995); (66964, 2, 1, 67003);
  (68736, 51, 1, 68800); (71840, 32, 1, 71872); (93760, 32, 1, 93792);
  (125184, 34, 1, 125218)
]%N.

Definition LOWER_SPECIAL : list (N * list N) := [
  (304, [105; 775])
]%N.

Definition TITLE_ROWS : list (N * N * N * N) := [
  (97, 26, 1, 65); (181, 1, 1, 924); (224, 23, 1, 192);
  (248, 7, 1, 216); (255, 1, 1, 376); (257, 24, 2, 256);
  (305, 1, 1, 73); (307, 3, 2, 306); (314, 8, 2, 313);
  (331, 23, 2, 330); (378, 3, 2, 377); (383, 1, 1, 83);
  (384, 1, 1, 579); (387, 2, 2, 386); (392, 1, 1, 391);
  (396, 1, 1, 395); (402, 1, 1, 401); (405, 1, 1, 502);
  (409, 1, 1, 408); (410, 1, 1, 573); (414, 1, 1, 544);
  (417, 3, 2, 416); (424, 1, 1, 423); (429, 1, 1, 428);
  (432, 1, 1, 431); (436, 2, 2, 435); (441, 1, 1, 440);
  (445, 1, 1, 444); (447, 1, 1, 503); (452, 1, 1, 453);
  (454, 1, 1, 453); (455, 1, 1, 456); (457, 1, 1, 456);
  (458, 1, 1, 459); (460, 9, 2, 459); (477, 1, 1, 398);
  (479, 9, 2, 478); (497, 1, 1, 498); (499, 2, 2, 498);
  (505, 20, 2, 504); (547, 9, 2, 546); (572, 1, 1, 571);
  (575, 2, 1, 11390); (578, 1, 1, 577); (583, 5, 2, 582);
  (592, 1, 1, 11375); (593, 1, 1, 11373); (594, 1, 1, 11376);
  (595, 1, 1, 385); (596, 1, 1, 390); (598, 2, 1, 393);
  (601, 1, 1, 399); (603, 1, 1, 400); (604, 1, 1, 42923);
  (608, 1, 1, 403); (609, 1, 1, 42924); (611, 1, 1, 404);
  (613, 1, 1, 42893); (614, 1, 1, 42922); (616, 1, 1, 407);
  (617, 1, 1, 406); (618, 1, 1, 42926); (619, 1, 1, 11362);
  (620, 1, 1, 42925); (623, 1, 1, 412); (625, 1, 1, 11374);
  (626, 1, 1, 413); (629, 1, 1, 415); (637, 1, 1, 11364);
  (640, 1, 1, 422); (642, 1, 1, 42949); (643, 1, 1, 425);
  (647, 1, 1, 42929); (648, 1, 1, 430); (649, 1, 1, 580);
  (650, 2, 1, 433); (652, 1, 1, 581); (658, 1, 1, 439);
  (669, 1, 1, 42930); (670, 1, 1, 42928); (837, 1, 1, 921);
  (881, 2, 2, 880); (887, 1, 1, 886); (891, 3, 1, 1021);
  (940, 1, 1, 902); (941, 3, 1, 904); (945, 17, 1, 913);
  (962, 1, 1, 931); (963, 9, 1, 931); (972, 1, 1, 908);
  (973, 2, 1, 910); (976, 1, 1, 914); (977, 1, 1, 920);
  (981, 1, 1, 934); (982, 1, 1, 928); (983, 1, 1, 975);
  (985, 12, 2, 984); (1008, 1, 1, 922); (1009, 1, 1, 929);
  (1010, 1, 1, 1017); (1011, 1, 1, 895); (1013, 1, 1, 917);
  (1016, 1, 1, 1015); (1019, 1, 1, 1018); (1072, 32, 1, 1040);
  (1104, 16, 1, 1024); (1121, 17, 2, 1120); (1163, 27, 2, 1162);
  (1218, 7, 2, 1217); (1231, 1, 1, 1216); (1233, 48, 2, 1232);
  (1377, 38, 1, 1329); (5112, 6, 1, 5104); (7296, 1, 1, 1042);
  (7297, 1, 1, 1044); (7298, 1, 1, 1054); (7299, 2, 1, 1057);
  (7301, 1, 1, 1058); (7302, 1, 1, 1066); (7303, 1, 1, 1122);
  (7304, 1, 1, 42570); (7545, 1, 1, 42877); (7549, 1, 1, 11363);
  (7566, 1, 1, 42950); (7681, 75, 2, 7680); (7835, 1, 1, 7776);
  (7841, 48, 2, 7840); (7936, 8, 1, 7944); (7952, 6, 1, 7960);
  (7968, 8, 1, 7976); (7984, 8, 1, 7992); (8000, 6, 1, 8008);
  (8017, 4, 2, 8025); (8032, 8, 1, 8040); (8048, 2, 1, 8122);
  (8050, 4, 1, 8136); (8054, 2, 1, 8154); (8056, 2, 1, 8184);
  (8058, 2, 1, 8170); (8060, 2, 1, 8186); (8064, 8, 1, 8072);
  (8080, 8, 1, 8088); (8096, 8, 1, 8104); (8112, 2, 1, 8120);
  (8115, 1, 1, 8124); (8126, 1, 1, 921); (8131, 1, 1, 8140);
  (8144, 2, 1, 8152); (8160, 2, 1, 8168); (8165, 1, 1, 8172);
  (8179, 1, 1, 8188); (8526, 1, 1, 8498); (8560, 16, 1, 8544);
  (8580, 1, 1, 8579); (9424, 26, 1, 9398); (11312, 48, 1, 11264);
  (11361, 1, 1, 11360); (11365, 1, 1, 570); (11366, 1, 1, 574);
  (11368, 3, 2, 11367); (11379, 1, 1, 11378); (11382, 1, 1, 11381);
  (11393, 50, 2, 11392); (11500, 2, 2, 11499); (11507, 1, 1, 11506);
  (11520, 38, 1, 4256); (11559, 1, 1, 4295); (11565, 1, 1, 4301);
  (42561, 23, 2, 42560); (42625, 14, 2, 42624); (42787, 7, 2, 42786);
  (42803, 31, 2, 42802); (42874, 2, 2, 42873); (42879, 5, 2, 42878);
  (42892, 1, 1, 42891); (42897, 2, 2, 42896); (42900, 1, 1, 42948);
  (42903, 10, 2, 42902); (42933, 8, 2, 42932); (42952, 2, 2, 42951);
  (42961, 1, 1, 42960); (42967, 2, 2, 42966); (42998, 1, 1, 42997);
  (43859, 1, 1, 42931); (43888, 80, 1, 5024); (65345, 26, 1, 65313);
  (66600, 40, 1, 66560); (66776, 36, 1, 66736); (66967, 11, 1, 66928);
  (66979, 15, 1, 66940); (66995, 7, 1, 66956); (67003, 2, 1, 66964);
  (68800, 51, 1, 68736); (71872, 32, 1, 71840); (93792, 32, 1, 93760);
  (125218, 34, 1, 125184)
]%N.

Definition TITLE_SPECIAL : list (N * list N) := [
  (223, [83; 115]); (329, [700; 78]);
  (496, [74; 780]); (912, [921; 776; 769]);
  (944, [933; 776; 769]); (1415, [1333; 1410]);
  (7830, [72; 817]); (7831, [84; 776]);
  (7832, [87; 778]); (7833, [89; 778]);
  (7834, [65; 702]); (8016, [933; 787]);
  (8018, [933; 787; 768]); (8020, [933; 787; 769]);
  (8022, [933; 787; 834]); (8114, [8122; 837]);
  (8116, [902; 837]); (8118, [913; 834]);
  (8119, [913; 834; 837]); (8130, [8138; 837]);
  (8132, [905; 837]); (8134, [919; 834]);
  (8135, [919; 834; 837]); (8146, [921; 776; 768]);
  (8147, [921; 776; 769]); (8150, [921; 834]);
  (8151, [921; 776; 834]); (8162, [933; 776; 768]);
  (8163, [933; 776; 769]); (8164, [929; 787]);
  (8166, [933; 834]); (8167, [933; 776; 834]);
  (8178, [8186; 837]); (8180, [911; 837]);
  (8182, [937; 834]); (8183, [937; 834; 837]);
  (64256, [70; 102]); (64257, [70; 105]);
  (64258, [70; 108]); (64259, [70; 102; 105]);
  (64260, [70; 102; 108]); (64261, [83; 116]);
  (64262, [83; 116]); (64275, [1348; 1398]);
  (64276, [1348; 1381]); (64277, [1348; 1387]);
  (64278, [1358; 1398]); (64279, [1348; 1389])
]%N.

(** The property [Cased], as ranges [(first, last)]. *)
Definition CASED : list (N * N) := [
  (65, 90); (97, 122); (170, 170); (181, 181);
  (186, 186); (192, 214); (216, 246); (248, 442);
  (444, 447); (452, 659); (661, 696); (704, 705);
  (736, 740); (837, 837); (880, 883); (886, 887);
  (890, 893); (895, 895); (902, 902); (904, 906);
  (908, 908); (910, 929); (931, 1013); (1015, 1153);
  (1162, 1327); (1329, 1366); (1376, 1416); (4256, 4293);
  (4295, 4295); (4301, 4301); (4304, 4346); (4349, 4351);
  (5024, 5109); (5112, 5117); (7296, 7304); (7312, 7354);
  (7357, 7359); (7424, 7615); (7680, 7957); (7960, 7965);
  (7968, 8005); (8008, 8013); (8016, 8023); (8025, 8025);
  (8027, 8027); (8029, 8029); (8031, 8061); (8064, 8116);
  (8118, 8124); (8126, 8126); (8130, 8132); (8134, 8140);
  (8144, 8147); (8150, 8155); (8160, 8172); (8178, 8180);
  (8182, 8188); (8305, 8305); (8319, 8319); (8336, 8348);
  (8450, 8450); (8455, 8455); (8458, 8467); (8469, 8469);
  (8473, 8477); (8484, 8484); (8486, 8486); (8488, 8488);
  (8490, 8493); (8495, 8500); (8505, 8505); (8508, 8511);
  (8517, 8521); (8526, 8526); (8544, 8575); (8579, 8580);
  (9398, 9449); (11264, 11492); (11499, 11502); (11506, 11507);
  (11520, 11557); (11559, 11559); (11565, 11565); (42560, 42605);
  (42624, 42653); (42786, 42887); (42891, 42894); (42896, 42954);
  (42960, 42961); (42963, 42963); (42965, 42969); (42997, 42998);
  (43000, 43002); (43824, 43866); (43868, 43880); (43888, 43967);
  (64256, 64262); (64275, 64279); (65313, 65338); (65345, 65370);
  (66560, 66639); (66736, 66771); (66776, 66811); (66928, 66938);
  (66940, 66954); (66956, 66962); (66964, 66965); (66967, 66977);
  (66979, 66993); (66995, 67001); (67003, 67004); (67456, 67456);
  (67459, 67461); (67463, 67504); (67506, 67514); (68736, 68786);
  (68800, 68850); (71840, 71903); (93760, 93823); (119808, 119892);
  (119894, 119964); (119966, 119967); (119970, 119970); (119973, 119974);
  (119977, 119980); (119982, 119993); (119995, 119995); (119997, 120003);
  (120005, 120069); (120071, 120074); (120077, 120084); (120086, 120092);
  (120094, 120121); (120123, 120126); (120128, 120132); (120134, 120134);
  (120138, 120144); (120146, 120485); (120488, 120512); (120514, 120538);
  (120540, 120570); (120572, 120596); (120598, 120628); (120630, 120654);
  (120656, 120686); (120688, 120712); (120714, 120744); (120746, 120770);
  (120772, 120779); (122624, 122633); (122635, 122654); (125184, 125251);
  (127280, 127305); (127312, 127337); (127344, 127369)
]%N.

(** The property [Case_Ignorable], as ranges [(first, last)]. *)
Definition CASE_IGNORABLE : list (N * N) := [
  (39, 39); (46, 46); (58, 58); (94, 94);
  (96, 96); (168, 168); (173, 173); (175, 175);
  (180, 180); (183, 184); (688, 879); (884, 885);
  (890, 890); (900, 901); (903, 903); (1155, 1161);
  (1369, 1369); (1375, 1375); (1425, 1469); (1471, 1471);
  (1473, 1474); (1476, 1477); (1479, 1479); (1524, 1524);
  (1536, 1541); (1552, 1562); (1564, 1564); (1600, 1600);
  (1611, 1631); (1648, 1648); (1750, 1757); (1759, 1768);
  (1770, 1773); (1807, 1807); (1809, 1809); (1840, 1866);
  (1958, 1968); (2027, 2037); (2042, 2042); (2045, 2045);
  (2070, 2093); (2137, 2139); (2184, 2184); (2192, 2193);
  (2200, 2207); (2249, 2306); (2362, 2362); (2364, 2364);
  (2369, 2376); (2381, 2381); (2385, 2391); (2402, 2403);
  (2417, 2417); (2433, 2433); (2492, 2492); (2497, 2500);
  (2509, 2509); (2530, 2531); (2558, 2558); (2561, 2562);
  (2620, 2620); (2625, 2626); (2631, 2632); (2635, 2637);
  (2641, 2641); (2672, 2673); (2677, 2677); (2689, 2690);
  (2748, 2748); (2753, 2757); (2759, 2760); (2765, 2765);
  (2786, 2787); (2810, 2815); (2817, 2817); (2876, 2876);
  (2879, 2879); (2881, 2884); (2893, 2893); (2901, 2902);
  (2914, 2915); (2946, 2946); (3008, 3008); (3021, 3021);
  (3072, 3072); (3076, 3076); (3132, 3132); (3134, 3136);
  (3142, 3144); (3146, 3149); (3157, 3158); (3170, 3171);
  (3201, 3201); (3260, 3260); (3263, 3263); (3270, 3270);
  (3276, 3277); (3298, 3299); (3328, 3329); (3387, 3388);
  (3393, 3396); (3405, 3405); (3426, 3427); (3457, 3457);
  (3530, 3530); (3538, 3540); (3542, 3542); (3633, 3633);
  (3636, 3642); (3654, 3662); (3761, 3761); (3764, 3772);
  (3782, 3782); (3784, 3789); (3864, 3865); (3893, 3893);
  (3895, 3895); (3897, 3897); (3953, 3966); (3968, 3972);
  (3974, 3975); (3981, 3991); (3993, 4028); (4038, 4038);
  (4141, 4144); (4146, 4151); (4153, 4154); (4157, 4158);
  (4184, 4185); (4190, 4192); (4209, 4212); (4226, 4226);
  (4229, 4230); (4237, 4237); (4253, 4253); (4348, 4348);
  (4957, 4959); (5906, 5908); (5938, 5939); (5970, 5971);
  (6002, 6003); (6068, 6069); (6071, 6077); (6086, 6086);
  (6089, 6099); (6103, 6103); (6109, 6109); (6155, 6159);
  (6211, 6211); (6277, 6278); (6313, 6313); (6432, 6434);
  (6439, 6440); (6450, 6450); (6457, 6459); (6679, 6680);
  (6683, 6683); (6742, 6742); (6744, 6750); (6752, 6752);
  (6754, 6754); (6757, 6764); (6771, 6780); (6783, 6783);
  (6823, 6823); (6832, 6862); (6912, 6915); (6964, 6964);
  (6966, 6970); (6972, 6972); (6978, 6978); (7019, 7027);
  (7040, 7041); (7074, 7077); (7080, 7081); (7083, 7085);
  (7142, 7142); (7144, 7145); (7149, 7149); (7151, 7153);
  (7212, 7219); (7222, 7223); (7288, 7293); (7376, 7378);
  (7380, 7392); (7394, 7400); (7405, 7405); (7412, 7412);
  (7416, 7417); (7468, 7530); (7544, 7544); (7579, 7679);
  (8125, 8125); (8127, 8129); (8141, 8143); (8157, 8159);
  (8173, 8175); (8189, 8190); (8203, 8207); (8216, 8217);
  (8228, 8228); (8231, 8231); (8234, 8238); (8288, 8292);
  (8294, 8303); (8305, 8305); (8319, 8319); (8336, 8348);
  (8400, 8432); (11388, 11389); (11503, 11505); (11631, 11631);
  (11647, 11647); (11744, 11775); (11823, 11823); (12293, 12293);
  (12330, 12333); (12337, 12341); (12347, 12347); (12441, 12446);
  (12540, 12542); (40981, 40981); (42232, 42237); (42508, 42508);
  (42607, 42610); (42612, 42621); (42623, 42623); (42652, 42655);
  (42736, 42737); (42752, 42785); (42864, 42864); (42888, 42890);
  (42994, 42996); (43000, 43001); (43010, 43010); (43014, 43014);
  (43019, 43019); (43045, 43046); (43052, 43052); (43204, 43205);
  (43232, 43249); (43263, 43263); (43302, 43309); (43335, 43345);
  (43392, 43394); (43443, 43443); (43446, 43449); (43452, 43453);
  (43471, 43471); (43493, 43494); (43561, 43566); (43569, 43570);
  (43573, 43574); (43587, 43587); (43596, 43596); (43632, 43632);
  (43644, 43644); (43696, 43696); (43698, 43700); (43703, 43704);
  (43710, 43711); (43713, 43713); (43741, 43741); (43756, 43757);
  (43763, 43764); (43766, 43766); (43867, 43871); (43881, 43883);
  (44005, 44005); (44008, 44008); (44013, 44013); (64286, 64286);
  (64434, 64450); (65024, 65039); (65043, 65043); (65056, 65071);
  (65106, 65106); (65109, 65109); (65279, 65279); (65287, 65287);
  (65294, 65294); (65306, 65306); (65342, 65342); (65344, 65344);
  (65392, 65392); (65438, 65439); (65507, 65507); (65529, 65531);
  (66045, 66045); (66272, 66272); (66422, 66426); (67456, 67461);
  (67463, 67504); (67506, 67514); (68097, 68099); (68101, 68102);
  (68108, 68111); (68152, 68154); (68159, 68159); (68325, 68326);
  (68900, 68903); (69291, 69292); (69446, 69456); (69506, 69509);
  (69633, 69633); (69688, 69702); (69744, 69744); (69747, 69748);
  (69759, 69761); (69811, 69814); (69817, 69818); (69821, 69821);
  (69826, 69826); (69837, 69837); (69888, 69890); (69927, 69931);
  (69933, 69940); (70003, 70003); (70016, 70017); (70070, 70078);
  (70089, 70092); (70095, 70095); (70191, 70193); (70196, 70196);
  (70198, 70199); (70206, 70206); (70367, 70367); (70371, 70378);
  (70400, 70401); (70459, 70460); (70464, 70464); (70502, 70508);
  (70512, 70516); (70712, 70719); (70722, 70724); (70726, 70726);
  (70750, 70750); (70835, 70840); (70842, 70842); (70847, 70848);
  (70850, 70851); (71090, 71093); (71100, 71101); (71103, 71104);
  (71132, 71133); (71219, 71226); (71229, 71229); (71231, 71232);
  (71339, 71339); (71341, 71341); (71344, 71349); (71351, 71351);
  (71453, 71455); (71458, 71461); (71463, 71467); (71727, 71735);
  (71737, 71738); (71995, 71996); (71998, 71998); (72003, 72003);
  (72148, 72151); (72154, 72155); (72160, 72160); (72193, 72202);
  (72243, 72248); (72251, 72254); (72263, 72263); (72273, 72278);
  (72281, 72283); (72330, 72342); (72344, 72345); (72752, 72758);
  (72760, 72765); (72767, 72767); (72850, 72871); (72874, 72880);
  (72882, 72883); (72885, 72886); (73009, 73014); (73018, 73018);
  (73020, 73021); (73023, 73029); (73031, 73031); (73104, 73105);
  (73109, 73109); (73111, 73111); (73459, 73460); (78896, 78904);
  (92912, 92916); (92976, 92982); (92992, 92995); (94031, 94031);
  (94095, 94111); (94176, 94177); (94179, 94180); (110576, 110579);
  (110581, 110587); (110589, 110590); (113821, 113822); (113824, 113827);
  (118528, 118573); (118576, 118598); (119143, 119145); (119155, 119170);
  (119173, 119179); (119210, 119213); (119362, 119364); (121344, 121398);
  (121403, 121452); (121461, 121461); (121476, 121476); (121499, 121503);
  (121505, 121519); (122880, 122886); (122888, 122904); (122907, 122913);
  (122915, 122916); (122918, 122922); (123184, 123197); (123566, 123566);
  (123628, 123631); (125136, 125142); (125252, 125259); (127995, 127999);
  (917505, 917505); (917536, 917631); (917760, 917999)
]%N.

(** The decimal digits (category [Nd]) come in runs of ten, from the
    digit zero to the digit nine: the zeros. *)
Definition DECIMAL_ZEROS : list N := [
  48; 1632; 1776; 1984; 2406; 2534; 2662; 2790;
  2918; 3046; 3174; 3302; 3430; 3558; 3664; 3792;
  3872; 4160; 4240; 6112; 6160; 6470; 6608; 6784;
  6800; 6992; 7088; 7232; 7248; 42528; 43216; 43264;
  43472; 43504; 43600; 44016; 65296; 66720; 68912; 69734;
  69872; 69942; 70096; 70384; 70736; 70864; 71248; 71360;
  71472; 71904; 72016; 72784; 73040; 73120; 92768; 92864;
  93008; 120782; 120792; 120802; 120812; 120822; 123200; 123632;
  125264; 130032
]%N.

Definition expand (row : N * N * N * N) : list (N * list N) :=
  let '(first, count, step, image) := row in
  (λ k, (first + N.of_nat k * step, [image + N.of_nat k * step]))
    <$> seq 0%nat (N.to_nat count).

Definition LOWER : list (N * list N) :=
  Eval vm_compute in LOWER_SPECIAL ++ mjoin (expand <$> LOWER_ROWS).

Definition TITLE : list (N * list N) :=
  Eval vm_compute in TITLE_SPECIAL ++ mjoin (expand <$> TITLE_ROWS).

Definition image (table : list (N * list N)) (c : N) : option (list N) :=
  snd <$> List.find (λ e, e.1 =? c) table.

Definition in_ranges (ranges : list (N * N)) (c : N) : bool :=
  existsb (λ r, (r.1 <=? c) && (c <=? r.2)) ranges.

(** The full lower-case and title-case images of one code point. *)
Definition to_lower (c : N) : list N := default [c] (image LOWER c).
Definition to_title (c : N) : list N := default [c] (image TITLE c).

Definition is_cased (c : N) : bool := in_ranges CASED c.
Definition is_case_ignorable (c : N) : bool := in_ranges CASE_IGNORABLE c.

(** The value of a decimal digit; [None] for any other code point. *)
Definition decimal (c : N) : option N :=
  (λ zero, c - zero)
    <$> List.find (λ zero, (zero <=? c) && (c <? zero + 10)) DECIMAL_ZEROS.

Definition is_decimal (c : N) : bool :=
  match decimal c with Some _ => true | None => false end.

(** *** [str.lower] and [str.title] *)

Definition CAPITAL_SIGMA : N := 931.
Definition SMALL_SIGMA : N := 963.
Definition FINAL_SIGMA : N := 962.

Fixpoint skip_ignorable (l : str) : str :=
  match l with
  | [] => []
  | c :: l' => if is_case_ignorable c then skip_ignorable l' else l
  end.

(** A capital sigma is final when a cased letter comes before it and
    none comes after it, case-ignorable characters being passed over;
    [before] is what precedes it, nearest first. *)
Definition final_sigma (before after : str) : bool :=
  match skip_ignorable before with
  | [] => false
  | c :: _ =>
      is_cased c
      && match skip_ignorable after with
         | [] => true
         | c' :: _ => negb (is_cased c')
         end
  end.

(** The lower-case image of [c] between [before] and [after]. *)
Definition lower_at (before : str) (c : N) (after : str) : list N :=
  if c =? CAPITAL_SIGMA
  then [if final_sigma before after then FINAL_SIGMA else SMALL_SIGMA]
  else to_lower c.

Fixpoint lower_go (before : str) (l : str) : str :=
  match l with
  | [] => []
  | c :: l' => lower_at before c l' ++ lower_go (c :: before) l'
  end.

(** [s.lower()] *)
Definition lower (s : str) : str := lower_go [] s.

Fixpoint title_go (previous_is_cased : bool) (before : str) (l : str)
  : str :=
  match l with
  | [] => []
  | c :: l' =>
      (if previous_is_cased then lower_at before c l' else to_title c)
      ++ title_go (is_cased c) (c :: before) l'
  end.

(** [s.title()] *)
Definition title (s : str) : str := title_go false [] s.

(** [s.replace(a, b)] for one-character [a] and [b] *)
Definition replace (a b : N) (s : str) : str :=
  (λ c, if c =? a then b else c) <$> s.

(** [int(s)] for a string of decimal digits *)
Definition int (s : str) : N :=
  foldl (λ acc c, 10 * acc + default 0 (decimal c)) 0 s.

End Unicode.

(** ** [pathlib], [shutil] and the file system *)

Module Fs.

(** A path is the list of its components below the base directory. *)
Abbreviation Path := (list string).

Inductive node : Type :=
  | File (content : string)
  | Dir.

Global Instance node_eq_dec : EqDecision node.
Proof. solve_decision. Defined.

Abbreviation FS := (gmap (list string) node).

(** *** Pure path operations *)

(** [p.name] *)
Definition name (p : Path) : string := default "" (last p).

(** [p.parent] *)
Definition parent (p : Path) : Path := removelast p.

(** [p / s] for one component [s]: a literal, a directory entry name,
    or a name built from one. *)
Definition child (p : Path) (s : string) : Path := p ++ [s].

(** Components of a relative path written with ["/"]; empty and ["."]
    components are dropped as [pathlib] does. *)
Fixpoint parts_go (cur : string) (s : string) : list string :=
  let flush :=
    if String.eqb cur "" || String.eqb cur "." then []
    else [String.rev cur] in
  match s with
  | EmptyString => flush
  | String c s' =>
      if Ascii.eqb c "/"%char then flush ++ parts_go "" s'
      else parts_go (String c cur) s'
  end.

Definition parts (s : string) : list string := parts_go "" s.

(** [p / s] for a relative [s] that may hold several components *)
Definition join (p : Path) (s : string) : Path := p ++ parts s.

(** [str(p)], relative to the base directory *)
Fixpoint str_path (p : Path) : string :=
  match p with
  | [] => "."
  | [c] => c
  | c :: p' => c +:+ "/" +:+ str_path p'
  end.

Definition has_suffix (n : string) : option nat :=
  match Str.rfind_dot n with
  | Some i =>
      if bool_decide (0 < i ∧ i < String.length n - 1) then Some i else None
  | None => None
  end.

(** [PurePath.stem] of a name *)
Definition stem_of (n : string) : string :=
  match has_suffix n with
  | Some i => Str.take i n
  | None => n
  end.

(** [PurePath.suffix] of a name *)
Definition suffix_of (n : string) : string :=
  match has_suffix n with
  | Some i => Str.drop i n
  | None => ""
  end.

(** [p.stem] *)
Definition stem (p : Path) : string := stem_of (name p).

(** [p.suffix] *)
Definition suffix (p : Path) : string := suffix_of (name p).

(** [p.with_suffix(suf)] for a path with a non-empty name *)
Definition with_suffix (suf : string) (p : Path) : Path :=
  child (parent p) (stem p +:+ suf).

(** [p.relative_to(root)] for [p] below [root] *)
Definition relative_to (root p : Path) : Path := drop (length root) p.

(** Strictly below [root] *)
Definition below (root p : Path) : Prop :=
  root `prefix_of` p ∧ p ≠ root.

(** Directly inside [d] *)
Definition child_of (d p : Path) : Prop :=
  p ≠ [] ∧ parent p = d.

(** Order of [Path] objects: component-wise, each component compared as
    a string. *)
Fixpoint path_leb (p q : Path) : bool :=
  match p, q with
  | [], _ => true
  | _ :: _, [] => false
  | a :: p', b :: q' =>
      if String.eqb a b then path_leb p' q' else String.leb a b
  end.

Definition path_le (p q : Path) : Prop := path_leb p q.

Global Instance path_le_dec : RelDecision path_le.
Proof. intros p q. unfold path_le. apply _. Defined.

(** *** Reading the file system *)

(** The node at a path; the base directory itself always exists. *)
Definition stat (fs : FS) (p : Path) : option node :=
  match p with
  | [] => Some Dir
  | _ => fs !! p
  end.

(** [p.exists()] *)
Definition path_exists (fs : FS) (p : Path) : bool :=
  match stat fs p with Some _ => true | None => false end.

(** [p.is_dir()] *)
Definition is_dir (fs : FS) (p : Path) : bool :=
  match stat fs p with Some Dir => true | _ => false end.

(** Every entry lies in a directory: the shape of a real file tree. *)
Definition well_formed (fs : FS) : Prop :=
  ∀ p, is_Some (fs !! p) → is_dir fs (parent p) = true.

(** Entries directly inside [d], in the order the system lists them. *)
Definition entries (fs : FS) (d : Path) : list Path :=
  (map_to_list (filter (λ kv, child_of d kv.1) fs)).*1.

(** Entries anywhere below [root]. *)
Definition descendants (fs : FS) (root : Path) : list Path :=
  (map_to_list (filter (λ kv, below root kv.1) fs)).*1.

(** [sorted(paths)] *)
Definition sorted (l : list Path) : list Path := merge_sort path_le l.

(** [sorted(names)] for strings *)
Definition sorted_str (l : list string) : list string :=
  merge_sort String.le l.

(** *** Changing the file system *)

Inductive exn : Type :=
  | FileExistsError
  | FileNotFoundError
  | NotADirectoryError
  | IsADirectoryError
  | SameFileError
  | UnicodeDecodeError
  | UnicodeEncodeError
  | ValueError.

(** [p.mkdir(parents=True, exist_ok=True)], walking down from the base
    directory: [above] is the part already known to be a directory.
    Missing components are created; a regular file in the way raises. *)
Fixpoint mkdir_from (fs : FS) (above : Path) (todo : list string)
  : exn + FS :=
  match todo with
  | [] => inr fs
  | c :: rest =>
      let q := above ++ [c] in
      match fs !! q with
      | Some Dir => mkdir_from fs q rest
      | Some (File _) =>
          inl (match rest with [] => FileExistsError
                             | _ => NotADirectoryError end)
      | None => mkdir_from (<[q := Dir]> fs) q rest
      end
  end.

Definition mkdir_parents (fs : FS) (p : Path) : exn + FS :=
  mkdir_from fs [] p.

(** Whether an update went through, and the file system it gave. *)
Definition succeeds (r : exn + FS) : bool :=
  match r with inr _ => true | inl _ => false end.

Definition result_fs (r : exn + FS) : FS :=
  match r with inr fs => fs | inl _ => ∅ end.

(** [d.iterdir()], consumed at once *)
Definition iterdir (fs : FS) (d : Path) : exn + list Path :=
  match stat fs d with
  | Some Dir => inr (entries fs d)
  | Some (File _) => inl NotADirectoryError
  | None => inl FileNotFoundError
  end.

(** Opening [p] for reading and taking all its bytes. *)
Definition read_bytes (fs : FS) (p : Path) : exn + string :=
  match stat fs p with
  | Some (File b) => inr b
  | Some Dir => inl IsADirectoryError
  | None => inl FileNotFoundError
  end.

(** Opening [p] for writing (create or truncate) and storing [b]. *)
Definition write_bytes (fs : FS) (p : Path) (b : string) : exn + FS :=
  match stat fs p with
  | Some Dir => inl IsADirectoryError
  | _ =>
      match stat fs (parent p) with
      | Some Dir => inr (<[p := File b]> fs)
      | Some (File _) => inl NotADirectoryError
      | None => inl FileNotFoundError
      end
  end.

(** [p.read_text(encoding="utf-8")] *)
Definition read_text (fs : FS) (p : Path) : exn + string :=
  match read_bytes fs p with
  | inl e => inl e
  | inr b =>
      if Codec.utf8_valid b then inr (Codec.universal_newlines b)
      else inl UnicodeDecodeError
  end.

(** [p.read_text(encoding="utf-8", errors="ignore")] *)
Definition read_text_ignore (fs : FS) (p : Path) : exn + string :=
  match read_bytes fs p with
  | inl e => inl e
  | inr b => inr (Codec.universal_newlines (Codec.utf8_ignore b))
  end.

(** [shutil.copy2(src, dst)]: a directory [dst] receives the file under
    the name of [src]; the bytes are copied as they are. *)
Definition copy2 (fs : FS) (src dst : Path) : exn + FS :=
  let dst' := if is_dir fs dst then child dst (name src) else dst in
  if bool_decide (src = dst') && path_exists fs src then inl SameFileError
  else
    match read_bytes fs src with
    | inl e => inl e
    | inr b => write_bytes fs dst' b
    end.

(** *** Script runs *)

Record world : Type := World {
  files : FS;
  stdout : list string;
}.

Inductive outcome (A : Type) : Type :=
  | Ret (a : A)
  | Raise (e : exn).
Global Arguments Ret {A} a.
Global Arguments Raise {A} e.

Definition IO (A : Type) : Type := world → outcome A * world.

Definition ret {A} (a : A) : IO A := λ w, (Ret a, w).

Definition raise {A} (e : exn) : IO A := λ w, (Raise e, w).

Definition bind {A B} (m : IO A) (k : A → IO B) : IO B :=
  λ w, match m w with
       | (Ret a, w') => k a w'
       | (Raise e, w') => (Raise e, w')
       end.

(** The notations [x ← m; k] and [m;; k] sequence script steps. *)
Global Instance IO_ret : MRet IO := @ret.
Global Instance IO_bind : MBind IO := λ A B k m, bind m k.

(** [print(s)] *)
Definition print (s : string) : IO unit :=
  λ w, (Ret tt, World (files w) (stdout w ++ [s])).

(** A look at the file system. *)
Definition query {A} (f : FS → A) : IO A := λ w, (Ret (f (files w)), w).

(** A fallible read of the file system. *)
Definition try_read {A} (f : FS → exn + A) : IO A :=
  λ w, match f (files w) with
       | inr a => (Ret a, w)
       | inl e => (Raise e, w)
       end.

(** A fallible update of the file system. *)
Definition update (f : FS → exn + FS) : IO unit :=
  λ w, match f (files w) with
       | inr fs' => (Ret tt, World fs' (stdout w))
       | inl e => (Raise e, w)
       end.

Definition io_exists (p : Path) : IO bool := query (λ fs, path_exists fs p).
Definition io_is_dir (p : Path) : IO bool := query (λ fs, is_dir fs p).
Definition io_mkdir (p : Path) : IO unit := update (λ fs, mkdir_parents fs p).
Definition io_read_text (p : Path) : IO string :=
  try_read (λ fs, read_text fs p).
Definition io_read_text_ignore (p : Path) : IO string :=
  try_read (λ fs, read_text_ignore fs p).

(** [p.write_text(s, encoding="utf-8")]: the file is opened for writing
    (created, or emptied) and the text is encoded and stored; with the
    POSIX line separator it is stored as it is.  A text that cannot be
    encoded, one that holds the escape of an undecodable byte of a file
    name, raises once the file is open, and leaves it empty. *)
Definition io_write_text (p : Path) (s : string) : IO unit :=
  if Codec.utf8_valid s then update (λ fs, write_bytes fs p s)
  else update (λ fs, write_bytes fs p "");; raise UnicodeEncodeError.

Definition io_copy2 (src dst : Path) : IO unit :=
  update (λ fs, copy2 fs src dst).
Definition io_iterdir (d : Path) : IO (list Path) :=
  try_read (λ fs, iterdir fs d).

(** [for x in l: body(x)] *)
Fixpoint for_each {A} (l : list A) (body : A → IO unit) : IO unit :=
  match l with
  | [] => ret tt
  | x :: l' => body x;; for_each l' body
  end.

(** A loop that also updates a local value [s] (a list being appended
    to, a report being built). *)
Fixpoint for_fold {A S} (l : list A) (s : S) (body : A → S → IO S)
  : IO S :=
  match l with
  | [] => ret s
  | x :: l' => s' ← body x s; for_fold l' s' body
  end.

(** [root.rglob("*")]: nothing unless [root] is a directory. *)
Definition rglob_all (fs : FS) (root : Path) : list Path :=
  if is_dir fs root then descendants fs root else [].

(** [root.rglob("*.md")] *)
Definition rglob_md (fs : FS) (root : Path) : list Path :=
  filter (λ p, Is_true (Str.endswith ".md" (name p))) (rglob_all fs root).

End Fs.

(** ** [json.dumps] for the metadata records *)

Module Json.

Inductive value : Type :=
  | JStr (s : string)
  | JInt (n : N).

Definition quote : ascii := "034"%char.
Definition backslash : ascii := "092"%char.

Definition hex_digit (n : N) : ascii :=
  if (n <? 10)%N then Ascii.ascii_of_N (48 + n)
  else Ascii.ascii_of_N (87 + n).

(** [\uXXXX] for a code unit below 65536. *)
Definition u_escape (n : N) : string :=
  String backslash
    (String "u"
      (String (hex_digit (n / 4096))
        (String (hex_digit ((n / 256) mod 16))
          (String (hex_digit ((n / 16) mod 16))
            (String (hex_digit (n mod 16)) ""))))).

(** One character inside a JSON string.  With [ensure_ascii] every
    character outside the printable ASCII range is written as an escape,
    a character above [U+FFFF] as its surrogate pair; without it the
    characters from [U+007F] on are written as they are. *)
Definition escape_cp (ensure_ascii : bool) (c : N) : string :=
  if (c =? 34)%N then String backslash (String quote "")
  else if (c =? 92)%N then String backslash (String backslash "")
  else if (c =? 10)%N then String backslash "n"
  else if (c =? 13)%N then String backslash "r"
  else if (c =? 9)%N then String backslash "t"
  else if (c =? 8)%N then String backslash "b"
  else if (c =? 12)%N then String backslash "f"
  else if (c <? 32)%N then u_escape c
  else if ensure_ascii && (127 <=? c)%N then
    if (c <? 65536)%N then u_escape c
    else u_escape (55296 + (c - 65536) / 1024)
         +:+ u_escape (56320 + (c - 65536) mod 1024)
  else Unicode.encode_cp c.

Fixpoint escape_go (ensure_ascii : bool) (l : Unicode.str) : string :=
  match l with
  | [] => ""
  | c :: l' => escape_cp ensure_ascii c +:+ escape_go ensure_ascii l'
  end.

Definition escape (ensure_ascii : bool) (s : string) : string :=
  escape_go ensure_ascii (Unicode.fsdecode s).

Definition str_lit (ensure_ascii : bool) (s : string) : string :=
  String quote (escape ensure_ascii s +:+ String quote "").

Definition render (ensure_ascii : bool) (v : value) : string :=
  match v with
  | JStr s => str_lit ensure_ascii s
  | JInt n => pretty n
  end.

Fixpoint items (ensure_ascii : bool) (d : list (string * value)) : string :=
  match d with
  | [] => ""
  | [(k, v)] =>
      "  " +:+ str_lit ensure_ascii k +:+ ": " +:+ render ensure_ascii v
  | (k, v) :: d' =>
      "  " +:+ str_lit ensure_ascii k +:+ ": " +:+ render ensure_ascii v
      +:+ String "," (String Codec.LF (items ensure_ascii d'))
  end.

(** [json.dumps(d, indent=2, ensure_ascii=...)] of a flat dictionary *)
Definition dumps (ensure_ascii : bool) (d : list (string * value)) : string :=
  match d with
  | [] => "{}"
  | _ => String "{" (String Codec.LF (items ensure_ascii d))
         +:+ String Codec.LF "}"
  end.

End Json.

(** ** [build_master_from_imports.py] *)

Module Build.

Import Fs.

(** *** [TRACK_FILE_RE = re.compile(r"^(\d{2})[_-](.+)\.md$", re.IGNORECASE)] *)

(** [\d]: one decimal digit at the start of [s], a character of
    category [Nd] in any script; the bytes of the digit and what follows
    it.  The escape of an undecodable byte is no digit. *)
Definition re_digit (s : string) : option (string * string) :=
  match Codec.utf8_seq_len s with
  | Some n =>
      if Unicode.is_decimal (Unicode.scalar (Str.take n s))
      then Some (Str.take n s, Str.drop n s)
      else None
  | None => None
  end.

(** [\.md$]: what has to follow the slug.  Under [IGNORECASE] the two
    letters match in either case (no other character has [m] or [d] as
    its lower case); [$] matches at the end of the string and before a
    final line feed. *)
Definition re_tail (s : string) : bool :=
  match s with
  | String dot (String m (String d rest)) =>
      Ascii.eqb dot "."%char
      && (Ascii.eqb m "m"%char || Ascii.eqb m "M"%char)
      && (Ascii.eqb d "d"%char || Ascii.eqb d "D"%char)
      && match rest with
         | EmptyString => true
         | String nl EmptyString => Ascii.eqb nl Codec.LF
         | _ => false
         end
  | _ => false
  end.

(** [(.+)] followed by the tail: the group is greedy, so the longer
    candidates are tried first and the matcher backs off one character
    at a time; [.] matches every character but the line feed.  The tail
    starts with an ASCII character, so the group found byte by byte is
    the group found character by character. *)
Fixpoint re_slug (s : string) : option string :=
  match s with
  | EmptyString => None
  | String c s' =>
      if Ascii.eqb c Codec.LF then None
      else match re_slug s' with
           | Some g => Some (String c g)
           | None => if re_tail s' then Some (String c "") else None
           end
  end.

(** [TRACK_FILE_RE.match(name)], giving groups 1 and 2. *)
Definition TRACK_FILE_RE (name : string) : option (string * string) :=
  match re_digit name with
  | Some (d1, rest) =>
      match re_digit rest with
      | Some (d2, String sep rest) =>
          if Ascii.eqb sep "_"%char || Ascii.eqb sep "-"%char
          then (λ g, (d1 +:+ d2, g)) <$> re_slug rest
          else None
      | _ => None
      end
  | None => None
  end.

(** *** Album specifications *)

Record AlbumSpec : Type := {
  sku : string;
  album_code : string;
  import_dir : string;
  workspace_album : string;
  pull_album : string;
}.

Definition ALBUM_SPECS : list AlbumSpec := [
  {| sku := "HAWK-ARS-01"; album_code := "01_Singles";
     import_dir := "_imports/HAWK-ARS-00/01_singles";
     workspace_album := "01_Singles"; pull_album := "01_Singles" |};
  {| sku := "HAWK-ARS-02"; album_code := "01_Full_Disclosure";
     import_dir := "_imports/HAWK-ARS-00/02_mixtape_sessions/01_full_disclosure";
     workspace_album := "01_Full_Disclosure";
     pull_album := "01_Full_Disclosure" |};
  {| sku := "HAWK-ARS-02"; album_code := "02_Behold_A_Pale_Horse";
     import_dir := "_imports/HAWK-ARS-00/02_mixtape_sessions/02_behold_a_pale_horse";
     workspace_album := "02_Behold_A_Pale_Horse";
     pull_album := "02_Behold_A_Pale_Horse" |};
  {| sku := "HAWK-ARS-02"; album_code := "03_MiLabs";
     import_dir := "_imports/HAWK-ARS-00/02_mixtape_sessions/03_milabs";
     workspace_album := "03_MiLabs"; pull_album := "03_MiLabs" |};
  {| sku := "HAWK-ARS-03"; album_code := "01_Malicious_EP";
     import_dir := "_imports/HAWK-ARS-00/03_phase2/04_malicious";
     workspace_album := "01_Malicious_EP";
     pull_album := "01_Malicious_EP" |};
  {| sku := "HAWK-ARS-03"; album_code := "02_Shadow_Banned";
     import_dir := "_imports/HAWK-ARS-00/03_phase2/05_shadow_banned";
     workspace_album := "02_Shadow_Banned";
     pull_album := "02_Shadow_Banned" |};
  {| sku := "HAWK-ARS-04"; album_code := "01_Sun_Tzu_Secretz_To_War";
     import_dir := "_imports/HAWK-ARS-00/04_reckoning";
     workspace_album := "01_Sun_Tzu_Secretz_To_War";
     pull_album := "01_Sun_Tzu_Secretz_To_War" |}
].

Definition SUN_TZU_NOTEBOOK : string :=
  "_imports/HAWK-ARS-00/04_reckoning/Sun_Tzu.ipynb".
Definition SUN_TZU_DEST : string :=
  "HAWK-ARS-04/_workspace/01_Sun_Tzu_Secretz_To_War/Sun_Tzu.ipynb".

(** [canonicalize_slug]: [raw_slug.lower().replace("_", "-")] *)
Definition canonicalize_slug (raw_slug : Unicode.str) : Unicode.str :=
  Unicode.replace 95 45 (Unicode.lower raw_slug).

(** *** [apply_track_template] *)

Definition apply_track_template (track_dir template_root : Path)
  : IO unit :=
  template_paths ← query (λ fs, sorted (rglob_all fs template_root));
  for_each template_paths (λ template_path,
    let relative := relative_to template_root template_path in
    let target_path := track_dir ++ relative in
    d ← io_is_dir template_path;
    if d : bool then io_mkdir target_path
    else
      e ← io_exists target_path;
      if negb e then
        io_mkdir (parent target_path);;
        io_copy2 template_path target_path
      else mret tt).

(** *** [build_workspaces_for_album] *)

(** The strings of a record are kept in their file-system encoding, as
    the names they come from and go to. *)
Record Track : Type := {
  track_number : string;
  raw_slug : string;
  canonical_slug : string;
  workspace_dir : Path;
  lyrics_path : Path;
}.

Definition workspace_album_dir (spec : AlbumSpec) (base_dir : Path) : Path :=
  child (child (join base_dir (sku spec)) "_workspace")
        (workspace_album spec).

Definition pull_album_dir (spec : AlbumSpec) (base_dir : Path) : Path :=
  child (child (join base_dir (sku spec)) "_pull-bucket") (pull_album spec).

(** The body of the loop over the import files: [tracks] is the list
    built so far. *)
Definition import_one (spec : AlbumSpec) (base_dir template_root : Path)
    (md_path : Path) (tracks : list Track) : IO (list Track) :=
  if Str.contains "-checkpoint" (name md_path) then mret tracks
  else match TRACK_FILE_RE (name md_path) with
  | None => mret tracks
  | Some (track_num, raw_slug) =>
      let canonical_slug :=
        Unicode.fsencode (canonicalize_slug (Unicode.fsdecode raw_slug)) in
      let folder_name := track_num +:+ "_" +:+ canonical_slug in
      let workspace_track_dir :=
        child (workspace_album_dir spec base_dir) folder_name in
      io_mkdir workspace_track_dir;;
      apply_track_template workspace_track_dir template_root;;

      lyrics_text ← io_read_text md_path;
      let lyrics_dest := child (child workspace_track_dir "data") "lyrics.md" in
      io_mkdir (parent lyrics_dest);;
      io_write_text lyrics_dest lyrics_text;;

      let ipynb_source := with_suffix ".ipynb" md_path in
      e ← io_exists ipynb_source;
      (if e : bool then
         let ipynb_dest :=
           child workspace_track_dir
                 (track_num +:+ "_" +:+ canonical_slug +:+ ".ipynb") in
         io_copy2 ipynb_source ipynb_dest
       else mret tt);;

      let metadata := [
        ("sku", Json.JStr (sku spec));
        ("album", Json.JStr (workspace_album spec));
        ("track_number", Json.JInt (Unicode.int (Unicode.fsdecode track_num)));
        ("slug", Json.JStr canonical_slug);
        ("raw_slug", Json.JStr raw_slug);
        ("title", Json.JStr
           (Unicode.fsencode
              (Unicode.title
                 (Unicode.replace 95 32 (Unicode.fsdecode raw_slug)))))
      ] in
      let metadata_path :=
        child (child workspace_track_dir "data") "metadata.json" in
      io_write_text metadata_path (Json.dumps true metadata);;

      mret (tracks ++ [
        {| track_number := track_num;
           raw_slug := raw_slug;
           canonical_slug := canonical_slug;
           workspace_dir := workspace_track_dir;
           lyrics_path := lyrics_dest |} ])
  end.

Definition build_workspaces_for_album (spec : AlbumSpec)
    (base_dir template_root : Path) : IO (list Track) :=
  let import_dir := join base_dir (import_dir spec) in
  io_mkdir (workspace_album_dir spec base_dir);;
  io_mkdir (pull_album_dir spec base_dir);;

  e ← io_exists import_dir;
  if negb e then
    print ("[WARN] Import directory not found: " +:+ str_path import_dir);;
    mret []
  else
    md_paths ← query (λ fs, sorted (rglob_md fs import_dir));
    for_fold md_paths [] (import_one spec base_dir template_root).

(** *** [build_pull_bucket_for_album] *)

Definition pull_one (spec : AlbumSpec) (base_dir : Path) (track : Track)
  : IO unit :=
  let track_num := track_number track in
  let canonical_slug := canonical_slug track in
  let file_root := track_num +:+ "_" +:+ canonical_slug in
  lyrics_text ← io_read_text (lyrics_path track);

  let pull_md_path := child (pull_album_dir spec base_dir) (file_root +:+ ".md") in
  io_write_text pull_md_path lyrics_text;;

  let metadata := [
    ("sku", Json.JStr (sku spec));
    ("album", Json.JStr (workspace_album spec));
    ("album_code", Json.JStr (album_code spec));
    ("track_number", Json.JInt (Unicode.int (Unicode.fsdecode track_num)));
    ("slug", Json.JStr canonical_slug);
    ("raw_slug", Json.JStr (raw_slug track));
    ("title", Json.JStr
       (Unicode.fsencode
          (Unicode.title
             (Unicode.replace 95 32 (Unicode.fsdecode (raw_slug track))))));
    ("source_import", Json.JStr (str_path (join base_dir (import_dir spec))));
    ("workspace_track_dir", Json.JStr (str_path (workspace_dir track)))
  ] in
  let pull_json_path :=
    child (pull_album_dir spec base_dir) (file_root +:+ ".json") in
  io_write_text pull_json_path (Json.dumps true metadata);;

  print ("[TRACK] " +:+ file_root +:+ " â†’ created workspace + pull-bucket").

Definition build_pull_bucket_for_album (spec : AlbumSpec) (base_dir : Path)
    (tracks : list Track) : IO unit :=
  io_mkdir (pull_album_dir spec base_dir);;
  for_each tracks (pull_one spec base_dir).

(** *** [copy_sun_tzu_notebook] *)

Definition copy_sun_tzu_notebook (base_dir : Path) : IO unit :=
  let source := join base_dir SUN_TZU_NOTEBOOK in
  let destination := join base_dir SUN_TZU_DEST in
  io_mkdir (parent destination);;
  e ← io_exists source;
  if negb e then
    print ("[WARN] Sun Tzu notebook not found at " +:+ str_path source)
  else
    io_copy2 source destination;;
    print ("[SPECIAL] Copied Sun_Tzu.ipynb to " +:+ str_path destination).

(** *** [main] *)

(** The body of the loop of [main] over the album specifications. *)
Definition process_album (base_dir template_root : Path) (spec : AlbumSpec)
  : IO unit :=
  print ("[ALBUM] " +:+ sku spec +:+ " / " +:+ workspace_album spec);;
  tracks ← build_workspaces_for_album spec base_dir template_root;
  build_pull_bucket_for_album spec base_dir tracks.

Definition main : IO unit :=
  let base_dir : Path := [] in
  let template_root := child (child base_dir "_templates") "track" in
  for_each ALBUM_SPECS (process_album base_dir template_root);;
  copy_sun_tzu_notebook base_dir.

End Build.

(** ** [diff_album.py] *)

Module Diff.

Import Fs.

(** [list_tracks]: the dictionary from track name to folder, for the
    folders that hold [data/lyrics.md]. *)
Definition list_tracks (base : Path) : IO (gmap string Path) :=
  e ← io_exists base;
  if negb e then mret ∅
  else
    items ← io_iterdir base;
    for_fold (sorted items) ∅ (λ item tracks,
      d ← io_is_dir item;
      if negb d then mret tracks
      else
        let data_file := child (child item "data") "lyrics.md" in
        e ← io_exists data_file;
        if e : bool then mret (<[name item := item]> tracks)
        else mret tracks).

(** The scan shared by [load_import_tracks] and
    [list_pullbucket_tracks]: the stems, without ["-checkpoint"], of the
    entries whose suffix is one of [suffixes]. *)
Definition scan_stems (suffixes : list string) (root : Path)
  : IO (gset string) :=
  e ← io_exists root;
  if negb e then mret ∅
  else
    items ← io_iterdir root;
    for_fold items ∅ (λ f tracks,
      if bool_decide (suffix f ∈ suffixes) then
        let name := stem f in
        let name := Str.remove "-checkpoint" name in
        mret ({[name]} ∪ tracks)
      else mret tracks).

Definition load_import_tracks (import_root : Path) : IO (gset string) :=
  scan_stems [".ipynb"; ".md"] import_root.

Definition list_pullbucket_tracks (pb_base : Path) : IO (gset string) :=
  scan_stems [".json"; ".md"] pb_base.

Definition bullet (t : string) : string := "   - " +:+ t.

(** One of the four blocks of [diff] on a set difference: nothing for
    the empty set, else a heading, the sorted names and an empty line. *)
Definition block (heading : string) (tracks : gset string) : list string :=
  if decide (tracks = ∅) then []
  else heading :: (bullet <$> sorted_str (elements tracks)) ++ [""].

Definition MISSING_WS : string := "❌ Missing in WORKSPACE:".
Definition MISSING_PB : string := "❌ Missing in PULL-BUCKET:".
Definition EXTRA_WS : string :=
  "⚠️ Extra tracks in WORKSPACE (not in imports):".
Definition EXTRA_PB : string :=
  "⚠️ Extra tracks in PULL-BUCKET (not in imports):".
Definition CLEAN : string :=
  "✅ No differences found — album is clean." +:+ String Codec.LF "".

(** The per-track file check, for one track of the import set. *)
Definition check_track (workspace_dict : gmap string Path) (t : string)
    (report : list string) : IO (list string) :=
  match workspace_dict !! t with
  | None => mret report
  | Some ws =>
      let lyr := child (child ws "data") "lyrics.md" in
      let meta := child (child ws "data") "metadata.json" in
      let ipynb := child ws (t +:+ ".ipynb") in
      l ← io_exists lyr;
      incomplete ←
        (if negb l then mret true
         else m ← io_exists meta;
              if negb m then mret true
              else i ← io_exists ipynb; mret (negb i));
      if incomplete : bool then
        let report := report ++ ["⚠️ Incomplete WORKSPACE for " +:+ t +:+ ":"] in
        l ← io_exists lyr;
        let report :=
          if negb l then report ++ ["   - missing lyrics.md"] else report in
        m ← io_exists meta;
        let report :=
          if negb m then report ++ ["   - missing metadata.json"]
          else report in
        i ← io_exists ipynb;
        let report :=
          if negb i then report ++ ["   - missing " +:+ t +:+ ".ipynb"]
          else report in
        mret (report ++ [""])
      else mret report
  end.

(** [if not report: report = [CLEAN]] *)
Definition or_clean (report : list string) : list string :=
  match report with
  | [] => [CLEAN]
  | _ => report
  end.

(** The lines of the report, before they are joined. *)
Definition diff_report (import_set : gset string)
    (workspace_dict : gmap string Path) (pullbucket_set : gset string)
  : IO (list string) :=
  let work_set : gset string := dom workspace_dict in
  let missing_ws := import_set ∖ work_set in
  let missing_pb := import_set ∖ pullbucket_set in
  let extra_ws := work_set ∖ import_set in
  let extra_pb := pullbucket_set ∖ import_set in
  let report :=
    block MISSING_WS missing_ws ++ block MISSING_PB missing_pb
    ++ block EXTRA_WS extra_ws ++ block EXTRA_PB extra_pb in
  report ← for_fold (sorted_str (elements import_set)) report
              (check_track workspace_dict);
  mret (or_clean report).

(** [diff]: the report as one string. *)
Definition diff (import_set : gset string)
    (workspace_dict : gmap string Path) (pullbucket_set : gset string)
  : IO string :=
  report ← diff_report import_set workspace_dict pullbucket_set;
  mret (Str.join Codec.LF report).

(** [main], for the values of [--sku] and [--album]. *)
Definition main (sku album : string) : IO unit :=
  let ROOT : Path := [] in
  let import_root := join (join (child ROOT "_imports") sku) album in
  let workspace_root := join (child (join ROOT sku) "_workspace") album in
  let pullbucket_root := join (child (join ROOT sku) "_pull-bucket") album in
  print ("[IMPORT ROOT] " +:+ str_path import_root);;
  print ("[WORKSPACE]   " +:+ str_path workspace_root);;
  print ("[PULL-BUCKET] " +:+ str_path pullbucket_root
         +:+ String Codec.LF (String Codec.LF ""));;
  import_tracks ← load_import_tracks import_root;
  workspace_tracks ← list_tracks workspace_root;
  pullbucket_tracks ← list_pullbucket_tracks pullbucket_root;
  report ← diff import_tracks workspace_tracks pullbucket_tracks;
  print report.

End Diff.

(** ** [sync_lyrics_from_imports.py] *)

Module Sync.

Import Fs.

Definition BASE : Path := [].
Definition IMPORT_ROOT : Path := child (child BASE "_imports") "HAWK-ARS-00".

Record AlbumDef : Type := {
  name : string;
  sku : string;
  ws_album : string;
  import_subdir : string;
}.

Definition ALBUMS : list AlbumDef := [
  {| name := "Singles"; sku := "HAWK-ARS-01"; ws_album := "01_Singles";
     import_subdir := "01_singles" |};
  {| name := "Full Disclosure"; sku := "HAWK-ARS-02";
     ws_album := "01_Full_Disclosure";
     import_subdir := "02_mixtape_sessions/01_full_disclosure" |};
  {| name := "Behold A Pale Horse"; sku := "HAWK-ARS-02";
     ws_album := "02_Behold_A_Pale_Horse";
     import_subdir := "02_mixtape_sessions/02_behold_a_pale_horse" |};
  {| name := "MiLabs"; sku := "HAWK-ARS-02"; ws_album := "03_MiLabs";
     import_subdir := "02_mixtape_sessions/03_milabs" |};
  {| name := "Malicious EP"; sku := "HAWK-ARS-03";
     ws_album := "01_Malicious_EP";
     import_subdir := "03_phase2/04_malicious" |};
  {| name := "Shadow Banned"; sku := "HAWK-ARS-03";
     ws_album := "02_Shadow_Banned";
     import_subdir := "03_phase2/05_shadow_banned" |}
].

(** What [sync_album] decides for one folder of the workspace album.
    The source prints it ([SKIP], [MISS], [DRY] or [OK]); here each round
    also records it, so that two runs can be compared. *)
Inductive action : Type :=
  | SkipCheckpoint
  | Miss
  | Resolved (import_md : Path).

(** A reference matcher for one-component glob patterns made of literal
    characters, [?] and [*]. *)
Fixpoint fnmatch_plain (pat s : string) : bool :=
  match pat with
  | EmptyString => match s with EmptyString => true | _ => false end
  | String c pat' =>
      if Ascii.eqb c "*"%char then
        (fix star (s : string) : bool :=
           fnmatch_plain pat' s
           || match s with
              | EmptyString => false
              | String _ s' => star s'
              end) s
      else match s with
           | EmptyString => false
           | String d s' =>
               (Ascii.eqb c "?"%char || Ascii.eqb c d) && fnmatch_plain pat' s'
           end
  end.

Section glob.

(** [fnmatch pat n]: the entry named [n] is selected by the
    one-component glob pattern [pat].  The scripts build their patterns
    from folder names, and what the library does with every character of
    a pattern is left open here. *)
Variable fnmatch : string → string → bool.

(** What [d.glob(pat)] yields for a one-component pattern: the entries
    of [d] that the pattern selects, nothing unless [d] is a
    directory. *)
Definition glob_select (fs : FS) (d : Path) (pat : string) : list Path :=
  if is_dir fs d
  then filter (λ p, Is_true (fnmatch pat (Fs.name p))) (entries fs d)
  else [].

(** [d.glob(pat)], consumed at once, for a one-component pattern that
    holds a wildcard: a pattern with ["**"] inside the component is
    refused before the directory is looked at. *)
Definition glob (fs : FS) (d : Path) (pat : string) : exn + list Path :=
  if Str.contains "**" pat then inl ValueError
  else inr (glob_select fs d pat).

Definition io_glob (d : Path) (pat : string) : IO (list Path) :=
  try_read (λ fs, glob fs d pat).

(** [choose_import_md] *)
Definition choose_import_md (import_dir : Path) (track_folder_name : string)
  : IO (option Path) :=
  let prefix := Str.before_first "_"%char track_folder_name in
  found ← io_glob import_dir (prefix +:+ "_*.md");
  let candidates := sorted found in
  candidates ←
    match candidates with
    | [] => found ← io_glob import_dir (prefix +:+ "*.md");
            mret (sorted found)
    | _ => mret candidates
    end;
  match candidates with
  | [] => mret None
  | _ =>
      let non_web :=
        filter (λ c, Is_true (negb (Str.endswith "_web" (stem c))))
               candidates in
      match non_web with
      | c :: _ => mret (Some c)
      | [] => mret (head candidates)
      end
  end.

(** The body of the loop of [sync_album] over the entries of the
    workspace album; [log] holds the decisions of the earlier rounds. *)
Definition sync_track (album_def : AlbumDef) (dry_run : bool)
    (pb_album import_dir : Path) (track_dir : Path)
    (log : list (string * action)) : IO (list (string * action)) :=
  d ← io_is_dir track_dir;
  if negb d then mret log
  else
    let name := Fs.name track_dir in
    if Str.contains "checkpoint" name then
      print ("  [SKIP] " +:+ name +:+ " (checkpoint)");;
      mret (log ++ [(name, SkipCheckpoint)])
    else
      import_md ← choose_import_md import_dir name;
      match import_md with
      | None =>
          print ("  [MISS] " +:+ name
                 +:+ " → no matching .md found in imports");;
          mret (log ++ [(name, Miss)])
      | Some import_md =>
          lyrics ← io_read_text_ignore import_md;

          let data_dir := child track_dir "data" in
          io_mkdir data_dir;;
          let ws_lyrics := child data_dir "lyrics.md" in

          let pb_lyrics := child pb_album (name +:+ ".md") in
          let pb_meta := child pb_album (name +:+ ".json") in

          if dry_run then
            print ("  [DRY] " +:+ name);;
            print ("       import → " +:+ str_path import_md);;
            print ("       ws     → " +:+ str_path ws_lyrics);;
            print ("       pb     → " +:+ str_path pb_lyrics +:+ ", "
                   +:+ str_path pb_meta);;
            mret (log ++ [(name, Resolved import_md)])
          else
            io_write_text ws_lyrics lyrics;;
            io_write_text pb_lyrics lyrics;;

            let meta := [
              ("sku", Json.JStr (sku album_def));
              ("album", Json.JStr (Sync.name album_def));
              ("album_dir", Json.JStr (ws_album album_def));
              ("track_folder", Json.JStr name);
              ("source_import_md",
                 Json.JStr (str_path (relative_to BASE import_md)))
            ] in
            io_write_text pb_meta (Json.dumps false meta);;

            print ("  [OK] " +:+ name);;
            print ("       import → " +:+ Fs.name import_md);;
            print ("       ws     → " +:+ str_path (relative_to BASE ws_lyrics));;
            print ("       pb     → " +:+ str_path (relative_to BASE pb_lyrics));;
            mret (log ++ [(name, Resolved import_md)])
      end.

(** [sync_album]; the value returned is the log of decisions. *)
Definition sync_album (album_def : AlbumDef) (dry_run : bool)
  : IO (list (string * action)) :=
  let sku := sku album_def in
  let ws_album :=
    child (child (join BASE sku) "_workspace") (ws_album album_def) in
  let pb_album :=
    child (child (join BASE sku) "_pull-bucket") (Sync.ws_album album_def) in
  let import_dir := join IMPORT_ROOT (import_subdir album_def) in

  print (String Codec.LF ("[ALBUM] " +:+ sku +:+ " :: "
                          +:+ Sync.name album_def));;
  print ("  workspace: " +:+ str_path ws_album);;
  print ("  imports:   " +:+ str_path import_dir);;

  e ← io_exists ws_album;
  if negb e then
    print "  [WARN] workspace album missing, skipping.";; mret []
  else
    e ← io_exists import_dir;
    if negb e then
      print "  [WARN] import dir missing, skipping.";; mret []
    else
      io_mkdir pb_album;;
      items ← io_iterdir ws_album;
      for_fold (sorted items) []
        (sync_track album_def dry_run pb_album import_dir).

(** [main], for the value of [--dry-run]; the logs of the albums, in
    order. *)
Definition main (dry_run : bool) : IO (list (list (string * action))) :=
  for_fold ALBUMS [] (λ album_def logs,
    log ← sync_album album_def dry_run;
    mret (logs ++ [log])).

End glob.

End Sync.

(** ** Sample worlds, for evaluating the scripts *)

Module Sample.

Import Fs.

(** A template with one note and one data file, and one album's imports:
    a track with its notebook, an autosave copy and a stray text file. *)
Definition fs_imports : FS := list_to_map [
  (["_templates"], Dir);
  (["_templates"; "track"], Dir);
  (["_templates"; "track"; "README.md"], File "notes go here");
  (["_templates"; "track"; "data"], Dir);
  (["_templates"; "track"; "data"; "lyrics.md"], File "(lyrics)");
  (["_imports"], Dir);
  (["_imports"; "HAWK-ARS-00"], Dir);
  (["_imports"; "HAWK-ARS-00"; "01_singles"], Dir);
  (["_imports"; "HAWK-ARS-00"; "01_singles"; "05_Return_Of_Kings.md"],
     File "the kings return");
  (["_imports"; "HAWK-ARS-00"; "01_singles"; "05_Return_Of_Kings.ipynb"],
     File "{}");
  (["_imports"; "HAWK-ARS-00"; "01_singles"; "05_foo-checkpoint.md"],
     File "autosave");
  (["_imports"; "HAWK-ARS-00"; "01_singles"; "checkpoint.md"], File "x");
  (["_imports"; "HAWK-ARS-00"; "01_singles"; "notes.txt"], File "y")
].

Definition w_imports : world := World fs_imports [].

(** An import directory whose one file has its extension in upper
    case. *)
Definition fs_upper : FS := list_to_map [
  (["_imports"], Dir);
  (["_imports"; "HAWK-ARS-00"], Dir);
  (["_imports"; "HAWK-ARS-00"; "01_singles"], Dir);
  (["_imports"; "HAWK-ARS-00"; "01_singles"; "05_SONG.MD"],
     File "a song")
].

Definition singles : Build.AlbumSpec :=
  {| Build.sku := "HAWK-ARS-01"; Build.album_code := "01_Singles";
     Build.import_dir := "_imports/HAWK-ARS-00/01_singles";
     Build.workspace_album := "01_Singles";
     Build.pull_album := "01_Singles" |}.

Definition full_disclosure : Build.AlbumSpec :=
  {| Build.sku := "HAWK-ARS-02"; Build.album_code := "01_Full_Disclosure";
     Build.import_dir :=
       "_imports/HAWK-ARS-00/02_mixtape_sessions/01_full_disclosure";
     Build.workspace_album := "01_Full_Disclosure";
     Build.pull_album := "01_Full_Disclosure" |}.

Definition template_root : Path := ["_templates"; "track"].

Definition kings : Build.Track :=
  {| Build.track_number := "05";
     Build.raw_slug := "Return_Of_Kings";
     Build.canonical_slug := "return-of-kings";
     Build.workspace_dir :=
       ["HAWK-ARS-01"; "_workspace"; "01_Singles"; "05_return-of-kings"];
     Build.lyrics_path :=
       ["HAWK-ARS-01"; "_workspace"; "01_Singles"; "05_return-of-kings";
        "data"; "lyrics.md"] |}.

(** The notebook is there, and so is an older copy at the destination. *)
Definition fs_notebook : FS := list_to_map [
  (["_imports"], Dir);
  (["_imports"; "HAWK-ARS-00"], Dir);
  (["_imports"; "HAWK-ARS-00"; "04_reckoning"], Dir);
  (["_imports"; "HAWK-ARS-00"; "04_reckoning"; "Sun_Tzu.ipynb"],
     File "fresh notebook");
  (["HAWK-ARS-04"], Dir);
  (["HAWK-ARS-04"; "_workspace"], Dir);
  (["HAWK-ARS-04"; "_workspace"; "01_Sun_Tzu_Secretz_To_War"], Dir);
  (["HAWK-ARS-04"; "_workspace"; "01_Sun_Tzu_Secretz_To_War";
    "Sun_Tzu.ipynb"], File "stale notebook")
].

Definition w_notebook : world := World fs_notebook [].

(** The lyrics of the sample track after an edit that left a carriage
    return in the file, and what the pull bucket receives. *)
Definition edited : string :=
  "verse one" +:+ (String Codec.CR "verse two").

Definition normalised : string :=
  "verse one" +:+ (String Codec.LF "verse two").

Definition w_built : world :=
  (Build.build_workspaces_for_album singles [] template_root
     w_imports).2.

Definition w_edited : world :=
  World (<[Build.lyrics_path kings := File edited]> (files w_built))
        (stdout w_built).

(** The complete workspace of the example of the specification. *)
Definition fs_complete : FS := list_to_map [
  (["ws"], Dir);
  (["ws"; "01_a"], Dir);
  (["ws"; "01_a"; "data"], Dir);
  (["ws"; "01_a"; "data"; "lyrics.md"], File "la");
  (["ws"; "01_a"; "data"; "metadata.json"], File "{}");
  (["ws"; "01_a"; "01_a.ipynb"], File "{}")
].

(** An import directory with a lyrics file and its web variant, and one
    where the web variant of another song sorts first. *)
Definition fs_candidates : FS := list_to_map [
  (["imports"], Dir);
  (["imports"; "07_song.md"], File "song");
  (["imports"; "07_song_web.md"], File "song, web");
  (["imports"; "08_a_web.md"], File "a, web");
  (["imports"; "08_b.md"], File "b");
  (["imports"; "09_only_web.md"], File "web only")
].

(** A workspace album with one track folder that has no [data]
    directory yet, its import file, and no pull bucket. *)
Definition fs_fresh : FS := list_to_map [
  (["_imports"], Dir);
  (["_imports"; "HAWK-ARS-00"], Dir);
  (["_imports"; "HAWK-ARS-00"; "01_singles"], Dir);
  (["_imports"; "HAWK-ARS-00"; "01_singles"; "07_song.md"], File "song");
  (["_imports"; "HAWK-ARS-00"; "01_singles"; "07_song_web.md"], File "web");
  (["HAWK-ARS-01"], Dir);
  (["HAWK-ARS-01"; "_workspace"], Dir);
  (["HAWK-ARS-01"; "_workspace"; "01_Singles"], Dir);
  (["HAWK-ARS-01"; "_workspace"; "01_Singles"; "07_song"], Dir)
].

Definition log_fresh : list (list (string * Sync.action)) :=
  [[("07_song",
     Sync.Resolved ["_imports"; "HAWK-ARS-00"; "01_singles"; "07_song.md"])];
   []; []; []; []; []].

(** An import directory as Jupyter leaves it: a pair of files for one
    track, an autosave copy, a file without extension and a hidden
    file. *)
Definition fs_scan : FS := list_to_map [
  (["in"], Dir);
  (["in"; "01_a.md"], File "a");
  (["in"; "01_a.ipynb"], File "{}");
  (["in"; "02_b-checkpoint.md"], File "b");
  (["in"; "README"], File "r");
  (["in"; ".md"], File "hidden");
  (["ws"], Dir);
  (["ws"; "01_a"], Dir);
  (["ws"; "01_a"; "data"], Dir);
  (["ws"; "01_a"; "data"; "lyrics.md"], File "a");
  (["ws"; "02_b"], Dir);
  (["ws"; "notes.md"], File "n")
].

End Sample.

(** ** Notions used to state the properties

    None of these is part of the scripts: they name what the theorems
    below talk about. *)

Module Notions.

Import Fs.

(** *** Runs *)

(** [wp m Q w]: running [m] from [w] ends, by return or by exception,
    in an outcome and a world that satisfy [Q]. *)
Definition wp {A} (m : IO A) (Q : outcome A → world → Prop) (w : world)
  : Prop :=
  Q (m w).1 (m w).2.

(** *** Strings *)

(** The characters of a string, as a list. *)
Fixpoint chars (s : string) : list ascii :=
  match s with
  | EmptyString => []
  | String c s' => c :: chars s'
  end.

(** *** Slug canonicalisation *)

(** What [canonicalize_slug] makes of the character [c]: a hyphen of an
    underscore; a small sigma, in its final form or not, of a capital
    sigma; of any other character its lower-case image, which is the
    character itself when it has no other. *)
Definition canon_piece (c : N) (piece : list N) : Prop :=
  if (c =? 95)%N then piece = [45%N]
  else if (c =? Unicode.CAPITAL_SIGMA)%N
  then piece = [Unicode.SMALL_SIGMA] ∨ piece = [Unicode.FINAL_SIGMA]
  else piece = Unicode.to_lower c.

(** The same on ASCII: the letters [A] to [Z] become [a] to [z], an
    underscore becomes a hyphen, every other character stays. *)
Definition canon_ascii (c : N) : N :=
  if ((65 <=? c) && (c <=? 90))%N then (c + 32)%N
  else if (c =? 95)%N then 45%N else c.

(** A character that [canonicalize_slug] leaves alone: it has no
    lower-case image of its own, and is neither a capital sigma nor an
    underscore. *)
Definition settled (d : N) : bool :=
  bool_decide (Unicode.to_lower d = [d])
  && negb (d =? Unicode.CAPITAL_SIGMA)%N && negb (d =? 95)%N.

(** *** The template applier *)

(** The invariant of the loop of [apply_track_template] started in
    [fs0]: nothing of [fs0] has changed, and a regular file that is new
    is the copy of a template file to a path that [fs0] did not have. *)
Definition templated (track_dir template_root : Path) (fs0 fs : FS)
  : Prop :=
  fs0 ⊆ fs ∧
  ∀ p c, fs !! p = Some (File c) →
    fs0 !! p = Some (File c) ∨
    (fs0 !! p = None ∧
     ∃ rel, p = track_dir ++ rel ∧
            fs0 !! (template_root ++ rel) = Some (File c)).

(** *** The album builder *)

(** The decision the loop of [build_workspaces_for_album] takes on a
    file name: the two [continue] tests, in the order of the source. *)
Definition track_of_name (n : string) : option (string * string) :=
  if Str.contains "-checkpoint" n then None else Build.TRACK_FILE_RE n.

(** What identifies the import file of a record: the two groups. *)
Definition key (t : Build.Track) : string * string :=
  (Build.track_number t, Build.raw_slug t).

(** The bytes of one decimal digit: the UTF-8 form of a character of
    category [Nd]. *)
Definition digit (d : string) : Prop :=
  Codec.utf8_seq_len d = Some (String.length d) ∧
  Unicode.is_decimal (Unicode.scalar d) = true.

(** The language of the pattern [^(\d{2})[_-](.+)\.md$] under
    [IGNORECASE], read off the pattern: two digits, an underscore or a
    hyphen, a non-empty slug without line feed, a dot, the letters [m]
    and [d] in either case, and the end of the name or one final line
    feed. *)
Definition matches_pattern (n num slug : string) : Prop :=
  ∃ d1 d2 sep m d eol,
    n = d1 +:+ d2 +:+ String sep
          (slug +:+ String "."%char (String m (String d eol))) ∧
    num = d1 +:+ d2 ∧
    digit d1 ∧ digit d2 ∧
    (sep = "_"%char ∨ sep = "-"%char) ∧
    slug ≠ "" ∧ (∀ i, String.get i slug ≠ Some Codec.LF) ∧
    (m = "m"%char ∨ m = "M"%char) ∧ (d = "d"%char ∨ d = "D"%char) ∧
    (eol = "" ∨ eol = String Codec.LF "").

(** The track [t] is made from the import file [md_path]: the file
    is selected, its number is the number of [t], its slug has the
    canonical slug of [t], so that the folder of [t] is the folder of
    the file; the file held valid UTF-8 in [fs0], and in [fs] the lyrics
    of [t] are that text, with every line ending turned into a line
    feed. *)
Definition taken_from (fs0 fs : FS) (md_path : Path) (t : Build.Track)
  : Prop :=
  ∃ slug b,
    track_of_name (name md_path) = Some (Build.track_number t, slug) ∧
    Build.canonical_slug t =
      Unicode.fsencode (Build.canonicalize_slug (Unicode.fsdecode slug)) ∧
    fs0 !! md_path = Some (File b) ∧ Codec.utf8_valid b = true ∧
    fs !! Build.lyrics_path t = Some (File (Codec.universal_newlines b)).

(** The warning of [build_workspaces_for_album]. *)
Definition import_warning (spec : Build.AlbumSpec) : string :=
  "[WARN] Import directory not found: "
  +:+ str_path (join [] (Build.import_dir spec)).

(** The two lines of [copy_sun_tzu_notebook]. *)
Definition notebook_warning : string :=
  "[WARN] Sun Tzu notebook not found at "
  +:+ str_path (join [] Build.SUN_TZU_NOTEBOOK).

Definition notebook_copied : string :=
  "[SPECIAL] Copied Sun_Tzu.ipynb to "
  +:+ str_path (join [] Build.SUN_TZU_DEST).

(** The directory of the notebook's destination is in place: it is a
    directory, and so is everything above it. *)
Definition set_up (fs : FS) : Prop :=
  ∀ k, k ≠ [] → k `prefix_of` parent (join [] Build.SUN_TZU_DEST) →
       fs !! k = Some Dir.

(** *** The pull-bucket builder *)

(** The name, without extension, of the two files of a track. *)
Definition file_root (t : Build.Track) : string :=
  Build.track_number t +:+ "_" +:+ Build.canonical_slug t.

Definition pull_md_path (spec : Build.AlbumSpec) (base_dir : Path)
    (t : Build.Track) : Path :=
  child (Build.pull_album_dir spec base_dir) (file_root t +:+ ".md").

Definition pull_json_path (spec : Build.AlbumSpec) (base_dir : Path)
    (t : Build.Track) : Path :=
  child (Build.pull_album_dir spec base_dir) (file_root t +:+ ".json").

(** A record as [build_workspaces_for_album] makes it: the lyrics path
    is [data/lyrics.md] in the track folder of the workspace album. *)
Definition recorded (spec : Build.AlbumSpec) (base_dir : Path)
    (t : Build.Track) : Prop :=
  Build.lyrics_path t =
  child (child (child (Build.workspace_album_dir spec base_dir)
                      (file_root t)) "data") "lyrics.md".

(** *** The tree diff reporter *)

(** The lines [check_track] adds for the track [t], read off a file
    system. *)
Definition track_lines (fs : FS) (workspace_dict : gmap string Path)
    (t : string) : list string :=
  match workspace_dict !! t with
  | None => []
  | Some ws =>
      let l := path_exists fs (child (child ws "data") "lyrics.md") in
      let m := path_exists fs (child (child ws "data") "metadata.json") in
      let i := path_exists fs (child ws (t +:+ ".ipynb")) in
      if l && m && i then []
      else ["⚠️ Incomplete WORKSPACE for " +:+ t +:+ ":"]
           ++ (if l then [] else ["   - missing lyrics.md"])
           ++ (if m then [] else ["   - missing metadata.json"])
           ++ (if i then [] else ["   - missing " +:+ t +:+ ".ipynb"])
           ++ [""]
  end.

(** *** The lyrics sync tool *)

(** A candidate whose stem does not end in ["_web"]. *)
Definition non_web (c : Path) : Prop := Str.endswith "_web" (stem c) = false.

Global Instance non_web_dec c : Decision (non_web c).
Proof. unfold non_web. apply _. Defined.

(** The choice among the candidates, as [choose_import_md] ends. *)
Definition pick (candidates : list Path) : option Path :=
  match candidates with
  | [] => None
  | _ =>
      match filter (λ c, Is_true (negb (Str.endswith "_web" (stem c))))
                   candidates with
      | c :: _ => Some c
      | [] => head candidates
      end
  end.

(** The candidates as [choose_import_md] finds them: the entries
    selected by [{prefix}_*.md], or else those selected by
    [{prefix}*.md], sorted. *)
Definition candidates_of (fnmatch : string → string → bool) (fs : FS)
    (import_dir : Path) (track_folder_name : string) : list Path :=
  let prefix := Str.before_first "_"%char track_folder_name in
  match sorted (Sync.glob_select fnmatch fs import_dir (prefix +:+ "_*.md"))
  with
  | [] => sorted (Sync.glob_select fnmatch fs import_dir (prefix +:+ "*.md"))
  | l => l
  end.

(** Whether [choose_import_md] stops on a refused pattern: the first
    pattern holds ["**"], or it selects nothing and the second pattern
    holds ["**"]. *)
Definition refused (fnmatch : string → string → bool) (fs : FS)
    (import_dir : Path) (track_folder_name : string) : bool :=
  let prefix := Str.before_first "_"%char track_folder_name in
  Str.contains "**" (prefix +:+ "_*.md")
  || match sorted (Sync.glob_select fnmatch fs import_dir
                     (prefix +:+ "_*.md")) with
     | [] => Str.contains "**" (prefix +:+ "*.md")
     | _ => false
     end.

(** [fs] is [fs0] with, at most, more directories. *)
Definition only_dirs (fs0 fs : FS) : Prop :=
  fs0 ⊆ fs ∧ ∀ p c, fs !! p = Some (File c) → fs0 !! p = Some (File c).

(** The paths a real run writes to: the lyrics of a track folder of a
    workspace album, and the files of a pull-bucket album. *)
Definition written (p : Path) : bool :=
  match p with
  | [_; b; _; _] => String.eqb b "_pull-bucket"
  | [_; b; _; _; d; l] =>
      String.eqb b "_workspace" && String.eqb d "data"
      && String.eqb l "lyrics.md"
  | _ => false
  end.

(** The two runs see the same file system wherever neither writes. *)
Definition agree (fd fr : FS) : Prop :=
  ∀ p, written p = false → fd !! p = fr !! p.

(** The places of an album: its workspace folder, its pull-bucket
    folder and its import folder. *)
Definition ws_shape (d : Path) : Prop := ∃ s a, d = [s; "_workspace"; a].
Definition pb_shape (d : Path) : Prop := ∃ s a, d = [s; "_pull-bucket"; a].
Definition import_shape (d : Path) : Prop :=
  ∃ rest, d = "_imports" :: "HAWK-ARS-00" :: rest.

(** *** The tree diff reporter *)

(** A command-line value that names a place below the current
    directory: a relative path without [..] components. *)
Definition plain (s : string) : Prop :=
  Str.startswith "/" s = false ∧ ".." ∉ parts s.

(** What [list_tracks] asks of an entry of the workspace album: a
    directory that holds [data/lyrics.md]. *)
Definition is_track (fs : FS) (item : Path) : bool :=
  is_dir fs item
  && path_exists fs (child (child item "data") "lyrics.md").

(** The three files [diff] looks for in the folder [ws] of track [t]. *)
Definition complete (fs : FS) (ws : Path) (t : string) : Prop :=
  path_exists fs (child (child ws "data") "lyrics.md") = true ∧
  path_exists fs (child (child ws "data") "metadata.json") = true ∧
  path_exists fs (child ws (t +:+ ".ipynb")) = true.

(** *** What a run may do to an entry *)

(** An entry is created, or a regular file is written over a regular
    file: nothing is removed and nothing changes kind. *)
Definition change_ok (old new : option node) : Prop :=
  match old, new with
  | None, Some _ => True
  | Some (File _), Some (File _) => True
  | _, _ => False
  end.

(** [fs'] is [fs] but for such changes, all of them at paths in
    [place]. *)
Definition grown (place : Path → Prop) (fs fs' : FS) : Prop :=
  ∀ p, fs' !! p = fs !! p ∨ (place p ∧ change_ok (fs !! p) (fs' !! p)).

(** On the way to one of the directories [roots], or inside one. *)
Definition near (roots : list Path) (q : Path) : Prop :=
  q ≠ [] ∧ ∃ r, r ∈ roots ∧ (q `prefix_of` r ∨ r `prefix_of` q).

(** The album directories the builder writes to. *)
Definition output_dirs : list Path :=
  ((λ spec, Build.workspace_album_dir spec []) <$> Build.ALBUM_SPECS)
  ++ ((λ spec, Build.pull_album_dir spec []) <$> Build.ALBUM_SPECS).

(** *** The tracks of the album builder *)

(** A record as the loop of [build_workspaces_for_album] makes it from
    a match of [TRACK_FILE_RE]. *)
Definition well_made (spec : Build.AlbumSpec) (base_dir : Path)
    (t : Build.Track) : Prop :=
  (∃ d1 d2, Build.track_number t = d1 +:+ d2 ∧ digit d1 ∧ digit d2) ∧
  Build.raw_slug t ≠ "" ∧
  Build.canonical_slug t =
    Unicode.fsencode
      (Build.canonicalize_slug (Unicode.fsdecode (Build.raw_slug t))) ∧
  Build.workspace_dir t =
    child (Build.workspace_album_dir spec base_dir) (file_root t) ∧
  Build.lyrics_path t =
    child (child (Build.workspace_dir t) "data") "lyrics.md".

(** A regular file that holds a text as [read_text] gives it: with
    every line ending turned into a line feed. *)
Definition normal (fs : FS) (p : Path) : Prop :=
  ∃ b, fs !! p = Some (File (Codec.universal_newlines b)).

(** A track as the album builder leaves it: its folder, its lyrics and
    its metadata. *)
Definition built (fs : FS) (t : Build.Track) : Prop :=
  fs !! Build.workspace_dir t = Some Dir ∧
  normal fs (Build.lyrics_path t) ∧
  ∃ j, fs !! child (child (Build.workspace_dir t) "data") "metadata.json"
       = Some (File j).

(** *** The template applier *)

(** What a round of [apply_track_template] leaves for the template
    entry [template_path] of the listing taken in [fs0]: its target
    exists, and for a directory of the template the target and all that
    is above it are directories. *)
Definition applied (track_dir template_root : Path) (fs0 fs : FS)
    (template_path : Path) : Prop :=
  let target := track_dir ++ relative_to template_root template_path in
  path_exists fs target = true ∧
  (fs0 !! template_path = Some Dir →
   ∀ k, k ≠ [] → k `prefix_of` target → fs !! k = Some Dir).

(** *** The sync tool *)

(** The three places of an album of the sync tool, as [sync_album]
    computes them. *)
Definition sync_ws (album_def : Sync.AlbumDef) : Path :=
  child (child (join Sync.BASE (Sync.sku album_def)) "_workspace")
        (Sync.ws_album album_def).

Definition sync_pb (album_def : Sync.AlbumDef) : Path :=
  child (child (join Sync.BASE (Sync.sku album_def)) "_pull-bucket")
        (Sync.ws_album album_def).

Definition sync_imports (album_def : Sync.AlbumDef) : Path :=
  join Sync.IMPORT_ROOT (Sync.import_subdir album_def).

(** The album directories the sync tool writes to. *)
Definition sync_dirs : list Path :=
  (sync_ws <$> Sync.ALBUMS) ++ (sync_pb <$> Sync.ALBUMS).

(** The three lines [sync_album] prints first. *)
Definition sync_heading (album_def : Sync.AlbumDef) : list string :=
  [ String Codec.LF ("[ALBUM] " +:+ Sync.sku album_def +:+ " :: "
                     +:+ Sync.name album_def);
    "  workspace: " +:+ str_path (sync_ws album_def);
    "  imports:   " +:+ str_path (sync_imports album_def) ].

(** The text [sync_album] takes from the bytes of an import file. *)
Definition decoded (b : string) : string :=
  Codec.universal_newlines (Codec.utf8_ignore b).

(** What [sync_album] decides for the track folder named [n], read off
    a file system: the tests of the loop, in the order of the source. *)
Definition decision (fnmatch : string → string → bool) (fs : FS)
    (import_dir : Path) (n : string) : Sync.action :=
  if Str.contains "checkpoint" n then Sync.SkipCheckpoint
  else match pick (candidates_of fnmatch fs import_dir n) with
       | None => Sync.Miss
       | Some import_md => Sync.Resolved import_md
       end.

(** The decisions for an album: one for each directory of its
    workspace, in the order of the sorted listing. *)
Definition decisions (fnmatch : string → string → bool) (fs : FS)
    (album_def : Sync.AlbumDef) : list (string * Sync.action) :=
  (λ track_dir,
     (name track_dir,
      decision fnmatch fs (sync_imports album_def) (name track_dir)))
  <$> filter (λ track_dir, is_dir fs track_dir = true)
             (sorted (entries fs (sync_ws album_def))).

(** The lyrics of the track folder [n] as a real run leaves them, for
    the import file [import_md] as it is in [fs0]: the workspace file
    and the pull-bucket file both hold its decoded text, and the metadata
    file is there. *)
Definition mirrored (fs0 fs : FS) (ws pb : Path) (n : string)
    (import_md : Path) : Prop :=
  ∃ b, fs0 !! import_md = Some (File b) ∧
       fs !! (ws ++ [n; "data"; "lyrics.md"]) = Some (File (decoded b)) ∧
       fs !! child pb (n +:+ ".md") = Some (File (decoded b)) ∧
       ∃ j, fs !! child pb (n +:+ ".json") = Some (File j).

(** The entry [q] is one that [d.glob(pat)] yields. *)
Definition selected (fnmatch : string → string → bool) (fs : FS)
    (d : Path) (pat : string) (q : Path) : Prop :=
  is_dir fs d = true ∧ is_Some (fs !! q) ∧ child_of d q ∧
  fnmatch pat (name q) = true.

(** *** Exceptions *)

(** The outcome is a return, or an exception among [allowed]. *)
Definition raises_only {A} (allowed : list exn) (o : outcome A) : Prop :=
  match o with
  | Ret _ => True
  | Raise e => e ∈ allowed
  end.

(** What the file system hands to the sync tool when a path is in the
    way or is missing. *)
Definition os_errors : list exn :=
  [FileExistsError; FileNotFoundError; NotADirectoryError;
   IsADirectoryError].

(** The exceptions of the sync tool: those, the one of a refused glob
    pattern and the one of a text that cannot be encoded. *)
Definition sync_errors : list exn :=
  os_errors ++ [ValueError; UnicodeEncodeError].

End Notions.

(** ** Reasoning about script runs *)

Module Run.

Import Fs Notions.

Lemma wp_mono {A} (m : IO A) (Q Q' : outcome A → world → Prop) w :
  wp m Q w → (∀ o w', Q o w' → Q' o w') → wp m Q' w.
Proof. unfold wp. auto. Qed.

Lemma wp_ret {A} (a : A) Q w : Q (Ret a) w → wp (mret a) Q w.
Proof. done. Qed.

Lemma wp_bind {A B} (m : IO A) (k : A → IO B) Q w :
  wp m (λ o w', match o with
                | Ret a => wp (k a) Q w'
                | Raise e => Q (Raise e) w'
                end) w →
  wp (m ≫= k) Q w.
Proof.
  unfold wp, mbind, IO_bind, bind. by destruct (m w) as [[a|e] w'].
Qed.

Lemma wp_query {A} (f : FS → A) Q w :
  Q (Ret (f (files w))) w → wp (query f) Q w.
Proof. done. Qed.

Lemma wp_print s Q w :
  Q (Ret tt) (World (files w) (stdout w ++ [s])) → wp (print s) Q w.
Proof. done. Qed.

Lemma wp_update f Q w :
  match f (files w) with
  | inr fs' => Q (Ret tt) (World fs' (stdout w))
  | inl e => Q (Raise e) w
  end →
  wp (update f) Q w.
Proof. unfold wp, update. by destruct (f (files w)). Qed.

Lemma wp_try_read {A} (f : FS → exn + A) Q w :
  match f (files w) with
  | inr a => Q (Ret a) w
  | inl e => Q (Raise e) w
  end →
  wp (try_read f) Q w.
Proof. unfold wp, try_read. by destruct (f (files w)). Qed.

(** A loop keeps an invariant that each round keeps, whether the round
    returns or raises. *)
Lemma wp_for_each {A} (l : list A) (body : A → IO unit)
    (I : world → Prop) w :
  I w →
  (∀ x w0, x ∈ l → I w0 → wp (body x) (λ _ w', I w') w0) →
  wp (for_each l body) (λ _ w', I w') w.
Proof.
  revert w. induction l as [|x l IH]; intros w Hw Hbody; simpl.
  - by apply wp_ret.
  - apply wp_bind. eapply wp_mono.
    + apply (Hbody x w); [left | done].
    + intros [[]|e] w' Hw'; [|done].
      apply IH; [done|]. intros y w0 Hy. apply Hbody. by right.
Qed.

Lemma wp_for_fold {A S} (l : list A) (s : S) (body : A → S → IO S)
    (I : world → Prop) w :
  I w →
  (∀ x s0 w0, x ∈ l → I w0 → wp (body x s0) (λ _ w', I w') w0) →
  wp (for_fold l s body) (λ _ w', I w') w.
Proof.
  revert s w. induction l as [|x l IH]; intros s w Hw Hbody; simpl.
  - by apply wp_ret.
  - apply wp_bind. eapply wp_mono.
    + apply (Hbody x s w); [left | done].
    + intros [s'|e] w' Hw'; [|done].
      apply IH; [done|]. intros y s0 w0 Hy. apply Hbody. by right.
Qed.

Lemma bind_ret {A B} (m : IO A) (k : A → IO B) w a w' :
  m w = (Ret a, w') → (m ≫= k) w = k a w'.
Proof. intros H. unfold mbind, IO_bind, bind. by rewrite H. Qed.

Lemma bind_raise {A B} (m : IO A) (k : A → IO B) w e w' :
  m w = (Raise e, w') → (m ≫= k) w = (Raise e, w').
Proof. intros H. unfold mbind, IO_bind, bind. by rewrite H. Qed.

(** *** Inverting a run that returned *)

Lemma wp_any {A} (m : IO A) (Q : outcome A → world → Prop) w :
  (∀ o w', Q o w') → wp m Q w.
Proof. unfold wp. auto. Qed.

Lemma wp_eq {A} (m : IO A) (Q : outcome A → world → Prop) w o w' :
  m w = (o, w') → Q o w' → wp m Q w.
Proof. unfold wp. by intros ->. Qed.

Lemma bind_inv {A B} (m : IO A) (k : A → IO B) w b w' :
  (m ≫= k) w = (Ret b, w') →
  ∃ a w1, m w = (Ret a, w1) ∧ k a w1 = (Ret b, w').
Proof.
  unfold mbind, IO_bind, bind. destruct (m w) as [[a|e] w1]; [|done]. eauto.
Qed.

Lemma update_inv f w u w' :
  update f w = (Ret u, w') →
  ∃ fs', f (files w) = inr fs' ∧ w' = World fs' (stdout w).
Proof.
  unfold update. destruct (f (files w)) as [e|fs']; [done|].
  intros [= _ <-]. eauto.
Qed.

Lemma try_read_inv {A} (f : FS → exn + A) w a w' :
  try_read f w = (Ret a, w') → f (files w) = inr a ∧ w' = w.
Proof.
  unfold try_read. destruct (f (files w)) as [e|a']; [done|].
  by intros [= <- <-].
Qed.

Lemma query_inv {A} (f : FS → A) w a w' :
  query f w = (Ret a, w') → a = f (files w) ∧ w' = w.
Proof. by intros [= <- <-]. Qed.

Lemma for_fold_inv {A S} (l : list A) (body : A → S → IO S)
    (P : S → world → Prop) :
  (∀ x s w s' w', x ∈ l → P s w → body x s w = (Ret s', w') → P s' w') →
  ∀ s w s' w', P s w → for_fold l s body w = (Ret s', w') → P s' w'.
Proof.
  induction l as [|x l IH]; intros Hbody s w s' w' HP H.
  - by injection H as <- <-.
  - cbn [for_fold] in H.
    apply bind_inv in H as (s1 & w1 & H1 & H).
    eapply IH; [|eapply (Hbody x); [by left|done..]|done].
    intros y ?????. apply Hbody. by right.
Qed.

Lemma wp_raise {A} e (Q : outcome A → world → Prop) w :
  Q (Raise e) w → wp (raise e) Q w.
Proof. done. Qed.

(** *** Writing a text *)

(** A write that returned has stored the text. *)
Lemma write_text_inv p s w u w' :
  io_write_text p s w = (Ret u, w') →
  ∃ fs', write_bytes (files w) p s = inr fs' ∧ w' = World fs' (stdout w).
Proof.
  unfold io_write_text. destruct (Codec.utf8_valid s).
  - apply update_inv.
  - intros H. apply bind_inv in H as (? & ? & _ & H). done.
Qed.

Lemma write_text_valid p s w u w' :
  io_write_text p s w = (Ret u, w') → Codec.utf8_valid s = true.
Proof.
  unfold io_write_text. destruct (Codec.utf8_valid s); [done|].
  intros H. apply bind_inv in H as (? & ? & _ & H). done.
Qed.

Lemma wp_write_text_ret p s (Q : outcome unit → world → Prop) w :
  (∀ fs', write_bytes (files w) p s = inr fs' →
          Q (Ret tt) (World fs' (stdout w))) →
  (∀ e w', Q (Raise e) w') →
  wp (io_write_text p s) Q w.
Proof.
  intros Hret Hraise. unfold io_write_text. destruct (Codec.utf8_valid s).
  - apply wp_update. destruct (write_bytes _ _ _) eqn:E; [done|].
    by apply Hret.
  - apply wp_bind, wp_update.
    destruct (write_bytes (files w) p "");
      [apply Hraise|apply wp_raise, Hraise].
Qed.

(** Whatever a write does, it is a store of some bytes at its path. *)
Lemma wp_write_text p s (I : world → Prop) w :
  I w →
  (∀ c fs', write_bytes (files w) p c = inr fs' →
            I (World fs' (stdout w))) →
  wp (io_write_text p s) (λ _ w', I w') w.
Proof.
  intros Hw Hst. unfold io_write_text. destruct (Codec.utf8_valid s).
  - apply wp_update. destruct (write_bytes _ _ _) eqn:E; [done|].
    by eapply Hst.
  - apply wp_bind, wp_update.
    destruct (write_bytes (files w) p "") eqn:E; [done|].
    apply wp_raise. by eapply Hst.
Qed.

(** A run is its outcome and the world it ends in. *)
Lemma run_eq {A} (m : IO A) w o : (m w).1 = o → m w = (o, (m w).2).
Proof. intros <-. by destruct (m w). Qed.

End Run.

(** ** Facts about strings *)

Module StrFacts.

Import Notions.

Lemma chars_app s t : chars (s +:+ t) = chars s ++ chars t.
Proof.
  induction s as [|c s IH]; [done|].
  change (String c s +:+ t) with (String c (s +:+ t)). simpl. by rewrite IH.
Qed.

Lemma chars_inj s t : chars s = chars t → s = t.
Proof.
  revert t. induction s as [|c s IH]; intros [|c' t]; simpl; try done.
  intros [= -> H]. by rewrite (IH _ H).
Qed.

Lemma str_app_inv_tail s1 s2 t : s1 +:+ t = s2 +:+ t → s1 = s2.
Proof.
  intros H. apply chars_inj. apply (f_equal chars) in H.
  rewrite !chars_app in H. by apply app_inv_tail in H.
Qed.

Lemma md_is_not_json r1 r2 : r1 +:+ ".md" ≠ r2 +:+ ".json".
Proof.
  intros H. apply (f_equal chars) in H. rewrite !chars_app in H.
  change (chars ".json") with (chars ".j" ++ chars "son") in H.
  rewrite (assoc_L (++)) in H. by apply app_inj_2 in H as [_ ?].
Qed.

End StrFacts.

(** ** Facts about the file system operations *)

Module FsFacts.

Import Fs Notions Run.

Lemma succeeds_inr (r : exn + FS) : succeeds r = true → r = inr (result_fs r).
Proof. by destruct r. Qed.

Lemma stat_lookup fs p : p ≠ [] → stat fs p = fs !! p.
Proof. by destruct p. Qed.

Lemma path_exists_false fs p : path_exists fs p = false → fs !! p = None.
Proof.
  unfold path_exists. destruct p as [|c p]; simpl; [done|].
  by destruct (fs !! (c :: p)).
Qed.

Lemma is_dir_true fs p : is_dir fs p = true → p = [] ∨ fs !! p = Some Dir.
Proof.
  unfold is_dir. destruct p as [|c p]; simpl; [by left|].
  destruct (fs !! (c :: p)) as [[]|]; try done. by right.
Qed.

(** What [mkdir_parents] changes: it only adds directories, and only at
    prefixes of the path asked for. *)
Lemma mkdir_from_spec fs above todo fs' :
  mkdir_from fs above todo = inr fs' →
  fs ⊆ fs' ∧
  ∀ p, fs' !! p ≠ fs !! p →
    fs !! p = None ∧ fs' !! p = Some Dir ∧
    p `prefix_of` (above ++ todo) ∧ length above < length p.
Proof.
  revert fs above. induction todo as [|c rest IH]; intros fs above H; simpl in H.
  - simplify_eq. split; [done|]. by intros p [].
  - destruct (fs !! (above ++ [c])) as [[b|]|] eqn:E; [done| |].
    + apply IH in H as [Hsub Hnew]. split; [done|].
      intros p Hp. destruct (Hnew p Hp) as (?&?&Hpre&Hlen).
      rewrite <-(assoc_L (++)) in Hpre. rewrite length_app in Hlen.
      simpl in *. repeat split; [done..|lia].
    + apply IH in H as [Hsub Hnew]. split.
      { etrans; [|done]. by apply insert_subseteq. }
      intros p Hp. destruct (decide (p = above ++ [c])) as [->|Hne].
      * assert (fs' !! (above ++ [c]) = Some Dir) as Hd.
        { eapply lookup_weaken; [|done]. apply lookup_insert_eq. }
        repeat split; [done|done| |rewrite length_app; simpl; lia].
        by apply prefix_app, prefix_cons, prefix_nil.
      * rewrite <-(lookup_insert_ne fs (above ++ [c]) p Dir) in Hp by done.
        destruct (Hnew p Hp) as (Hn&?&Hpre&Hlen).
        rewrite lookup_insert_ne in Hn by done.
        rewrite <-(assoc_L (++)) in Hpre. rewrite length_app in Hlen.
        simpl in *. repeat split; [done..|lia].
Qed.

Lemma mkdir_parents_spec fs p fs' :
  mkdir_parents fs p = inr fs' →
  fs ⊆ fs' ∧
  ∀ q, fs' !! q ≠ fs !! q →
    fs !! q = None ∧ fs' !! q = Some Dir ∧ q `prefix_of` p ∧ q ≠ [].
Proof.
  intros H. apply mkdir_from_spec in H as [Hsub Hnew]. split; [done|].
  intros q Hq. destruct (Hnew q Hq) as (?&?&?&Hlen).
  repeat split; try done. intros ->. simpl in Hlen. lia.
Qed.

(** A new entry of a grown file system is one that was absent. *)
Lemma lookup_grown (fs fs' : FS) p n :
  fs ⊆ fs' → fs' !! p = Some n → fs !! p = Some n ∨ fs !! p = None.
Proof.
  intros Hsub Hp. destruct (fs !! p) as [m|] eqn:E; [left|by right].
  by rewrite (lookup_weaken _ _ _ _ E Hsub) in Hp.
Qed.

Lemma write_bytes_spec fs p b fs' :
  write_bytes fs p b = inr fs' → p ≠ [] ∧ fs' = <[p := File b]> fs.
Proof.
  unfold write_bytes. destruct p as [|c p]; [done|].
  destruct (stat fs (c :: p)) as [[]|]; try done;
    destruct (stat fs (parent (c :: p))) as [[]|]; naive_solver.
Qed.

Lemma read_bytes_spec fs p b :
  read_bytes fs p = inr b → fs !! p = Some (File b).
Proof.
  unfold read_bytes. destruct p as [|c p]; [done|]. simpl.
  destruct (fs !! (c :: p)) as [[]|]; naive_solver.
Qed.

(** Membership in the listings. *)
Lemma elem_of_descendants fs root p :
  p ∈ descendants fs root ↔ is_Some (fs !! p) ∧ below root p.
Proof.
  unfold descendants. rewrite list_elem_of_fmap. split.
  - intros [[q n] [-> H]]. apply elem_of_map_to_list in H.
    apply map_lookup_filter_Some in H as [H1 H2]. simpl in *. eauto.
  - intros [[n Hn] Hb]. exists (p, n). split; [done|].
    apply elem_of_map_to_list, map_lookup_filter_Some. by split.
Qed.

Lemma elem_of_entries fs d p :
  p ∈ entries fs d ↔ is_Some (fs !! p) ∧ child_of d p.
Proof.
  unfold entries. rewrite list_elem_of_fmap. split.
  - intros [[q n] [-> H]]. apply elem_of_map_to_list in H.
    apply map_lookup_filter_Some in H as [H1 H2]. simpl in *. eauto.
  - intros [[n Hn] Hb]. exists (p, n). split; [done|].
    apply elem_of_map_to_list, map_lookup_filter_Some. by split.
Qed.

Lemma elem_of_sorted l p : p ∈ sorted l ↔ p ∈ l.
Proof. unfold sorted. by rewrite merge_sort_Permutation. Qed.

Lemma elem_of_rglob_all fs root p :
  p ∈ rglob_all fs root → is_Some (fs !! p) ∧ below root p.
Proof.
  unfold rglob_all. destruct (is_dir fs root).
  - apply elem_of_descendants.
  - by intros ?%elem_of_nil.
Qed.

Lemma below_relative root p :
  below root p → p = root ++ relative_to root p ∧ relative_to root p ≠ [].
Proof.
  intros [[k ->] Hne]. unfold relative_to.
  rewrite drop_app_length. split; [done|]. intros ->.
  by rewrite (right_id_L [] (++)) in Hne.
Qed.

Lemma read_text_inv fs p s :
  read_text fs p = inr s →
  ∃ b, fs !! p = Some (File b) ∧ Codec.utf8_valid b = true ∧
       s = Codec.universal_newlines b.
Proof.
  unfold read_text. destruct (read_bytes fs p) as [e|b] eqn:Hr; [done|].
  apply read_bytes_spec in Hr. destruct (Codec.utf8_valid b) eqn:Hv; [|done].
  intros [= <-]. eauto.
Qed.

(** Listings depend only on the entries they look at. *)
Lemma descendants_agree (fs fs' : FS) root :
  (∀ q, below root q → fs' !! q = fs !! q) →
  descendants fs' root = descendants fs root.
Proof.
  intros H. unfold descendants. do 2 f_equal. apply map_eq. intros q.
  rewrite !map_lookup_filter.
  destruct (decide (below root q)) as [Hb|Hb].
  - by rewrite (H q Hb).
  - destruct (fs' !! q), (fs !! q); simpl; by rewrite ?option_guard_False.
Qed.

Lemma rglob_md_agree (fs fs' : FS) root :
  (∀ q, root `prefix_of` q → fs' !! q = fs !! q) →
  rglob_md fs' root = rglob_md fs root.
Proof.
  intros H. unfold rglob_md, rglob_all.
  assert (is_dir fs' root = is_dir fs root) as ->.
  { unfold is_dir, stat. destruct root; [done|]. by rewrite H. }
  rewrite (descendants_agree fs fs' root); [done|].
  intros q [Hq _]. by apply H.
Qed.

(** [mkdir] leaves alone what does not start like the path it makes. *)
Lemma mkdir_outside fs p fs' q :
  mkdir_parents fs p = inr fs' → head q ≠ head p → fs' !! q = fs !! q.
Proof.
  intros [_ Hnew]%mkdir_parents_spec Hhd.
  destruct (decide (fs' !! q = fs !! q)) as [|Hne]; [done|].
  destruct (Hnew q Hne) as (_ & _ & [k ->] & Hq).
  destruct q; [done|]. by destruct Hhd.
Qed.

(** Making a directory that was just made changes nothing. *)
Lemma mkdir_from_done fs above todo fs' :
  mkdir_from fs above todo = inr fs' → mkdir_from fs' above todo = inr fs'.
Proof.
  revert fs above. induction todo as [|c rest IH]; intros fs above H; simpl in *.
  - done.
  - destruct (fs !! (above ++ [c])) as [[b|]|] eqn:E; [done|..].
    + pose proof (mkdir_from_spec _ _ _ _ H) as [Hsub _].
      rewrite (lookup_weaken _ _ _ _ E Hsub). by eapply IH.
    + pose proof (mkdir_from_spec _ _ _ _ H) as [Hsub _].
      rewrite (lookup_weaken _ fs' (above ++ [c]) Dir (lookup_insert_eq _ _ _) Hsub).
      by eapply IH.
Qed.

Lemma mkdir_parents_done fs p fs' :
  mkdir_parents fs p = inr fs' → mkdir_parents fs' p = inr fs'.
Proof. apply mkdir_from_done. Qed.

(** After [mkdir] the directory is there. *)
Lemma mkdir_from_is_dir fs above todo fs' :
  mkdir_from fs above todo = inr fs' → todo ≠ [] →
  fs' !! (above ++ todo) = Some Dir.
Proof.
  revert fs above. induction todo as [|c rest IH]; intros fs above H Hne; [done|].
  simpl in H. destruct rest as [|c' rest'].
  - destruct (fs !! (above ++ [c])) as [[b|]|] eqn:E; simpl in H; simplify_eq;
      [done|apply lookup_insert_eq].
  - rewrite (cons_middle c above), (assoc_L (++)).
    destruct (fs !! (above ++ [c])) as [[b|]|] eqn:E; [done|..];
      by eapply IH.
Qed.

Lemma mkdir_parents_is_dir fs p fs' :
  mkdir_parents fs p = inr fs' → is_dir fs' p = true.
Proof.
  intros H. destruct p as [|c p]; [done|].
  apply mkdir_from_is_dir in H; [|done]. unfold is_dir, stat.
  simpl in H. by rewrite H.
Qed.

(** When every directory on the way exists, [mkdir] changes nothing. *)
Lemma mkdir_from_noop fs above todo :
  (∀ k, k ≠ [] → k `prefix_of` todo → fs !! (above ++ k) = Some Dir) →
  mkdir_from fs above todo = inr fs.
Proof.
  revert above. induction todo as [|c rest IH]; intros above H; [done|].
  simpl. rewrite (H [c]); [|done|by apply prefix_cons, prefix_nil].
  apply IH. intros k Hk Hpre. rewrite <-(assoc_L (++)). apply H; [done|].
  by apply prefix_cons.
Qed.

(** In a well-formed tree the ancestors of a directory are directories. *)
Lemma well_formed_ancestors fs p :
  well_formed fs → is_dir fs p = true →
  ∀ k, k ≠ [] → k `prefix_of` p → fs !! k = Some Dir.
Proof.
  intros Hwf. induction p as [|c p IH] using rev_ind; intros Hd k Hk Hpre.
  - by apply prefix_nil_inv in Hpre.
  - apply is_dir_true in Hd as [Hd|Hd]; [by destruct p|].
    destruct (decide (k = p ++ [c])) as [->|Hne]; [done|].
    apply IH; [|done|].
    + specialize (Hwf (p ++ [c]) (mk_is_Some _ _ Hd)).
      unfold parent in Hwf. by rewrite removelast_last in Hwf.
    + destruct Hpre as [k' Hk']. destruct k' as [|x k'] using rev_ind.
      { rewrite (right_id_L [] (++)) in Hk'. by subst. }
      rewrite (assoc_L (++)) in Hk'. apply app_inj_tail in Hk' as [-> _].
      by eexists.
Qed.

Lemma mkdir_parents_noop fs p :
  well_formed fs → is_dir fs p = true → mkdir_parents fs p = inr fs.
Proof.
  intros Hwf Hd. apply mkdir_from_noop. intros k Hk Hpre. simpl.
  by eapply well_formed_ancestors.
Qed.

Lemma child_of_inv d p : child_of d p → p = d ++ [Fs.name p].
Proof.
  intros [Hne <-]. unfold parent, Fs.name.
  destruct p as [|c p] using rev_ind; [done|].
  by rewrite removelast_last, last_snoc.
Qed.

Global Instance path_le_total : Total path_le.
Proof.
  intros p. unfold path_le. induction p as [|a p IH]; intros [|b q]; simpl;
    [by left..|by right|].
  destruct (String.eqb_spec a b) as [->|Hab].
  - rewrite String.eqb_refl. apply IH.
  - destruct (String.eqb_spec b a) as [->|_]; [done|].
    destruct (total String.le a b) as [H|H]; [by left|by right].
Qed.

Global Instance path_le_trans : Transitive path_le.
Proof.
  intros p. unfold path_le.
  induction p as [|a p IH]; intros [|b q] [|c r]; simpl; try done.
  destruct (String.eqb_spec a b) as [->|Hab].
  - destruct (String.eqb_spec b c) as [->|Hbc]; [apply IH|done].
  - destruct (String.eqb_spec b c) as [->|Hbc].
    + destruct (String.eqb_spec a c) as [->|_]; done.
    + intros Hle1 Hle2. destruct (String.eqb_spec a c) as [->|_].
      * destruct Hab. by apply (anti_symm String.le).
      * by trans b.
Qed.

Global Instance path_le_refl : Reflexive path_le.
Proof. intros p. by destruct (total path_le p p). Qed.

Lemma sorted_strongly (l : list Path) : StronglySorted path_le (sorted l).
Proof. apply StronglySorted_merge_sort; apply _. Qed.

Lemma strongly_sorted_filter (R : relation Path) (P : Path → Prop)
    `{!∀ c, Decision (P c)} l :
  StronglySorted R l → StronglySorted R (filter P l).
Proof.
  induction l as [|c l IH]; [done|].
  intros [Hc Hl]%StronglySorted_cons. rewrite filter_cons.
  destruct (decide (P c)); [|by apply IH].
  apply StronglySorted_cons. split; [|by apply IH].
  apply Forall_forall. intros c' [_ Hc']%list_elem_of_filter.
  by eapply Forall_forall.
Qed.

Lemma StronglySorted_head (R : relation Path) `{!Reflexive R} c l :
  StronglySorted R (c :: l) → ∀ c', c' ∈ c :: l → R c c'.
Proof.
  intros [_ H]%StronglySorted_inv c' [->|Hc']%elem_of_cons; [done|].
  by eapply Forall_forall.
Qed.

End FsFacts.

(** ** Facts about the character database *)

Module UnicodeFacts.

Import Unicode Notions.

Local Open Scope N_scope.

Lemma image_elem_of table c ds :
  image table c = Some ds → (c, ds) ∈ table.
Proof.
  unfold image. destruct (List.find _ table) as [[c' ds']|] eqn:E; [|done].
  intros [= <-]. apply find_some in E as [Hin Hc%N.eqb_eq].
  simpl in Hc. subst c'. by apply list_elem_of_In.
Qed.

Lemma to_lower_cases c :
  (image LOWER c = None ∧ to_lower c = [c]) ∨
  (∃ ds, (c, ds) ∈ LOWER ∧ to_lower c = ds).
Proof.
  unfold to_lower. destruct (image LOWER c) as [ds|] eqn:E; [right|by left].
  exists ds. split; [by apply image_elem_of|done].
Qed.

(** A character of a lower-case image is settled. *)
Lemma lower_images_settled :
  Forall (λ e, Forall (λ d, settled d = true) e.2) LOWER.
Proof.
  apply Forall_forall. intros e He.
  assert (forallb (λ e, forallb settled e.2) LOWER = true) as H
    by (vm_compute; reflexivity).
  rewrite forallb_forall in H. apply list_elem_of_In, H in He.
  rewrite forallb_forall in He. apply Forall_forall. intros d Hd.
  by apply He, list_elem_of_In.
Qed.

Lemma settled_spec d :
  settled d = true ↔ to_lower d = [d] ∧ d ≠ CAPITAL_SIGMA ∧ d ≠ 95.
Proof.
  unfold settled.
  rewrite !andb_true_iff, !negb_true_iff, !N.eqb_neq, bool_decide_eq_true.
  tauto.
Qed.

Lemma to_lower_settled c d :
  c ≠ CAPITAL_SIGMA → c ≠ 95 → d ∈ to_lower c → settled d = true.
Proof.
  intros Hs Hu Hd. destruct (to_lower_cases c) as [[E Hc]|(ds & Hin & Hc)].
  - rewrite Hc in Hd. apply list_elem_of_singleton in Hd as ->.
    apply settled_spec. by rewrite Hc.
  - rewrite Hc in Hd.
    pose proof (proj1 (Forall_forall _ _) lower_images_settled _ Hin) as H.
    simpl in H. by apply (proj1 (Forall_forall _ _) H).
Qed.

(** *** Well-formed sequences *)

Lemma app_cons c (x y : string) : String c x +:+ y = String c (x +:+ y).
Proof. reflexivity. Qed.

Lemma app_nil (y : string) : "" +:+ y = y.
Proof. reflexivity. Qed.

Lemma take_drop n s : Str.take n s +:+ Str.drop n s = s.
Proof.
  revert s. induction n as [|n IH]; intros [|c s]; simpl; try done.
  rewrite app_cons. f_equal. apply IH.
Qed.

Lemma take_app_length d r : Str.take (String.length d) (d +:+ r) = d.
Proof.
  induction d as [|c d IH]; [by destruct r|].
  rewrite app_cons. simpl. by rewrite IH.
Qed.

Lemma drop_app_length d r : Str.drop (String.length d) (d +:+ r) = r.
Proof.
  induction d as [|c d IH]; [by destruct r|]. rewrite app_cons. by simpl.
Qed.

Ltac seq_len_cases :=
  repeat match goal with
  | H : context [if ?b then _ else _] |- _ =>
      let E := fresh "E" in destruct b eqn:E; simpl in H; try discriminate
  end.

(** The sequence that starts a string is well formed by itself. *)
Lemma seq_len_take s n :
  Codec.utf8_seq_len s = Some n →
  Codec.utf8_seq_len (Str.take n s) = Some n
  ∧ String.length (Str.take n s) = n.
Proof.
  intros H.
  destruct s as [|b0 [|b1 [|b2 [|b3 r]]]]; simpl in H; seq_len_cases;
    simplify_eq; simpl; rewrite ?E, ?E0, ?E1, ?E2, ?E3, ?E4, ?E5, ?E6, ?E7;
    simpl; rewrite ?E, ?E0, ?E1, ?E2, ?E3, ?E4, ?E5, ?E6, ?E7; done.
Qed.

(** And stays the first sequence of whatever it is put before. *)
Lemma seq_len_app d r :
  Codec.utf8_seq_len d = Some (String.length d) →
  Codec.utf8_seq_len (d +:+ r) = Some (String.length d).
Proof.
  intros H.
  destruct d as [|b0 [|b1 [|b2 [|b3 [|b4 d]]]]]; simpl in H; seq_len_cases;
    simplify_eq; rewrite ?app_cons, ?app_nil; simpl;
    rewrite ?E, ?E0, ?E1, ?E2, ?E3, ?E4, ?E5, ?E6, ?E7;
    simpl; rewrite ?E, ?E0, ?E1, ?E2, ?E3, ?E4, ?E5, ?E6, ?E7;
    try done; destruct r; done.
Qed.

End UnicodeFacts.

(** ** Slug canonicalisation *)

Module CanonFacts.

Import Build Notions Unicode UnicodeFacts.

Local Open Scope N_scope.

Lemma replace_app a b s t :
  replace a b (s ++ t) = replace a b s ++ replace a b t.
Proof. unfold replace. apply fmap_app. Qed.

Lemma replace_settled s :
  Forall (λ d, settled d = true) s → replace 95 45 s = s.
Proof.
  unfold replace. induction 1 as [|d s Hd _ IH]; [done|].
  rewrite fmap_cons, IH. f_equal.
  apply settled_spec in Hd as (_ & _ & Hd%N.eqb_neq). by rewrite Hd.
Qed.

Lemma lower_at_settled before c after :
  c ≠ 95 → Forall (λ d, settled d = true) (lower_at before c after).
Proof.
  intros Hu. unfold lower_at. destruct (c =? CAPITAL_SIGMA) eqn:E.
  - apply Forall_singleton. by destruct (final_sigma before after).
  - apply N.eqb_neq in E. apply Forall_forall. intros d Hd.
    by eapply to_lower_settled.
Qed.

(** The piece of the result that comes from one character. *)
Lemma piece_of before c after :
  canon_piece c (replace 95 45 (lower_at before c after))
  ∧ Forall (λ d, settled d = true) (replace 95 45 (lower_at before c after)).
Proof.
  unfold canon_piece. destruct (c =? 95) eqn:Eu.
  - apply N.eqb_eq in Eu as ->. split; [done|].
    apply Forall_singleton. reflexivity.
  - apply N.eqb_neq in Eu.
    rewrite (replace_settled _ (lower_at_settled before c after Eu)).
    split; [|by apply lower_at_settled].
    unfold lower_at. destruct (c =? CAPITAL_SIGMA); [|done].
    destruct (final_sigma before after); auto.
Qed.

Lemma canonicalize_slug_pieces before s :
  ∃ pieces,
    Forall2 canon_piece s pieces ∧
    replace 95 45 (lower_go before s) = mjoin pieces ∧
    Forall (λ d, settled d = true) (mjoin pieces).
Proof.
  revert before. induction s as [|c s IH]; intros before.
  - exists []. by repeat split.
  - destruct (IH (c :: before)) as (pieces & H2 & E & Hs).
    destruct (piece_of before c s) as [Hp Hps].
    exists (replace 95 45 (lower_at before c s) :: pieces).
    split; [by constructor|]. cbn [lower_go mjoin list_join].
    rewrite replace_app, E. split; [done|]. by apply Forall_app.
Qed.

(** A string of settled characters is its own lower case. *)
Lemma lower_go_settled before s :
  Forall (λ d, settled d = true) s → lower_go before s = s.
Proof.
  intros H. revert before. induction H as [|d s Hd _ IH]; intros before.
  - done.
  - cbn [lower_go]. rewrite IH. unfold lower_at.
    apply settled_spec in Hd as (Hl & Hs%N.eqb_neq & _).
    by rewrite Hs, Hl.
Qed.

Lemma ascii_lower c :
  c < 128 →
  c ≠ CAPITAL_SIGMA ∧
  to_lower c = [if (65 <=? c) && (c <=? 90) then c + 32 else c].
Proof.
  intros Hc.
  assert (forallb (λ n, let c := N.of_nat n in
            negb (c =? CAPITAL_SIGMA)
            && bool_decide
                 (to_lower c
                  = [if (65 <=? c) && (c <=? 90) then c + 32 else c]))
            (seq 0 128) = true) as H by (vm_compute; reflexivity).
  rewrite forallb_forall in H.
  specialize (H (N.to_nat c)). rewrite N2Nat.id in H.
  cbv zeta in H. rewrite andb_true_iff, negb_true_iff, N.eqb_neq,
    bool_decide_eq_true in H.
  apply H, in_seq. lia.
Qed.

Lemma canonicalize_slug_ascii before s :
  Forall (λ c, c < 128) s →
  replace 95 45 (lower_go before s) = canon_ascii <$> s.
Proof.
  intros H. revert before. induction H as [|c s Hc _ IH]; intros before.
  - done.
  - cbn [lower_go]. rewrite replace_app, IH, fmap_cons. f_equal.
    destruct (ascii_lower c Hc) as [Hs%N.eqb_neq Hl].
    unfold lower_at. rewrite Hs, Hl. unfold canon_ascii, replace.
    cbn [fmap list_fmap]. f_equal.
    destruct ((65 <=? c) && (c <=? 90)) eqn:E; [|done].
    apply andb_true_iff in E as [?%N.leb_le ?%N.leb_le].
    destruct (c + 32 =? 95) eqn:E2; [|done]. apply N.eqb_eq in E2. lia.
Qed.

(** C3. [canonicalize_slug] is [lower] and then the replacement of
    underscores.  Its result is made character by character: a hyphen
    for an underscore, the lower-case image for every other character
    (a small sigma in one of its two forms for a capital sigma), so a
    character that has no lower-case image and is no underscore stays
    as it is.  On ASCII strings this is the map of [A]-[Z] to [a]-[z]
    and of the underscore to the hyphen, which keeps the length; in
    general the length can change.  Applying the function twice gives
    the same as applying it once, for every string; and ["My_Song"]
    becomes ["my-song"]. *)
Theorem canonicalize_slug_spec :
  (∀ s, ∃ pieces,
     Forall2 canon_piece s pieces ∧ canonicalize_slug s = mjoin pieces) ∧
  (∀ s, Forall (λ c, c < 128) s →
     canonicalize_slug s = canon_ascii <$> s) ∧
  (∀ s, canonicalize_slug (canonicalize_slug s) = canonicalize_slug s) ∧
  canonicalize_slug (fsdecode "My_Song") = fsdecode "my-song" ∧
  fsencode (canonicalize_slug (fsdecode "My_Song")) = "my-song"%string ∧
  canonicalize_slug [304] = [105; 775].
Proof.
  split; [|split; [|split; [|repeat split; vm_compute; reflexivity]]].
  - intros s. destruct (canonicalize_slug_pieces [] s) as (ps & ? & ? & _).
    by exists ps.
  - intros s. apply canonicalize_slug_ascii.
  - intros s. unfold canonicalize_slug, lower.
    destruct (canonicalize_slug_pieces [] s) as (ps & _ & -> & Hs).
    by rewrite (lower_go_settled _ _ Hs), (replace_settled _ Hs).
Qed.

End CanonFacts.

(** ** The template applier *)

Module TemplateFacts.

Import Fs Build Notions Run StrFacts FsFacts.

Section templated.

Variables (track_dir template_root : Path) (fs0 : FS).

Local Abbreviation templated :=
  (Notions.templated track_dir template_root fs0).

Lemma templated_init : templated fs0.
Proof. split; [done|]. intros p c Hp. by left. Qed.

Lemma templated_mkdir fs p fs' :
  templated fs → mkdir_parents fs p = inr fs' → templated fs'.
Proof.
  intros [Hsub Hfiles] [Hsub' Hnew]%mkdir_parents_spec. split.
  - by etrans.
  - intros q c Hq. apply Hfiles.
    destruct (decide (fs' !! q = fs !! q)) as [<-|Hne]; [done|].
    destruct (Hnew q Hne) as (_ & Hd & _). congruence.
Qed.

Lemma templated_copy fs template_path b :
  templated fs →
  template_path ∈ rglob_all fs0 template_root →
  fs !! template_path = Some (File b) →
  fs !! (track_dir ++ relative_to template_root template_path) = None →
  templated
    (<[track_dir ++ relative_to template_root template_path := File b]> fs).
Proof.
  intros [Hsub Hfiles] [[n Hn] Hbelow]%elem_of_rglob_all Hsrc Habs.
  set (target := track_dir ++ relative_to template_root template_path) in *.
  assert (fs0 !! target = None) as Habs0.
  { destruct (fs0 !! target) eqn:E; [|done].
    by rewrite (lookup_weaken _ _ _ _ E Hsub) in Habs. }
  split.
  - etrans; [done|]. by apply insert_subseteq.
  - intros p c. rewrite lookup_insert. case_decide as Hp.
    + intros [= <-]. subst p. right. split; [done|].
      exists (relative_to template_root template_path). split; [done|].
      destruct (below_relative _ _ Hbelow) as [<- _].
      rewrite Hn. by rewrite (lookup_weaken _ _ _ _ Hn Hsub) in Hsrc.
    + apply Hfiles.
Qed.

(** One run of the loop keeps the invariant, whatever its outcome. *)
Lemma apply_track_template_templated w :
  files w = fs0 →
  wp (apply_track_template track_dir template_root)
     (λ _ w', templated (files w')) w.
Proof.
  intros Hw. unfold apply_track_template.
  apply wp_bind, wp_query. rewrite Hw.
  apply wp_for_each; [rewrite Hw; apply templated_init|].
  intros template_path w0 Hin Hinv.
  apply (proj1 (elem_of_sorted _ _)) in Hin.
  apply wp_bind, wp_query.
  destruct (is_dir (files w0) template_path) eqn:Hd.
  { apply wp_update.
    destruct (mkdir_parents _ _) as [e|fs'] eqn:Hm; simpl; [done|].
    by eapply templated_mkdir. }
  apply wp_bind, wp_query.
  set (target := track_dir ++ relative_to template_root template_path).
  destruct (path_exists (files w0) target) eqn:He; simpl;
    [by apply wp_ret|].
  assert (target ≠ []) as Hne by (by intros E; rewrite E in He).
  apply path_exists_false in He.
  apply wp_bind, wp_update.
  destruct (mkdir_parents _ _) as [e|fs1] eqn:Hm; simpl; [done|].
  pose proof (templated_mkdir _ _ _ Hinv Hm) as Hinv1.
  apply mkdir_parents_spec in Hm as [Hsub1 Hnew1].
  assert (fs1 !! target = None) as Habs1.
  { destruct (decide (fs1 !! target = files w0 !! target)) as [->|Hx];
      [done|].
    destruct (Hnew1 _ Hx) as (_ & _ & Hpre & _).
    apply prefix_length in Hpre. unfold parent in Hpre.
    destruct target as [|c t] using rev_ind; [done|].
    rewrite removelast_last, length_app in Hpre. simpl in Hpre. lia. }
  apply wp_update. simpl. unfold copy2, is_dir.
  rewrite (stat_lookup _ _ Hne), Habs1.
  destruct (bool_decide _ && _); simpl; [done|].
  destruct (read_bytes fs1 template_path) as [e|b] eqn:Hr; simpl; [done|].
  apply read_bytes_spec in Hr.
  destruct (write_bytes fs1 target b) as [e|fs2] eqn:Hwr; simpl; [done|].
  apply write_bytes_spec in Hwr as [_ ->].
  by apply templated_copy.
Qed.

End templated.

(** C1. Applying the template never changes what the target already
    holds: every entry present before the run is present, with the same
    content, after it (also when the run stops on an exception), and a
    regular file that is new is the copy of a template file to a path
    that did not exist. *)
Theorem apply_track_template_non_destructive
    (track_dir template_root : Path) (w : world) :
  let w' := (apply_track_template track_dir template_root w).2 in
  (∀ p n, files w !! p = Some n → files w' !! p = Some n) ∧
  (∀ p c, files w' !! p = Some (File c) →
     files w !! p = Some (File c) ∨
     (files w !! p = None ∧
      ∃ rel, p = track_dir ++ rel ∧
             files w !! (template_root ++ rel) = Some (File c))).
Proof.
  destruct (apply_track_template_templated track_dir template_root
              (files w) w eq_refl) as [Hsub Hfiles].
  split; [|done]. intros p n Hp. by eapply lookup_weaken.
Qed.

End TemplateFacts.

(** ** The album builder: which import files become tracks *)

Module SelectFacts.

Import Fs Build Notions Run StrFacts FsFacts.

(** Steps through a script whose outcome matters only when it returns. *)
Ltac wp_returns :=
  repeat first
    [ apply wp_ret
    | apply wp_bind
    | apply wp_query
    | apply wp_print
    | apply wp_write_text_ret; [intros ? _|done]
    | apply wp_update; destruct (_ : exn + FS); simpl; [done|]
    | apply wp_try_read; destruct (_ : exn + string); simpl; [done|] ].

Lemma re_digit_spec s d r :
  re_digit s = Some (d, r) ↔ s = d +:+ r ∧ digit d.
Proof.
  unfold re_digit, digit. split.
  - destruct (Codec.utf8_seq_len s) as [n|] eqn:E; [|done].
    destruct (Unicode.is_decimal _) eqn:Hd; [|done]. intros [= <- <-].
    apply UnicodeFacts.seq_len_take in E as [E Hlen].
    split; [by rewrite UnicodeFacts.take_drop|]. by rewrite Hlen.
  - intros [-> [E Hd]].
    rewrite (UnicodeFacts.seq_len_app _ _ E),
      UnicodeFacts.take_app_length, UnicodeFacts.drop_app_length.
    by rewrite Hd.
Qed.

(** The bytes of a digit hold no underscore. *)
Lemma digit_before_first d rest :
  digit d →
  Str.before_first "_"%char (d +:+ rest)
  = d +:+ Str.before_first "_"%char rest.
Proof.
  intros [H Hd].
  assert (∀ b, Codec.byte_in 128 191 b = true → Ascii.eqb b "_"%char = false)
    as Hc.
  { intros b Hb. destruct (Ascii.eqb_spec b "_"%char) as [->|]; done. }
  destruct d as [|b0 [|b1 [|b2 [|b3 [|b4 d]]]]]; simpl in H;
    UnicodeFacts.seq_len_cases; simplify_eq;
    rewrite ?UnicodeFacts.app_cons, ?UnicodeFacts.app_nil;
    cbn [Str.before_first];
    unfold Codec.cont in *;
    repeat match goal with
    | H : _ && _ = true |- _ => apply andb_true_iff in H as [? ?]
    end;
    rewrite ?Hc by done;
    repeat match goal with
    | |- context [Ascii.eqb ?b "_"%char] =>
        destruct (Ascii.eqb_spec b "_"%char) as [->|_]; [done|]
    end; done.
Qed.

Lemma re_tail_spec t :
  re_tail t = true ↔
  ∃ m d eol, t = String "."%char (String m (String d eol)) ∧
    (m = "m"%char ∨ m = "M"%char) ∧ (d = "d"%char ∨ d = "D"%char) ∧
    (eol = "" ∨ eol = String Codec.LF "").
Proof.
  split.
  - destruct t as [|dot [|m [|d rest]]]; simpl; try done.
    rewrite !andb_true_iff, !orb_true_iff, !Ascii.eqb_eq.
    intros [[[-> Hm] Hd] Hrest].
    exists m, d, rest. repeat split; try done.
    destruct rest as [|nl [|]]; try done; [by left|].
    apply Ascii.eqb_eq in Hrest as ->. by right.
  - intros (m & d & eol & -> & Hm & Hd & Heol). simpl.
    by destruct Hm as [-> | ->], Hd as [-> | ->], Heol as [-> | ->].
Qed.

(** The tail itself holds no shorter tail: the greedy group cannot run
    into it. *)
Lemma re_slug_tail t : re_tail t = true → re_slug t = None.
Proof.
  intros (m & d & eol & -> & Hm & Hd & Heol)%re_tail_spec.
  destruct Hm as [-> | ->], Hd as [-> | ->], Heol as [-> | ->]; reflexivity.
Qed.

Lemma re_slug_sound s g :
  re_slug s = Some g →
  ∃ t, s = g +:+ t ∧ re_tail t = true ∧ g ≠ "" ∧
       ∀ i, String.get i g ≠ Some Codec.LF.
Proof.
  revert g. induction s as [|c s IH]; intros g; simpl; [done|].
  destruct (Ascii.eqb c Codec.LF) eqn:Hc; [done|].
  apply Ascii.eqb_neq in Hc.
  destruct (re_slug s) as [g'|].
  - intros [= <-]. destruct (IH g' eq_refl) as (t & -> & Ht & _ & Hnl).
    exists t. repeat split; try done.
    intros [|i]; simpl; [congruence|apply Hnl].
  - destruct (re_tail s) eqn:Ht; [|done]. intros [= <-].
    exists s. repeat split; try done.
    intros [|i]; simpl; [congruence|done].
Qed.

Lemma re_slug_complete g t :
  g ≠ "" → (∀ i, String.get i g ≠ Some Codec.LF) → re_tail t = true →
  re_slug (g +:+ t) = Some g.
Proof.
  intros Hg Hnl Ht. induction g as [|c g IH]; [done|].
  change (String c g +:+ t) with (String c (g +:+ t)). simpl.
  assert (Ascii.eqb c Codec.LF = false) as ->.
  { apply Ascii.eqb_neq. intros ->. by apply (Hnl 0). }
  destruct g as [|c' g'].
  - change ("" +:+ t) with t. by rewrite (re_slug_tail t Ht), Ht.
  - rewrite IH; [done|done|]. intros i. apply (Hnl (S i)).
Qed.

(** The matcher decides the language of the pattern and returns the two
    groups. *)
Lemma TRACK_FILE_RE_spec n num slug :
  TRACK_FILE_RE n = Some (num, slug) ↔ matches_pattern n num slug.
Proof.
  unfold TRACK_FILE_RE, matches_pattern. split.
  - destruct (re_digit n) as [[d1 r1]|] eqn:E1; [|done].
    destruct (re_digit r1) as [[d2 [|sep rest]]|] eqn:E2; [done| |done].
    destruct (Ascii.eqb sep "_" || Ascii.eqb sep "-") eqn:Hs; [|done].
    destruct (re_slug rest) as [g|] eqn:Hg; [|done]. intros [= <- <-].
    apply re_digit_spec in E1 as [-> H1], E2 as [-> H2].
    apply re_slug_sound in Hg as (t & -> & Ht & Hne & Hnl).
    apply re_tail_spec in Ht as (m & d & eol & -> & Hm & Hd & Heol).
    exists d1, d2, sep, m, d, eol.
    split; [done|]. split; [done|]. split; [done|]. split; [done|].
    split; [|done].
    apply orb_true_iff in Hs as [H%Ascii.eqb_eq|H%Ascii.eqb_eq]; auto.
  - intros (d1 & d2 & sep & m & d & eol & -> & -> & H1 & H2 & Hs & Hne & Hnl
            & Hm & Hd & Heol).
    rewrite (proj2 (re_digit_spec _ d1 _) (conj eq_refl H1)).
    rewrite (proj2 (re_digit_spec _ d2 _) (conj eq_refl H2)).
    assert (Ascii.eqb sep "_" || Ascii.eqb sep "-" = true) as ->.
    { by destruct Hs as [-> | ->]. }
    rewrite re_slug_complete; [done|done|done|].
    apply re_tail_spec. by exists m, d, eol.
Qed.

(** A file that is not selected leaves the run where it was. *)
Lemma import_one_skip spec base_dir template_root md_path tracks w :
  track_of_name (name md_path) = None →
  import_one spec base_dir template_root md_path tracks w = (Ret tracks, w).
Proof.
  unfold track_of_name, import_one. intros H.
  destruct (Str.contains _ _); [done|]. by rewrite H.
Qed.

(** A selected file adds one record, made of the two groups of the
    match, when its round returns. *)
Lemma import_one_result spec base_dir template_root md_path tracks w :
  wp (import_one spec base_dir template_root md_path tracks)
     (λ o _, match o with
             | Ret ts =>
                 key <$> ts =
                 (key <$> tracks) ++ option_list (track_of_name (name md_path))
             | Raise _ => True
             end) w.
Proof.
  unfold track_of_name, import_one.
  destruct (Str.contains _ _).
  { apply wp_ret. simpl. by rewrite (right_id_L [] (++)). }
  destruct (TRACK_FILE_RE _) as [[track_num slug]|].
  2:{ apply wp_ret. simpl. by rewrite (right_id_L [] (++)). }
  unfold io_mkdir, io_read_text, io_exists, io_copy2.
  apply wp_bind, wp_update; destruct (_ : exn + FS); simpl; [done|].
  apply wp_bind, wp_any. intros [[]|e] w1; [|done].
  wp_returns.
  match goal with |- wp (if ?b then _ else _) _ _ => destruct b end;
    wp_returns; by rewrite fmap_app.
Qed.

Lemma for_fold_import_keys spec base_dir template_root md_paths :
  ∀ acc w tracks w',
    for_fold md_paths acc (import_one spec base_dir template_root) w
      = (Ret tracks, w') →
    key <$> tracks =
    (key <$> acc) ++ omap track_of_name (name <$> md_paths).
Proof.
  induction md_paths as [|md l IH]; intros acc w tracks w' H; simpl in *.
  - unfold mret, IO_ret, ret in H. simplify_eq.
    by rewrite (right_id_L [] (++)).
  - unfold mbind, IO_bind, bind in H.
    pose proof (import_one_result spec base_dir template_root md acc w) as Hone.
    unfold wp in Hone.
    destruct (import_one _ _ _ md acc w) as [[acc'|e] w1]; [|done].
    simpl in Hone. apply IH in H. rewrite H, Hone, <-(assoc_L (++)).
    f_equal. by destruct (track_of_name (name md)).
Qed.

(** The albums keep their imports under ["_imports"] and their outputs
    under their SKU. *)
Lemma album_specs_layout spec :
  spec ∈ ALBUM_SPECS →
  head (join [] (import_dir spec)) = Some "_imports" ∧
  head (workspace_album_dir spec []) ≠ Some "_imports" ∧
  head (pull_album_dir spec []) ≠ Some "_imports".
Proof.
  unfold ALBUM_SPECS. intros H.
  repeat (apply elem_of_cons in H as [->|H]; [by vm_compute|]).
  by apply elem_of_nil in H.
Qed.

Lemma build_workspaces_keys spec template_root w tracks w' :
  spec ∈ ALBUM_SPECS →
  build_workspaces_for_album spec [] template_root w = (Ret tracks, w') →
  key <$> tracks =
  omap track_of_name
    (name <$> sorted (rglob_md (files w) (join [] (import_dir spec)))).
Proof.
  intros (Himp & Hws & Hpb)%album_specs_layout.
  unfold build_workspaces_for_album, io_mkdir, io_exists, update, query,
    print, mbind, IO_bind, bind, mret, IO_ret, ret. simpl.
  destruct (mkdir_parents (files w) _) as [e|fs1] eqn:H1; simpl; [done|].
  destruct (mkdir_parents fs1 _) as [e|fs2] eqn:H2; simpl; [done|].
  assert (∀ q, join [] (import_dir spec) `prefix_of` q →
            fs2 !! q = files w !! q) as Hagree.
  { intros q [k ->].
    assert (head (join [] (import_dir spec) ++ k) = Some "_imports") as Hq.
    { destruct (join [] (import_dir spec)); [done|]. done. }
    rewrite (mkdir_outside _ _ _ _ H2), (mkdir_outside _ _ _ _ H1);
      [done|congruence..]. }
  rewrite <-(rglob_md_agree _ _ _ Hagree).
  destruct (path_exists fs2 _) eqn:He; simpl.
  - intros H%for_fold_import_keys. by rewrite H.
  - intros [= <- _]. unfold rglob_md, rglob_all, is_dir.
    unfold path_exists in He.
    by destruct (stat fs2 (join [] (import_dir spec))).
Qed.

End SelectFacts.

(** ** The album builder without an import directory *)

Module MissingImportFacts.

Import Fs Build Notions Run StrFacts FsFacts.

(** C9. For an album whose import directory does not exist (and whose
    workspace and pull-bucket directories can be made), the builder
    prints the warning and returns the empty track list; the round of
    [main] for that album ends normally, having only made those
    directories and printed two lines, and the loop goes on with the
    remaining albums. *)
Theorem missing_import_dir_is_skipped
    (spec : AlbumSpec) (template_root : Path) (w : world) (fs1 fs2 : FS) :
  spec ∈ ALBUM_SPECS →
  path_exists (files w) (join [] (import_dir spec)) = false →
  mkdir_parents (files w) (workspace_album_dir spec []) = inr fs1 →
  mkdir_parents fs1 (pull_album_dir spec []) = inr fs2 →
  build_workspaces_for_album spec [] template_root w
    = (Ret [], World fs2 (stdout w ++ [import_warning spec])) ∧
  ∀ rest,
    for_each (spec :: rest) (process_album [] template_root) w
    = for_each rest (process_album [] template_root)
        (World fs2
           (stdout w
            ++ ["[ALBUM] " +:+ sku spec +:+ " / " +:+ workspace_album spec]
            ++ [import_warning spec])).
Proof.
  intros (Himp & Hws & Hpb)%SelectFacts.album_specs_layout Habs H1 H2.
  assert (path_exists fs2 (join [] (import_dir spec)) = false) as Habs2.
  { unfold path_exists, stat in *.
    destruct (join [] (import_dir spec)) as [|c r] eqn:E; [done|].
    rewrite (mkdir_outside _ _ _ _ H2),
            (mkdir_outside _ _ _ _ H1); [done|..];
      simpl in *; congruence. }
  assert (∀ out, build_workspaces_for_album spec [] template_root
                   (World (files w) out)
                 = (Ret [], World fs2 (out ++ [import_warning spec]))) as Hb.
  { intros out.
    unfold build_workspaces_for_album, io_mkdir, io_exists, update, query,
      print, mbind, IO_bind, bind, mret, IO_ret, ret. simpl.
    rewrite H1. simpl. rewrite H2. simpl. by rewrite Habs2. }
  split.
  - destruct w as [fs out]. apply Hb.
  - intros rest. cbn [for_each].
    erewrite bind_ret; [done|]. unfold process_album.
    erewrite bind_ret; [|reflexivity].
    erewrite bind_ret; [|apply Hb].
    unfold build_pull_bucket_for_album.
    erewrite bind_ret; [reflexivity|].
    unfold io_mkdir, update. cbn [files stdout].
    by rewrite (mkdir_parents_done _ _ _ H2), <-(assoc_L (++)).
Qed.

(** The second album of the list has no import directory in the sample
    world. *)
Lemma missing_import_dir_is_skipped_witness :
  (build_workspaces_for_album Sample.full_disclosure [] Sample.template_root
     Sample.w_imports).1 = Ret [].
Proof.
  assert (Sample.full_disclosure ∈ ALBUM_SPECS) as H0 by (by right; left).
  assert (path_exists (files Sample.w_imports)
            (join [] (import_dir Sample.full_disclosure)) = false) as Ha
    by (by vm_compute).
  pose proof (succeeds_inr
    (mkdir_parents (files Sample.w_imports)
       (workspace_album_dir Sample.full_disclosure []))
    ltac:(by vm_compute)) as H1.
  pose proof (succeeds_inr
    (mkdir_parents
       (result_fs (mkdir_parents (files Sample.w_imports)
                     (workspace_album_dir Sample.full_disclosure [])))
       (pull_album_dir Sample.full_disclosure []))
    ltac:(by vm_compute)) as H2.
  by rewrite (proj1 (missing_import_dir_is_skipped Sample.full_disclosure
                       Sample.template_root Sample.w_imports _ _ H0 Ha H1 H2)).
Defined.

End MissingImportFacts.

(** ** The pull-bucket builder *)

Module PullFacts.

Import Fs Build Notions Run StrFacts FsFacts.

(** *** Strings and their characters *)

(** *** Inverting a run that returned *)

(** *** The files of a track *)

Section pull_bucket.

Variables (spec : AlbumSpec) (base_dir : Path).

Lemma recorded_not_pulled t t' :
  recorded spec base_dir t →
  lyrics_path t ≠ pull_md_path spec base_dir t' ∧
  lyrics_path t ≠ pull_json_path spec base_dir t'.
Proof.
  unfold recorded, pull_md_path, pull_json_path, workspace_album_dir,
    pull_album_dir, child. intros ->.
  rewrite <-!(assoc_L (++)). split; intros H; by apply app_inv_head in H.
Qed.

Lemma pull_md_path_inj t t' :
  pull_md_path spec base_dir t = pull_md_path spec base_dir t' →
  file_root t = file_root t'.
Proof.
  unfold pull_md_path, child. intros [_ H]%app_inj_tail.
  by apply str_app_inv_tail in H.
Qed.

Lemma pull_md_not_json t t' :
  pull_md_path spec base_dir t ≠ pull_json_path spec base_dir t'.
Proof.
  unfold pull_md_path, pull_json_path, child. intros [_ H]%app_inj_tail.
  by apply md_is_not_json in H.
Qed.

(** One round: the lyrics are read from the file system as it is, and
    two files of the pull bucket are written. *)
Lemma pull_one_inv t w w' :
  pull_one spec base_dir t w = (Ret tt, w') →
  ∃ b j,
    files w !! lyrics_path t = Some (File b) ∧
    Codec.utf8_valid b = true ∧
    files w' =
      <[pull_json_path spec base_dir t := File j]>
        (<[pull_md_path spec base_dir t :=
             File (Codec.universal_newlines b)]> (files w)).
Proof.
  unfold pull_one, io_read_text.
  intros (s & w1 & [Hr ->]%try_read_inv & H)%bind_inv.
  apply read_text_inv in Hr as (b & Hb & Hv & ->).
  apply bind_inv in H as (u1 & w1 & (fs1 & Hw1 & ->)%write_text_inv & H).
  apply bind_inv in H as (u2 & w2 & (fs2 & Hw2 & ->)%write_text_inv & H).
  apply write_bytes_spec in Hw1 as [_ ->].
  apply write_bytes_spec in Hw2 as [_ Hfs2]. cbn [files] in Hfs2. subst fs2.
  injection H as <-. eauto.
Qed.

Lemma for_each_pull_inv tracks :
  ∀ w w',
    Forall (recorded spec base_dir) tracks →
    for_each tracks (pull_one spec base_dir) w = (Ret tt, w') →
    (∀ p, (∀ t, t ∈ tracks →
             p ≠ pull_md_path spec base_dir t ∧
             p ≠ pull_json_path spec base_dir t) →
          files w' !! p = files w !! p) ∧
    (∀ t, t ∈ tracks →
       ∃ b, files w !! lyrics_path t = Some (File b) ∧
            Codec.utf8_valid b = true ∧
            files w' !! pull_md_path spec base_dir t
              = Some (File (Codec.universal_newlines b))).
Proof.
  induction tracks as [|t l IH]; intros w w' Hrec H.
  - injection H as <-. split; [done|]. by intros t Ht%elem_of_nil.
  - cbn [for_each] in H.
    apply bind_inv in H as ([] & w1 & H1 & Hl).
    apply Forall_cons in Hrec as [Hrt Hrl].
    destruct (IH _ _ Hrl Hl) as [Hframe Hres]. clear IH.
    apply pull_one_inv in H1 as (b & j & Hb & Hv & Hw1).
    assert (∀ p, p ≠ pull_md_path spec base_dir t →
                 p ≠ pull_json_path spec base_dir t →
                 files w1 !! p = files w !! p) as Hstep.
    { intros p ??. by rewrite Hw1, !lookup_insert_ne. }
    assert (∀ t', recorded spec base_dir t' →
              files w1 !! lyrics_path t' = files w !! lyrics_path t') as Hlyr.
    { intros t' [??]%(recorded_not_pulled t' t). by apply Hstep. }
    split.
    + intros p Hp. rewrite Hframe.
      * apply Hstep; apply (Hp t); by left.
      * intros t' Ht'. apply Hp. by right.
    + intros t' [->|Ht']%elem_of_cons.
      * exists b. split; [done|]. split; [done|].
        destruct (decide (Exists (λ t', pull_md_path spec base_dir t'
                                        = pull_md_path spec base_dir t) l))
          as [Hex|Hnex].
        -- apply Exists_exists in Hex as (t' & Ht' & Heq).
           destruct (Hres t' Ht') as (b' & Hb' & _ & Hmd).
           rewrite <-Heq, Hmd.
           assert (lyrics_path t' = lyrics_path t) as Hsame.
           { rewrite (Forall_forall _ _) in Hrl. pose proof (Hrl t' Ht') as Hr'.
             unfold recorded in *.
             by rewrite Hr', Hrt, (pull_md_path_inj _ _ Heq). }
           rewrite Hlyr, Hsame, Hb in Hb';
             [|rewrite (Forall_forall _ _) in Hrl; by apply Hrl].
           by simplify_eq.
        -- rewrite Hframe.
           ++ rewrite Hw1, lookup_insert_ne, lookup_insert_eq; [done|].
              intros E. by apply (pull_md_not_json t t).
           ++ intros t' Ht'. split.
              ** intros E. apply Hnex, Exists_exists. eauto.
              ** apply pull_md_not_json.
      * destruct (Hres t' Ht') as (b' & Hb' & Hv' & Hmd). exists b'.
        split; [|done]. rewrite <-Hlyr; [done|].
        rewrite (Forall_forall _ _) in Hrl. by apply Hrl.
Qed.

(** The records of the album builder have that shape. *)
Lemma import_one_recorded template_root md_path tracks w :
  Forall (recorded spec base_dir) tracks →
  wp (import_one spec base_dir template_root md_path tracks)
     (λ o _, match o with
             | Ret ts => Forall (recorded spec base_dir) ts
             | Raise _ => True
             end) w.
Proof.
  intros Hrec. unfold import_one.
  destruct (Str.contains _ _); [by apply wp_ret|].
  destruct (TRACK_FILE_RE _) as [[track_num slug]|]; [|by apply wp_ret].
  unfold io_mkdir, io_read_text, io_exists, io_copy2.
  apply wp_bind, wp_update; destruct (_ : exn + FS); simpl; [done|].
  apply wp_bind, wp_any. intros [[]|e] w1; [|done].
  SelectFacts.wp_returns.
  match goal with |- wp (if ?b then _ else _) _ _ => destruct b end;
    SelectFacts.wp_returns;
    (apply Forall_app; split; [done|]); by apply Forall_singleton.
Qed.

Lemma for_fold_import_recorded template_root md_paths :
  ∀ acc w tracks w',
    Forall (recorded spec base_dir) acc →
    for_fold md_paths acc (import_one spec base_dir template_root) w
      = (Ret tracks, w') →
    Forall (recorded spec base_dir) tracks.
Proof.
  induction md_paths as [|md l IH]; intros acc w tracks w' Hacc H.
  - by injection H as <-.
  - cbn [for_fold] in H. apply bind_inv in H as (acc' & w1 & H1 & H).
    pose proof (import_one_recorded template_root md acc w Hacc) as Hone.
    unfold wp in Hone. rewrite H1 in Hone. cbn [fst snd] in Hone.
    by eapply IH.
Qed.

Lemma build_workspaces_recorded template_root w tracks w' :
  build_workspaces_for_album spec base_dir template_root w
    = (Ret tracks, w') →
  Forall (recorded spec base_dir) tracks.
Proof.
  unfold build_workspaces_for_album. intros H.
  apply bind_inv in H as (? & w1 & _ & H).
  apply bind_inv in H as (? & w2 & _ & H).
  apply bind_inv in H as (e & w3 & _ & H).
  destruct e; cbn [negb] in H.
  - apply bind_inv in H as (l & w4 & _ & H).
    by eapply for_fold_import_recorded.
  - apply bind_inv in H as (? & w4 & _ & H).
    cbv [mret IO_ret ret] in H. by injection H as <-.
Qed.

End pull_bucket.

(** *** Line endings *)

Lemma universal_newlines_no_cr s :
  Codec.CR ∉ chars s → Codec.universal_newlines s = s.
Proof.
  induction s as [|c s IH]; [done|]. simpl. intros H.
  apply not_elem_of_cons in H as [Hc Hs].
  destruct (Ascii.eqb_spec c Codec.CR) as [->|_]; [done|]. by rewrite IH.
Qed.

Lemma universal_newlines_clean s :
  (Codec.CR ∉ chars (Codec.universal_newlines s)) ∧
  (∀ c, Codec.CR ∉ chars (Codec.universal_newlines (String c s))).
Proof.
  induction s as [|d s [IH1 IH2]].
  - split; [apply not_elem_of_nil|]. intros c. simpl.
    destruct (Ascii.eqb_spec c Codec.CR) as [->|Hc]; simpl;
      apply not_elem_of_cons; split; try done; apply not_elem_of_nil.
  - split; [apply IH2|]. intros c.
    change (Codec.universal_newlines (String c (String d s))) with
      (if Ascii.eqb c Codec.CR then
         String Codec.LF
           (if Ascii.eqb d Codec.LF then Codec.universal_newlines s
            else Codec.universal_newlines (String d s))
       else String c (Codec.universal_newlines (String d s))).
    destruct (Ascii.eqb_spec c Codec.CR) as [->|Hc].
    + destruct (Ascii.eqb d Codec.LF); cbn [chars];
        apply not_elem_of_cons; split; try done; apply IH2.
    + cbn [chars]. apply not_elem_of_cons. split; [congruence|apply IH2].
Qed.

Lemma universal_newlines_idemp s :
  Codec.universal_newlines (Codec.universal_newlines s)
  = Codec.universal_newlines s.
Proof. apply universal_newlines_no_cr, universal_newlines_clean. Qed.

(** *** The round trip *)

(** The album builder makes the sample track; its workspace lyrics are
    then edited on disk; the pull-bucket builder, reading them back, does
    not store the bytes it found but the text with its line ending
    rewritten. *)
Lemma pull_bucket_rewrites_line_endings :
  (build_workspaces_for_album Sample.singles [] Sample.template_root
     Sample.w_imports).1 = Ret [Sample.kings] ∧
  files Sample.w_edited !! lyrics_path Sample.kings = Some (File Sample.edited) ∧
  (build_pull_bucket_for_album Sample.singles [] [Sample.kings] Sample.w_edited).1
    = Ret tt ∧
  files (build_pull_bucket_for_album Sample.singles [] [Sample.kings]
           Sample.w_edited).2 !! pull_md_path Sample.singles [] Sample.kings
    = Some (File Sample.normalised) ∧
  Sample.normalised ≠ Sample.edited.
Proof.
  split; [vm_compute; reflexivity|].
  split; [vm_compute; reflexivity|].
  split; [vm_compute; reflexivity|].
  split; [vm_compute; reflexivity|].
  intros H. by vm_compute in H.
Qed.

(** A round for a track whose lyrics do not decode. *)
Lemma pull_one_undecodable spec base_dir t b w :
  recorded spec base_dir t →
  files w !! lyrics_path t = Some (File b) →
  Codec.utf8_valid b = false →
  pull_one spec base_dir t w = (Raise UnicodeDecodeError, w).
Proof.
  intros Hrec Hb Hv. unfold pull_one.
  erewrite bind_raise; [done|].
  unfold io_read_text, try_read, read_text, read_bytes.
  rewrite stat_lookup, Hb, Hv; [done|].
  unfold recorded in Hrec. rewrite Hrec. unfold child. intros E.
  apply (f_equal length) in E. rewrite !length_app in E. simpl in E. lia.
Qed.

(** C7, as the code has it.  For the track records the album builder
    returned, and whatever has happened to the files since: a run of the
    pull-bucket builder that returns has read each track's workspace
    lyrics from the file system it started in, has found valid UTF-8
    there, has left that file as it was, and has stored in the track's
    [.md] file of the pull bucket that text with every line ending
    turned into a line feed: the same bytes whenever the lyrics hold no
    carriage return.  When the lyrics of a track are not valid UTF-8 the
    run does not return: the round of that track raises
    [UnicodeDecodeError] and writes nothing. *)
Theorem pull_bucket_round_trip
    (spec : AlbumSpec) (base_dir template_root : Path) (tracks : list Track)
    (w0 w1 w : world) :
  build_workspaces_for_album spec base_dir template_root w0
    = (Ret tracks, w1) →
  (∀ w', build_pull_bucket_for_album spec base_dir tracks w = (Ret tt, w') →
     ∀ t, t ∈ tracks →
       ∃ b, files w !! lyrics_path t = Some (File b) ∧
            Codec.utf8_valid b = true ∧
            files w' !! lyrics_path t = Some (File b) ∧
            files w' !! pull_md_path spec base_dir t
              = Some (File (Codec.universal_newlines b)) ∧
            (Codec.CR ∉ chars b →
               files w' !! pull_md_path spec base_dir t = Some (File b))) ∧
  (∀ t b, t ∈ tracks →
     files w !! lyrics_path t = Some (File b) →
     Codec.utf8_valid b = false →
     ∀ w', build_pull_bucket_for_album spec base_dir tracks w
           ≠ (Ret tt, w')) ∧
  (∀ t b w2, t ∈ tracks →
     files w2 !! lyrics_path t = Some (File b) →
     Codec.utf8_valid b = false →
     pull_one spec base_dir t w2 = (Raise UnicodeDecodeError, w2)).
Proof.
  intros Hrec%build_workspaces_recorded.
  assert (∀ w', build_pull_bucket_for_album spec base_dir tracks w
                = (Ret tt, w') →
            ∀ t, t ∈ tracks →
              ∃ b, files w !! lyrics_path t = Some (File b) ∧
                   Codec.utf8_valid b = true ∧
                   files w' !! lyrics_path t = Some (File b) ∧
                   files w' !! pull_md_path spec base_dir t
                     = Some (File (Codec.universal_newlines b))) as Hret.
  { intros w' H t Ht.
    unfold build_pull_bucket_for_album, io_mkdir in H.
    apply bind_inv in H as ([] & w2 & (fs1 & Hmk & ->)%update_inv & H).
    apply mkdir_parents_spec in Hmk as [Hsub Hnew].
    destruct (for_each_pull_inv spec base_dir tracks _ _ Hrec H)
      as [Hframe Hres]. cbn [files] in *.
    destruct (Hres t Ht) as (b & Hb & Hv & Hmd).
    assert (files w !! lyrics_path t = Some (File b)) as Hb0.
    { destruct (decide (fs1 !! lyrics_path t = files w !! lyrics_path t))
        as [<-|Hne]; [done|].
      destruct (Hnew _ Hne) as (_ & Hd & _). congruence. }
    exists b. split; [done|]. split; [done|]. split; [|done].
    rewrite Hframe; [done|]. intros t' Ht'.
    apply recorded_not_pulled. rewrite (Forall_forall _ _) in Hrec.
    by apply Hrec. }
  split; [|split].
  - intros w' H t Ht. destruct (Hret w' H t Ht) as (b & ? & ? & ? & Hmd).
    exists b. repeat (split; [done|]).
    intros Hcr. by rewrite Hmd, universal_newlines_no_cr.
  - intros t b Ht Hb Hv w' H.
    destruct (Hret w' H t Ht) as (b' & Hb' & Hv' & _). congruence.
  - intros t b w2 Ht Hb Hv. eapply pull_one_undecodable; [|done..].
    rewrite (Forall_forall _ _) in Hrec. by apply Hrec.
Qed.

(** The sample track as built: its lyrics have no carriage return and
    reach the pull bucket byte for byte. *)
Lemma pull_bucket_round_trip_witness :
  ∃ b, files Sample.w_built !! lyrics_path Sample.kings = Some (File b) ∧
       Codec.utf8_valid b = true ∧
       files (build_pull_bucket_for_album Sample.singles []
                [Sample.kings] Sample.w_built).2 !! lyrics_path Sample.kings
         = Some (File b) ∧
       files (build_pull_bucket_for_album Sample.singles []
                [Sample.kings] Sample.w_built).2
         !! pull_md_path Sample.singles [] Sample.kings
         = Some (File (Codec.universal_newlines b)) ∧
       (Codec.CR ∉ chars b →
          files (build_pull_bucket_for_album Sample.singles []
                   [Sample.kings] Sample.w_built).2
            !! pull_md_path Sample.singles [] Sample.kings = Some (File b)).
Proof.
  apply (proj1 (pull_bucket_round_trip Sample.singles []
                  Sample.template_root [Sample.kings] Sample.w_imports
                  Sample.w_built Sample.w_built
                  (run_eq (build_workspaces_for_album Sample.singles []
                             Sample.template_root) Sample.w_imports _
                          ltac:(vm_compute; reflexivity)))).
  - apply (run_eq (build_pull_bucket_for_album Sample.singles []
                     [Sample.kings]) Sample.w_built).
    vm_compute. reflexivity.
  - by left.
Defined.

End PullFacts.

(** ** The tree diff reporter *)

Module DiffFacts.

Import Fs Diff Notions Run StrFacts FsFacts.

(** *** The blocks of set differences *)

Lemma sorted_str_spec (S : gset string) :
  (∀ t, t ∈ sorted_str (elements S) ↔ t ∈ S) ∧
  StronglySorted String.le (sorted_str (elements S)) ∧
  NoDup (sorted_str (elements S)).
Proof.
  unfold sorted_str. split; [|split].
  - intros t. by rewrite merge_sort_Permutation, elem_of_elements.
  - apply StronglySorted_merge_sort; apply _.
  - rewrite merge_sort_Permutation. apply NoDup_elements.
Qed.

Lemma block_empty heading : block heading ∅ = [].
Proof. unfold block. by rewrite decide_True. Qed.

Lemma block_nonempty heading (S : gset string) :
  S ≠ ∅ →
  block heading S = heading :: (bullet <$> sorted_str (elements S)) ++ [""].
Proof. intros H. unfold block. by rewrite decide_False. Qed.

(** *** The per-track check *)

Lemma check_track_spec workspace_dict t report w :
  check_track workspace_dict t report w
  = (Ret (report ++ track_lines (files w) workspace_dict t), w).
Proof.
  unfold check_track, track_lines.
  destruct (workspace_dict !! t) as [ws|];
    [|by rewrite (right_id_L [] (++))].
  unfold io_exists, query, mbind, IO_bind, bind, mret, IO_ret, ret.
  destruct (path_exists _ (child (child ws "data") "lyrics.md")) eqn:Hl;
    destruct (path_exists _ (child (child ws "data") "metadata.json")) eqn:Hm;
    destruct (path_exists _ (child ws (t +:+ ".ipynb"))) eqn:Hi;
    repeat (cbn [negb andb]; cbv beta iota; rewrite ?Hl, ?Hm, ?Hi);
    rewrite <-?(assoc_L (++)), ?(right_id_L [] (++)); reflexivity.
Qed.

Lemma for_fold_check_tracks workspace_dict l :
  ∀ report w,
    for_fold l report (check_track workspace_dict) w
    = (Ret (report ++ concat (track_lines (files w) workspace_dict <$> l)), w).
Proof.
  induction l as [|t l IH]; intros report w; cbn [for_fold fmap list_fmap concat].
  - by rewrite (right_id_L [] (++)).
  - erewrite bind_ret; [|apply check_track_spec].
    by rewrite IH, <-(assoc_L (++)).
Qed.

(** The report is the four blocks, in their order, then the checks of
    the tracks; [diff] never raises and changes nothing. *)
Lemma diff_report_spec import_set workspace_dict pullbucket_set w :
  diff_report import_set workspace_dict pullbucket_set w =
  (Ret (or_clean
          (block MISSING_WS (import_set ∖ dom workspace_dict)
           ++ block MISSING_PB (import_set ∖ pullbucket_set)
           ++ block EXTRA_WS (dom workspace_dict ∖ import_set)
           ++ block EXTRA_PB (pullbucket_set ∖ import_set)
           ++ concat (track_lines (files w) workspace_dict
                        <$> sorted_str (elements import_set)))), w).
Proof.
  unfold diff_report. cbv zeta.
  erewrite bind_ret; [|apply for_fold_check_tracks].
  by rewrite <-!(assoc_L (++)).
Qed.



(** *** What the workspace scan admits *)

Lemma list_tracks_inv base w workspace_dict w' :
  list_tracks base w = (Ret workspace_dict, w') →
  w' = w ∧
  ∀ t ws, workspace_dict !! t = Some ws →
    path_exists (files w) (child (child ws "data") "lyrics.md") = true.
Proof.
  unfold list_tracks, io_exists, io_iterdir, io_is_dir. intros H.
  apply bind_inv in H as (e & w1 & [-> ->]%query_inv & H).
  destruct (path_exists (files w) base); cbn [negb] in H.
  2:{ injection H as <- <-. split; [done|]. intros t ws.
      by rewrite lookup_empty. }
  apply bind_inv in H as (items & w1 & [_ ->]%try_read_inv & H).
  eapply (for_fold_inv _ _ (λ tracks w1, w1 = w ∧
     ∀ t ws, tracks !! t = Some ws →
       path_exists (files w) (child (child ws "data") "lyrics.md") = true));
    [| |exact H].
  2:{ split; [done|]. intros t ws. by rewrite lookup_empty. }
  clear H. intros item tracks w1 tracks' w2 _ [-> Hinv] H.
  apply bind_inv in H as (d & w1 & [-> ->]%query_inv & H).
  destruct (is_dir (files w) item); cbn [negb] in H.
  2:{ by injection H as <- <-. }
  apply bind_inv in H as (e & w1 & [-> ->]%query_inv & H).
  destruct (path_exists (files w) _) eqn:He.
  2:{ by injection H as <- <-. }
  injection H as <- <-. split; [done|]. intros t ws.
  rewrite lookup_insert. case_decide as Ht.
  - by intros [= <-].
  - apply Hinv.
Qed.

Lemma ipynb_line_not_lyrics t :
  "   - missing " +:+ t +:+ ".ipynb" ≠ "   - missing lyrics.md".
Proof.
  change "   - missing lyrics.md" with ("   - missing " +:+ "lyrics.md").
  intros H%(inj (String.app _)).
  apply (f_equal chars) in H. rewrite chars_app in H.
  change (chars "lyrics.md") with
    (chars "lyr" ++ chars "ics.md") in H.
  by apply app_inj_2 in H as [_ ?].
Qed.



End DiffFacts.

(** ** The lyrics sync tool: choosing the import file *)

Module ChooseFacts.

Import Fs Sync Notions Run StrFacts FsFacts.

(** *** The order of paths *)

(** *** The tie-break on a sorted list of candidates *)

Lemma pick_spec candidates :
  StronglySorted path_le candidates →
  (candidates = [] → pick candidates = None) ∧
  (candidates ≠ [] →
   ∃ c, pick candidates = Some c ∧ c ∈ candidates ∧
     ((∃ c', c' ∈ candidates ∧ non_web c') →
      non_web c ∧ ∀ c', c' ∈ candidates → non_web c' → path_le c c') ∧
     ((∀ c', c' ∈ candidates → ¬ non_web c') →
      ∀ c', c' ∈ candidates → path_le c c')).
Proof.
  intros Hsorted. split; [by intros ->|]. intros Hne.
  destruct candidates as [|c0 rest]; [done|]. unfold pick.
  set (P := λ c : Path, Is_true (negb (Str.endswith "_web" (stem c)))).
  assert (∀ c, P c ↔ non_web c) as HP.
  { intros c. unfold P, non_web. by destruct (Str.endswith _ _). }
  assert (StronglySorted path_le (filter P (c0 :: rest))) as Hfs.
  { by apply strongly_sorted_filter. }
  destruct (filter P (c0 :: rest)) as [|c l] eqn:Hf.
  - exists c0. split; [done|]. split; [by left|]. split.
    + intros (c' & Hc' & Hnw). exfalso.
      assert (c' ∈ filter P (c0 :: rest)) as Hin
        by (apply list_elem_of_filter; split; [by apply HP|done]).
      rewrite Hf in Hin. by apply elem_of_nil in Hin.
    + intros _. apply (StronglySorted_head path_le c0 rest Hsorted).
  - assert (c ∈ filter P (c0 :: rest)) as Hc by (rewrite Hf; by left).
    apply list_elem_of_filter in Hc as [Hc1 Hc2].
    exists c. split; [done|]. split; [done|]. split.
    + intros _. split; [by apply HP|]. intros c' Hc' Hnw.
      apply (StronglySorted_head path_le c l Hfs). rewrite <-Hf.
      apply list_elem_of_filter. split; [by apply HP|done].
    + intros Hall. destruct (Hall c Hc2). by apply HP.
Qed.

Section choose.

Variable fnmatch : string → string → bool.

Local Abbreviation candidates_of := (Notions.candidates_of fnmatch).

Lemma candidates_of_sorted fs import_dir track_folder_name :
  StronglySorted path_le (candidates_of fs import_dir track_folder_name).
Proof.
  unfold candidates_of. cbv zeta.
  destruct (sorted (glob_select _ _ _ (_ +:+ "_*.md"))) as [|c l] eqn:E.
  - apply sorted_strongly.
  - rewrite <-E. apply sorted_strongly.
Qed.

Lemma io_glob_run d pat w :
  io_glob fnmatch d pat w
  = (if Str.contains "**" pat then Raise ValueError
     else Ret (glob_select fnmatch (files w) d pat), w).
Proof.
  unfold io_glob, try_read, glob. by destruct (Str.contains "**" pat).
Qed.

(** What a call of [choose_import_md] does, in every case. *)
Lemma choose_import_md_run import_dir track_folder_name w :
  choose_import_md fnmatch import_dir track_folder_name w
  = (if refused fnmatch (files w) import_dir track_folder_name
     then Raise ValueError
     else Ret (pick (candidates_of (files w) import_dir track_folder_name)),
     w).
Proof.
  unfold choose_import_md, candidates_of, pick, refused. cbv zeta.
  set (prefix := Str.before_first "_" track_folder_name).
  destruct (Str.contains "**" (prefix +:+ "_*.md")) eqn:E1; cbn [orb].
  { erewrite bind_raise; [done|]. by rewrite io_glob_run, E1. }
  erewrite bind_ret; [|by rewrite io_glob_run, E1].
  destruct (sorted (glob_select _ _ _ (_ +:+ "_*.md"))) as [|c l] eqn:E.
  - destruct (Str.contains "**" (prefix +:+ "*.md")) eqn:E2.
    { erewrite bind_raise; [done|]. erewrite bind_raise; [done|].
      by rewrite io_glob_run, E2. }
    erewrite bind_ret;
      [|erewrite bind_ret; [reflexivity|by rewrite io_glob_run, E2]].
    destruct (sorted (glob_select _ _ _ (_ +:+ "*.md"))) as [|c l] eqn:E3;
      [done|].
    by destruct (filter _ (c :: l)).
  - erewrite bind_ret; [|reflexivity]. by destruct (filter _ (c :: l)).
Qed.

(** A call that returned has chosen among the candidates and has
    changed nothing. *)
Lemma choose_import_md_pick import_dir track_folder_name w r w' :
  choose_import_md fnmatch import_dir track_folder_name w = (Ret r, w') →
  r = pick (candidates_of (files w) import_dir track_folder_name) ∧ w' = w.
Proof.
  rewrite choose_import_md_run. destruct (refused _ _ _ _); [done|].
  by intros [= <- <-].
Qed.

Lemma wp_choose_import_md import_dir track_folder_name
    (Q : outcome (option Path) → world → Prop) w :
  Q (Raise ValueError) w →
  Q (Ret (pick (candidates_of (files w) import_dir track_folder_name))) w →
  wp (choose_import_md fnmatch import_dir track_folder_name) Q w.
Proof.
  intros Hraise Hret. unfold wp. rewrite choose_import_md_run.
  by destruct (refused _ _ _ _).
Qed.

End choose.


End ChooseFacts.

(** ** The lyrics sync tool: dry runs and real runs *)

Module DryRunFacts.

Import Fs Sync Notions Run StrFacts FsFacts.

(** *** A dry run writes no file *)

Lemma only_dirs_refl fs : only_dirs fs fs.
Proof. by split. Qed.

Lemma only_dirs_mkdir fs0 fs p fs' :
  only_dirs fs0 fs → mkdir_parents fs p = inr fs' → only_dirs fs0 fs'.
Proof.
  intros [Hsub Hfiles] [Hsub' Hnew]%mkdir_parents_spec. split; [by etrans|].
  intros q c Hq. apply Hfiles.
  destruct (decide (fs' !! q = fs !! q)) as [<-|Hne]; [done|].
  destruct (Hnew q Hne) as (_ & Hd & _). congruence.
Qed.

Section dry_run.

Variable fnmatch : string → string → bool.

(** Steps through a dry run, keeping [only_dirs]. *)
Ltac dry_steps :=
  repeat first
    [ apply wp_ret; cbn [files]; assumption
    | apply wp_bind
    | apply wp_print; cbn [files]
    | apply wp_query ].

Lemma sync_track_dry album_def pb_album import_dir track_dir log fs0 w :
  only_dirs fs0 (files w) →
  wp (sync_track fnmatch album_def true pb_album import_dir track_dir log)
     (λ _ w', only_dirs fs0 (files w')) w.
Proof.
  intros Hinv. unfold sync_track, io_is_dir, io_read_text_ignore, io_mkdir.
  apply wp_bind, wp_query.
  destruct (is_dir (files w) track_dir); cbn [negb]; [|by apply wp_ret].
  destruct (Str.contains _ _); [dry_steps|].
  apply wp_bind, ChooseFacts.wp_choose_import_md; [done|].
  destruct (pick _) as [import_md|]; [|dry_steps].
  apply wp_bind, wp_try_read.
  destruct (read_text_ignore _ _) as [e|lyrics]; [done|].
  apply wp_bind, wp_update.
  destruct (mkdir_parents _ _) as [e|fs1] eqn:Hmk; [done|].
  pose proof (only_dirs_mkdir _ _ _ _ Hinv Hmk) as Hinv1.
  dry_steps.
Qed.

Lemma sync_album_dry album_def w :
  wp (sync_album fnmatch album_def true)
     (λ _ w', only_dirs (files w) (files w')) w.
Proof.
  pose proof (only_dirs_refl (files w)) as Hinv.
  unfold sync_album, io_exists, io_mkdir, io_iterdir. cbv zeta.
  apply wp_bind, wp_print; cbn [files].
  apply wp_bind, wp_print; cbn [files].
  apply wp_bind, wp_print; cbn [files].
  apply wp_bind, wp_query; cbn [files].
  destruct (path_exists _ _); cbn [negb]; [|dry_steps].
  apply wp_bind, wp_query; cbn [files].
  destruct (path_exists _ _); cbn [negb]; [|dry_steps].
  apply wp_bind, wp_update; cbn [files].
  destruct (mkdir_parents _ _) as [e|fs1] eqn:Hmk; [done|].
  pose proof (only_dirs_mkdir _ _ _ _ Hinv Hmk) as Hinv1.
  apply wp_bind, wp_try_read; cbn [files].
  destruct (iterdir _ _) as [e|items]; [done|].
  apply wp_for_fold; [done|].
  intros track_dir log w0 _ H0. by apply sync_track_dry.
Qed.

Lemma main_dry w :
  wp (main fnmatch true) (λ _ w', only_dirs (files w) (files w')) w.
Proof.
  unfold main. apply wp_for_fold; [apply only_dirs_refl|].
  intros album_def logs w0 _ [Hsub Hfiles].
  apply wp_bind. eapply wp_mono; [apply sync_album_dry|].
  intros [log|e] w1 [Hsub1 Hfiles1]; [apply wp_ret|];
    (split; [by etrans|auto]).
Qed.

End dry_run.

(** *** A real run decides as the dry run *)

Lemma agree_refl fs : agree fs fs.
Proof. by intros p _. Qed.

Lemma agree_insert_written fd fr p n :
  agree fd fr → written p = true → agree fd (<[p := n]> fr).
Proof.
  intros H Hp q Hq. rewrite lookup_insert_ne; [by apply H|congruence].
Qed.

Lemma agree_insert_both fd fr p n :
  agree fd fr → agree (<[p := n]> fd) (<[p := n]> fr).
Proof.
  intros H q Hq. destruct (decide (p = q)) as [->|Hne].
  - by rewrite !lookup_insert_eq.
  - rewrite !lookup_insert_ne by done. by apply H.
Qed.

Lemma agree_stat fd fr p :
  agree fd fr → written p = false → stat fd p = stat fr p.
Proof. intros H Hp. destruct p; [done|]. by apply H. Qed.

Lemma mkdir_from_agree fd fr above todo fr' :
  agree fd fr →
  (∀ k, k `prefix_of` todo → written (above ++ k) = false) →
  mkdir_from fr above todo = inr fr' →
  ∃ fd', mkdir_from fd above todo = inr fd' ∧ agree fd' fr'.
Proof.
  revert fd fr above. induction todo as [|c rest IH];
    intros fd fr above Hag Hw H; simpl in *.
  - simplify_eq. eauto.
  - assert (∀ k, k `prefix_of` rest → written ((above ++ [c]) ++ k) = false)
      as Hw'.
    { intros k Hk. rewrite <-(assoc_L (++)). apply Hw. by apply prefix_cons. }
    rewrite (Hag (above ++ [c])) by (apply Hw, prefix_cons, prefix_nil).
    destruct (fr !! (above ++ [c])) as [[b|]|]; [done|by eapply IH|].
    eapply IH; [|done|done]. by apply agree_insert_both.
Qed.

Lemma mkdir_parents_agree fd fr p fr' :
  agree fd fr →
  (∀ k, k `prefix_of` p → written k = false) →
  mkdir_parents fr p = inr fr' →
  ∃ fd', mkdir_parents fd p = inr fd' ∧ agree fd' fr'.
Proof. intros ? Hw. by apply mkdir_from_agree. Qed.

Lemma entries_agree fd fr d :
  agree fd fr → (∀ p, child_of d p → written p = false) →
  entries fd d = entries fr d.
Proof.
  intros Hag Hw. unfold entries. do 2 f_equal. apply map_eq. intros q.
  rewrite !map_lookup_filter.
  destruct (decide (child_of d q)) as [Hq|Hq].
  - by rewrite (Hag q (Hw q Hq)).
  - destruct (fd !! q), (fr !! q); simpl; by rewrite ?option_guard_False.
Qed.

(** *** The places of an album *)

Lemma written_import d k : import_shape d → written (d ++ k) = false.
Proof.
  intros [rest ->]. simpl.
  destruct (rest ++ k) as [|x [|y [|z [|u [|v ?]]]]]; done.
Qed.

Lemma written_import_prefix d k :
  import_shape d → k `prefix_of` d → written k = false.
Proof.
  intros [rest ->] [k' Hk].
  destruct k as [|a [|b k]]; [done..|]. simplify_eq/=.
  destruct k as [|x [|y [|z [|u [|v ?]]]]]; done.
Qed.

Lemma written_short k : length k ≤ 3 → written k = false.
Proof. destruct k as [|a [|b [|c [|d k]]]]; simpl; (done || lia). Qed.

Lemma written_track_prefix d n k :
  ws_shape d → k `prefix_of` d ++ [n; "data"] → written k = false.
Proof.
  intros (s & a & ->) [k' Hk]. simpl in Hk.
  destruct k as [|x1 [|x2 [|x3 [|x4 [|x5 [|x6 k]]]]]];
    simplify_eq/=; done.
Qed.

Lemma written_lyrics d n :
  ws_shape d → written (d ++ [n; "data"; "lyrics.md"]) = true.
Proof. by intros (s & a & ->). Qed.

Lemma written_pull d f : pb_shape d → written (d ++ [f]) = true.
Proof. by intros (s & a & ->). Qed.

Lemma pick_elem_of candidates c :
  pick candidates = Some c → c ∈ candidates.
Proof.
  unfold pick. destruct candidates as [|c0 rest]; [done|].
  destruct (filter _ (c0 :: rest)) as [|c1 l] eqn:Hf.
  - intros [= <-]. by left.
  - intros [= <-].
    assert (c1 ∈ filter (λ c, Is_true (negb (Str.endswith "_web" (stem c))))
                   (c0 :: rest)) as Hin by (rewrite Hf; by left).
    by apply list_elem_of_filter in Hin as [_ ?].
Qed.

Section simulation.

Variable fnmatch : string → string → bool.

Lemma glob_agree fd fr d pat :
  agree fd fr → written d = false →
  (∀ p, child_of d p → written p = false) →
  glob_select fnmatch fd d pat = glob_select fnmatch fr d pat.
Proof.
  intros Hag Hd Hw. unfold glob_select, is_dir.
  by rewrite (agree_stat _ _ _ Hag Hd), (entries_agree _ _ _ Hag Hw).
Qed.

Lemma elem_of_glob fs d pat p :
  p ∈ glob_select fnmatch fs d pat → child_of d p.
Proof.
  unfold glob_select. destruct (is_dir fs d); [|by intros ?%elem_of_nil].
  intros [_ Hp]%list_elem_of_filter. by apply elem_of_entries in Hp as [_ ?].
Qed.

Lemma elem_of_candidates fs d n p :
  p ∈ candidates_of fnmatch fs d n → child_of d p.
Proof.
  unfold candidates_of. cbv zeta.
  destruct (sorted (glob_select _ _ _ (_ +:+ "_*.md"))) as [|c l] eqn:E.
  - intros Hp. apply (proj1 (elem_of_sorted _ _)) in Hp.
    by eapply elem_of_glob.
  - rewrite <-E. intros Hp. apply (proj1 (elem_of_sorted _ _)) in Hp.
    by eapply elem_of_glob.
Qed.

Lemma candidates_agree fd fr d n :
  agree fd fr → import_shape d →
  candidates_of fnmatch fd d n
  = candidates_of fnmatch fr d n.
Proof.
  intros Hag Hd. unfold candidates_of. cbv zeta.
  assert (written d = false) as Hwd.
  { rewrite <-(right_id_L [] (++) d). by apply written_import. }
  assert (∀ p, child_of d p → written p = false) as Hw.
  { intros p ->%child_of_inv. by apply written_import. }
  by rewrite !(glob_agree fd fr d _ Hag Hwd Hw).
Qed.

Lemma refused_agree fd fr d n :
  agree fd fr → import_shape d →
  refused fnmatch fd d n = refused fnmatch fr d n.
Proof.
  intros Hag Hd. unfold refused. cbv zeta.
  assert (written d = false) as Hwd.
  { rewrite <-(right_id_L [] (++) d). by apply written_import. }
  assert (∀ p, child_of d p → written p = false) as Hw.
  { intros p ->%child_of_inv. by apply written_import. }
  by rewrite !(glob_agree fd fr d _ Hag Hwd Hw).
Qed.

(** One round of the loop: whatever the real run decides, the dry run
    decides, and the two still agree afterwards. *)
Lemma sync_track_sim album_def ws_album pb_album import_dir track_dir
    log wd wr log' wr' :
  ws_shape ws_album → pb_shape pb_album → import_shape import_dir →
  child_of ws_album track_dir →
  agree (files wd) (files wr) →
  sync_track fnmatch album_def false pb_album import_dir track_dir log wr
    = (Ret log', wr') →
  ∃ wd',
    sync_track fnmatch album_def true pb_album import_dir track_dir log wd
      = (Ret log', wd') ∧
    agree (files wd') (files wr').
Proof.
  intros Hws Hpb Himp Hchild Hag H.
  rewrite (child_of_inv _ _ Hchild) in *.
  set (n := Fs.name track_dir) in *. clearbody n. clear Hchild track_dir.
  assert (written (ws_album ++ [n]) = false) as Htrack.
  { eapply (written_track_prefix _ n); [done|]. by exists ["data"];
      rewrite <-(assoc_L (++)). }
  unfold sync_track, io_is_dir, io_read_text_ignore, io_mkdir in *.
  apply bind_inv in H as (d & w1 & [-> ->]%query_inv & H).
  erewrite bind_ret; [|reflexivity].
  assert (is_dir (files wd) (ws_album ++ [n])
          = is_dir (files wr) (ws_album ++ [n])) as ->.
  { unfold is_dir. by rewrite (agree_stat _ _ _ Hag Htrack). }
  destruct (is_dir (files wr) (ws_album ++ [n])); cbn [negb] in *.
  2:{ injection H as <- <-. eauto. }
  destruct (Str.contains "checkpoint" _).
  { apply bind_inv in H as ([] & w1 & [= <-] & [= <- <-]).
    erewrite bind_ret; [|reflexivity]. eauto. }
  apply bind_inv in H as (r & w1 & Hch & H).
  rewrite ChooseFacts.choose_import_md_run in Hch.
  destruct (refused _ _ _ _) eqn:Href; [done|].
  injection Hch as <- <-.
  erewrite bind_ret;
    [|by rewrite ChooseFacts.choose_import_md_run,
        (refused_agree _ _ _ _ Hag Himp), Href].
  rewrite (candidates_agree _ _ _ _ Hag Himp).
  destruct (pick _) as [import_md|] eqn:Hpick.
  2:{ apply bind_inv in H as ([] & w1 & [= <-] & [= <- <-]).
      erewrite bind_ret; [|reflexivity]. eauto. }
  assert (written import_md = false) as Himd.
  { apply pick_elem_of, elem_of_candidates, child_of_inv in Hpick.
    rewrite Hpick. by apply written_import. }
  apply bind_inv in H
    as (lyrics & w1 & [Hread ->]%try_read_inv & H).
  assert (read_text_ignore (files wd) import_md = inr lyrics) as Hreadd.
  { unfold read_text_ignore, read_bytes in *.
    by rewrite (agree_stat _ _ _ Hag Himd). }
  erewrite bind_ret; [|unfold try_read; by rewrite Hreadd].
  apply bind_inv in H
    as ([] & w1 & (fr1 & Hmk & ->)%update_inv & H).
  assert (∀ k, k `prefix_of` child (ws_album ++ [n]) "data" →
               written k = false) as Hpre.
  { intros k Hk. apply (written_track_prefix ws_album n k Hws).
    unfold child in Hk. by rewrite <-(assoc_L (++)) in Hk. }
  destruct (mkdir_parents_agree _ _ _ _ Hag Hpre Hmk) as (fd1 & Hmkd & Hag1).
  erewrite bind_ret; [|unfold update; by rewrite Hmkd].
  apply bind_inv in H
    as ([] & w1 & (fr2 & Hw2 & ->)%write_text_inv & H).
  apply bind_inv in H
    as ([] & w1 & (fr3 & Hw3 & ->)%write_text_inv & H).
  apply bind_inv in H
    as ([] & w1 & (fr4 & Hw4 & ->)%write_text_inv & H).
  cbn [files stdout] in *.
  apply write_bytes_spec in Hw2 as [_ ->].
  apply write_bytes_spec in Hw3 as [_ ->].
  apply write_bytes_spec in Hw4 as [_ ->].
  do 4 (apply bind_inv in H as ([] & w1 & [= <-] & H)).
  injection H as <- <-. eexists. split; [reflexivity|]. cbn [files].
  apply agree_insert_written; [|by apply written_pull].
  apply agree_insert_written; [|by apply written_pull].
  apply agree_insert_written; [done|].
  unfold child. rewrite <-!(assoc_L (++)). by apply written_lyrics.
Qed.

Lemma sync_tracks_sim album_def ws_album pb_album import_dir l :
  ws_shape ws_album → pb_shape pb_album → import_shape import_dir →
  (∀ t, t ∈ l → child_of ws_album t) →
  ∀ log wd wr log' wr',
    agree (files wd) (files wr) →
    for_fold l log (sync_track fnmatch album_def false pb_album import_dir) wr
      = (Ret log', wr') →
    ∃ wd',
      for_fold l log (sync_track fnmatch album_def true pb_album import_dir) wd
        = (Ret log', wd') ∧
      agree (files wd') (files wr').
Proof.
  intros Hws Hpb Himp. induction l as [|t l IH];
    intros Hl log wd wr log' wr' Hag H; cbn [for_fold] in *.
  - injection H as <- <-. eauto.
  - apply bind_inv in H as (log1 & wr1 & H1 & H).
    destruct (sync_track_sim _ _ _ _ _ _ _ _ _ _ Hws Hpb Himp
                (Hl t ltac:(by left)) Hag H1) as (wd1 & Hd1 & Hag1).
    erewrite bind_ret; [|exact Hd1].
    eapply IH; [|done..]. intros t' Ht'. apply Hl. by right.
Qed.

(** The albums of the tool are laid out as the relation expects. *)
Lemma album_shapes album_def :
  album_def ∈ ALBUMS →
  ws_shape (child (child (join BASE (sku album_def)) "_workspace")
                  (ws_album album_def)) ∧
  pb_shape (child (child (join BASE (sku album_def)) "_pull-bucket")
                  (ws_album album_def)) ∧
  import_shape (join IMPORT_ROOT (import_subdir album_def)).
Proof.
  unfold ALBUMS, ws_shape, pb_shape, import_shape. intros H.
  repeat (apply elem_of_cons in H as [->|H];
    [split; [|split]; repeat eexists; vm_compute; reflexivity|]).
  by apply elem_of_nil in H.
Qed.

Lemma sync_album_sim album_def wd wr log wr' :
  album_def ∈ ALBUMS →
  agree (files wd) (files wr) →
  sync_album fnmatch album_def false wr = (Ret log, wr') →
  ∃ wd', sync_album fnmatch album_def true wd = (Ret log, wd') ∧
         agree (files wd') (files wr').
Proof.
  intros (Hws & Hpb & Himp)%album_shapes Hag H.
  unfold sync_album in *. cbv zeta in *.
  set (ws := child (child (join BASE (sku album_def)) "_workspace")
                   (ws_album album_def)) in *.
  set (pb := child (child (join BASE (sku album_def)) "_pull-bucket")
                   (ws_album album_def)) in *.
  set (imp := join IMPORT_ROOT (import_subdir album_def)) in *.
  clearbody ws pb imp.
  assert (written ws = false) as Hwws.
  { destruct Hws as (s & a & ->). done. }
  assert (written imp = false) as Hwimp.
  { rewrite <-(right_id_L [] (++) imp). by apply written_import. }
  unfold io_exists, io_mkdir, io_iterdir in *.
  do 3 (apply bind_inv in H as ([] & w1 & [= <-] & H);
        erewrite bind_ret; [|reflexivity]).
  apply bind_inv in H as (e & w1 & [-> ->]%query_inv & H).
  erewrite bind_ret; [|reflexivity]. cbn [files] in *.
  unfold path_exists in *. rewrite (agree_stat _ _ _ Hag Hwws).
  destruct (stat (files wr) ws) as [nws|] eqn:Esw; cbn [negb] in *.
  2:{ apply bind_inv in H as ([] & w1 & [= <-] & [= <- <-]).
      erewrite bind_ret; [|reflexivity]. eauto. }
  apply bind_inv in H as (e & w1 & [-> ->]%query_inv & H).
  erewrite bind_ret; [|reflexivity]. cbn [files] in *.
  rewrite (agree_stat _ _ _ Hag Hwimp).
  destruct (stat (files wr) imp) as [nimp|]; cbn [negb] in *.
  2:{ apply bind_inv in H as ([] & w1 & [= <-] & [= <- <-]).
      erewrite bind_ret; [|reflexivity]. eauto. }
  apply bind_inv in H
    as ([] & w1 & (fr1 & Hmk & ->)%update_inv & H).
  cbn [files stdout] in *.
  assert (∀ k, k `prefix_of` pb → written k = false) as Hpre.
  { intros k Hk%prefix_length. apply written_short.
    destruct Hpb as (s & a & ->). done. }
  destruct (mkdir_parents_agree _ _ _ _ Hag Hpre Hmk) as (fd1 & Hmkd & Hag1).
  erewrite bind_ret; [|unfold update; cbn [files]; by rewrite Hmkd].
  apply bind_inv in H
    as (items & w1 & [Hit ->]%try_read_inv & H).
  cbn [files] in *.
  assert (∀ p, child_of ws p → written p = false) as Hchildren.
  { intros p ->%child_of_inv. destruct Hws as (s & a & ->). done. }
  assert (iterdir fd1 ws = inr items) as Hitd.
  { unfold iterdir in *.
    by rewrite (agree_stat _ _ _ Hag1 Hwws),
               (entries_agree _ _ _ Hag1 Hchildren). }
  erewrite bind_ret; [|unfold try_read; cbn [files]; by rewrite Hitd].
  refine (sync_tracks_sim album_def ws pb imp (sorted items) Hws Hpb Himp
            _ [] _ _ log wr' _ H); [|exact Hag1].
  intros t Ht. apply (proj1 (elem_of_sorted _ _)) in Ht.
  unfold iterdir in Hit. destruct (stat fr1 ws) as [[]|]; [done| |done].
  injection Hit as <-. by apply elem_of_entries in Ht as [_ ?].
Qed.

Lemma albums_sim l :
  (∀ a, a ∈ l → a ∈ ALBUMS) →
  ∀ (logs : list (list (string * action))) wd wr logs' wr',
    agree (files wd) (files wr) →
    for_fold l logs (λ album_def logs,
      log ← sync_album fnmatch album_def false; mret (logs ++ [log])) wr
      = (Ret logs', wr') →
    ∃ wd',
      for_fold l logs (λ album_def logs,
        log ← sync_album fnmatch album_def true; mret (logs ++ [log])) wd
        = (Ret logs', wd') ∧
      agree (files wd') (files wr').
Proof.
  induction l as [|a l IH]; intros Hl logs wd wr logs' wr' Hag H;
    cbn [for_fold] in *.
  - injection H as <- <-. eauto.
  - apply bind_inv in H as (logs1 & wr1 & H1 & H).
    apply bind_inv in H1 as (log & wr2 & H1 & [= <- <-]).
    destruct (sync_album_sim a wd wr log wr2 (Hl a ltac:(by left)) Hag H1)
      as (wd1 & Hd1 & Hag1).
    erewrite bind_ret; [|erewrite bind_ret; [reflexivity|exact Hd1]].
    eapply IH; [|done..]. intros a' Ha'. apply Hl. by right.
Qed.

End simulation.




End DryRunFacts.

(** ** More facts about paths *)

Module PathFacts.

Import Fs Notions Run StrFacts FsFacts.

Lemma name_child base t : name (child base t) = t.
Proof. unfold name, child. by rewrite last_snoc. Qed.

Lemma child_ne p s : child p s ≠ [].
Proof. unfold child. by destruct p. Qed.

Lemma parent_child p s : parent (child p s) = p.
Proof. apply removelast_last. Qed.

Lemma child_of_child base t : child_of base (child base t).
Proof. split; [apply child_ne|apply parent_child]. Qed.

Lemma prefix_child p s : p `prefix_of` child p s.
Proof. by exists [s]. Qed.

Lemma parent_prefix p : parent p `prefix_of` p.
Proof.
  unfold parent. destruct p as [|c p] using rev_ind; [done|].
  rewrite removelast_last. by exists [c].
Qed.

End PathFacts.

(** ** The tree diff reporter: its three scans *)

Module ScanFacts.

Import Fs Diff Notions Run StrFacts FsFacts PathFacts.

(** A string without the pattern is left as it is. *)
Lemma remove_absent old s :
  Str.contains old s = false → Str.remove old s = s.
Proof.
  unfold Str.remove. induction s as [|c s IH]; [done|].
  intros H. change (Str.contains old (String c s))
    with (Str.startswith old (String c s) || Str.contains old s) in H.
  apply orb_false_iff in H as [H1 H2].
  cbn [Str.remove_go]. rewrite H1. f_equal. by apply IH.
Qed.

Lemma for_fold_scan (suffixes : list string) (l : list Path) :
  ∀ (acc : gset string) w,
    for_fold l acc (λ f tracks,
      if bool_decide (suffix f ∈ suffixes) then
        let name := stem f in
        let name := Str.remove "-checkpoint" name in
        mret ({[name]} ∪ tracks)
      else mret tracks) w
    = (Ret (list_to_set
              ((λ f, Str.remove "-checkpoint" (stem f))
                 <$> filter (λ f, suffix f ∈ suffixes) l) ∪ acc), w).
Proof.
  induction l as [|f l IH]; intros acc w; cbn [for_fold].
  - cbn. unfold ret. by rewrite (left_id_L ∅ (∪)).
  - rewrite filter_cons. case_bool_decide as Hf.
    + rewrite decide_True by done.
      erewrite bind_ret; [|reflexivity]. rewrite IH.
      cbn [fmap list_fmap list_to_set].
      by rewrite (comm_L (∪) {[_]} (list_to_set _)), (assoc_L (∪)).
    + rewrite decide_False by done.
      erewrite bind_ret; [|reflexivity]. by rewrite IH.
Qed.

(** The scan in closed form, for every state of its root. *)
Lemma scan_stems_eq (suffixes : list string) root w :
  scan_stems suffixes root w =
  match stat (files w) root with
  | None => (Ret ∅, w)
  | Some (File _) => (Raise NotADirectoryError, w)
  | Some Dir =>
      (Ret (list_to_set
              ((λ f, Str.remove "-checkpoint" (stem f))
                 <$> filter (λ f, suffix f ∈ suffixes)
                            (entries (files w) root))), w)
  end.
Proof.
  unfold scan_stems, io_exists, io_iterdir.
  erewrite bind_ret; [|reflexivity].
  unfold path_exists.
  destruct (stat (files w) root) as [[c|]|] eqn:Hs; cbn [negb]; [| |done].
  - erewrite bind_raise; [done|]. unfold try_read, iterdir. by rewrite Hs.
  - erewrite bind_ret; [|unfold try_read, iterdir; by rewrite Hs].
    by rewrite for_fold_scan, (right_id_L ∅ (∪)).
Qed.

Lemma scan_stems_elem_of (suffixes : list string) fs root (t : string) :
  t ∈ (list_to_set
         ((λ f, Str.remove "-checkpoint" (stem f))
            <$> filter (λ f, suffix f ∈ suffixes) (entries fs root))
       : gset string) ↔
  ∃ f, is_Some (fs !! f) ∧ child_of root f ∧ suffix f ∈ suffixes ∧
       t = Str.remove "-checkpoint" (stem f).
Proof.
  rewrite elem_of_list_to_set, list_elem_of_fmap. split.
  - intros (f & -> & [Hs [? ?]%elem_of_entries]%list_elem_of_filter).
    by exists f.
  - intros (f & ? & ? & ? & ->). exists f. split; [done|].
    apply list_elem_of_filter. split; [done|]. by apply elem_of_entries.
Qed.

(** X1. [load_import_tracks]: a missing root gives the empty set, a root
    that is a regular file raises, and a directory gives exactly the
    stems, with every ["-checkpoint"] removed, of its entries with suffix
    [.ipynb] or [.md]; nothing is written.  An entry whose stem has no
    ["-checkpoint"] contributes its stem. *)
Theorem load_import_tracks_spec (import_root : Path) (w : world) :
  (stat (files w) import_root = None →
     load_import_tracks import_root w = (Ret ∅, w)) ∧
  (∀ c, stat (files w) import_root = Some (File c) →
     load_import_tracks import_root w = (Raise NotADirectoryError, w)) ∧
  (stat (files w) import_root = Some Dir →
     ∃ tracks : gset string,
       load_import_tracks import_root w = (Ret tracks, w) ∧
       (∀ t, t ∈ tracks ↔
          ∃ f, is_Some (files w !! f) ∧ child_of import_root f ∧
               (suffix f = ".ipynb" ∨ suffix f = ".md") ∧
               t = Str.remove "-checkpoint" (stem f)) ∧
       (∀ f, is_Some (files w !! f) → child_of import_root f →
          suffix f = ".ipynb" ∨ suffix f = ".md" →
          Str.contains "-checkpoint" (stem f) = false →
          stem f ∈ tracks)).
Proof.
  unfold load_import_tracks. rewrite scan_stems_eq.
  split; [by intros ->|]. split; [by intros c ->|]. intros ->.
  eexists. split; [done|].
  assert (∀ f, suffix f ∈ [".ipynb"; ".md"] ↔
               suffix f = ".ipynb" ∨ suffix f = ".md") as Hsuf.
  { intros f. rewrite !elem_of_cons, elem_of_nil. tauto. }
  split.
  - intros t. rewrite scan_stems_elem_of.
    split; intros (f & ? & ? & ?%Hsuf & ?); by exists f.
  - intros f ? ? ?%Hsuf Hc. apply scan_stems_elem_of.
    exists f. by rewrite (remove_absent _ _ Hc).
Qed.

(** X2. [list_pullbucket_tracks]: as the scan of the imports, for the
    suffixes [.json] and [.md]. *)
Theorem list_pullbucket_tracks_spec (pb_base : Path) (w : world) :
  (stat (files w) pb_base = None →
     list_pullbucket_tracks pb_base w = (Ret ∅, w)) ∧
  (∀ c, stat (files w) pb_base = Some (File c) →
     list_pullbucket_tracks pb_base w = (Raise NotADirectoryError, w)) ∧
  (stat (files w) pb_base = Some Dir →
     ∃ tracks : gset string,
       list_pullbucket_tracks pb_base w = (Ret tracks, w) ∧
       (∀ t, t ∈ tracks ↔
          ∃ f, is_Some (files w !! f) ∧ child_of pb_base f ∧
               (suffix f = ".json" ∨ suffix f = ".md") ∧
               t = Str.remove "-checkpoint" (stem f)) ∧
       (∀ f, is_Some (files w !! f) → child_of pb_base f →
          suffix f = ".json" ∨ suffix f = ".md" →
          Str.contains "-checkpoint" (stem f) = false →
          stem f ∈ tracks)).
Proof.
  unfold list_pullbucket_tracks. rewrite scan_stems_eq.
  split; [by intros ->|]. split; [by intros c ->|]. intros ->.
  eexists. split; [done|].
  assert (∀ f, suffix f ∈ [".json"; ".md"] ↔
               suffix f = ".json" ∨ suffix f = ".md") as Hsuf.
  { intros f. rewrite !elem_of_cons, elem_of_nil. tauto. }
  split.
  - intros t. rewrite scan_stems_elem_of.
    split; intros (f & ? & ? & ?%Hsuf & ?); by exists f.
  - intros f ? ? ?%Hsuf Hc. apply scan_stems_elem_of.
    exists f. by rewrite (remove_absent _ _ Hc).
Qed.

(** *** The scan of the workspace *)

Lemma for_fold_list_tracks (l : list Path) :
  ∀ (acc : gmap string Path) w,
    for_fold l acc (λ item tracks,
      d ← io_is_dir item;
      if negb d then mret tracks
      else
        let data_file := child (child item "data") "lyrics.md" in
        e ← io_exists data_file;
        if e : bool then mret (<[name item := item]> tracks)
        else mret tracks) w
    = (Ret (foldl (λ tracks item,
                     if is_track (files w) item
                     then <[name item := item]> tracks else tracks)
                  acc l), w).
Proof.
  induction l as [|item l IH]; intros acc w; cbn [for_fold foldl]; [done|].
  unfold is_track at 2, io_is_dir, io_exists.
  erewrite bind_ret; [rewrite IH; reflexivity|].
  erewrite bind_ret; [|reflexivity].
  destruct (is_dir (files w) item); cbn [negb andb]; [|done].
  erewrite bind_ret; [|reflexivity].
  by destruct (path_exists _ _).
Qed.

Lemma foldl_tracks_lookup fs (l : list Path) :
  (∀ a b, a ∈ l → b ∈ l → name a = name b → a = b) →
  ∀ t ws,
    foldl (λ tracks item,
             if is_track fs item
             then <[name item := item]> tracks else tracks)
          (∅ : gmap string Path) l !! t = Some ws ↔
    ws ∈ l ∧ name ws = t ∧ is_track fs ws = true.
Proof.
  induction l as [|x l IH] using rev_ind; intros Hinj t ws.
  - cbn. rewrite lookup_empty, elem_of_nil. split; [done|by intros [[] _]].
  - rewrite foldl_app. cbn [foldl].
    assert (∀ a b, a ∈ l → b ∈ l → name a = name b → a = b) as Hinj'.
    { intros a b Ha Hb. apply Hinj; apply elem_of_app; by left. }
    specialize (IH Hinj' t ws).
    assert (x ∈ l ++ [x]) as Hx by (apply elem_of_app; right; by left).
    destruct (is_track fs x) eqn:Hgood.
    + rewrite lookup_insert. case_decide as Ht.
      * split.
        -- intros [= <-]. done.
        -- intros (Hin & Hn & _). f_equal. symmetry.
           apply Hinj; [done..|congruence].
      * rewrite IH, elem_of_app, list_elem_of_singleton. split.
        -- intros (? & ? & ?). split; [by left|done].
        -- intros ([?| ->] & ? & ?); [done|congruence].
    + rewrite IH, elem_of_app, list_elem_of_singleton. split.
      * intros (? & ? & ?). split; [by left|done].
      * intros ([?| ->] & ? & ?); [done|congruence].
Qed.

(** [list_tracks] in closed form, for every state of its root. *)
Lemma list_tracks_eq base w :
  list_tracks base w =
  match stat (files w) base with
  | None => (Ret ∅, w)
  | Some (File _) => (Raise NotADirectoryError, w)
  | Some Dir =>
      (Ret (foldl (λ tracks item,
                     if is_track (files w) item
                     then <[name item := item]> tracks else tracks)
                  ∅ (sorted (entries (files w) base))), w)
  end.
Proof.
  unfold list_tracks, io_exists, io_iterdir.
  erewrite bind_ret; [|reflexivity].
  unfold path_exists.
  destruct (stat (files w) base) as [[c|]|] eqn:Hs; cbn [negb]; [| |done].
  - erewrite bind_raise; [done|]. unfold try_read, iterdir. by rewrite Hs.
  - erewrite bind_ret; [|unfold try_read, iterdir; by rewrite Hs].
    apply for_fold_list_tracks.
Qed.

(** X3. [list_tracks]: a missing root gives the empty dictionary, a root
    that is a regular file raises, and a directory gives the dictionary
    that maps [t] to [base / t] exactly when [base / t] is a directory
    that holds [data/lyrics.md]; nothing is written. *)
Theorem list_tracks_spec (base : Path) (w : world) :
  (stat (files w) base = None → list_tracks base w = (Ret ∅, w)) ∧
  (∀ c, stat (files w) base = Some (File c) →
     list_tracks base w = (Raise NotADirectoryError, w)) ∧
  (stat (files w) base = Some Dir →
     ∃ tracks : gmap string Path,
       list_tracks base w = (Ret tracks, w) ∧
       ∀ t ws, tracks !! t = Some ws ↔
         ws = child base t ∧ files w !! ws = Some Dir ∧
         path_exists (files w) (child (child ws "data") "lyrics.md") = true).
Proof.
  rewrite list_tracks_eq.
  split; [by intros ->|]. split; [by intros c ->|]. intros ->.
  eexists. split; [done|]. intros t ws.
  rewrite foldl_tracks_lookup.
  2:{ intros a b [_ Ha%child_of_inv]%elem_of_sorted%elem_of_entries
        [_ Hb%child_of_inv]%elem_of_sorted%elem_of_entries Hn.
      congruence. }
  rewrite elem_of_sorted, elem_of_entries. unfold is_track.
  rewrite andb_true_iff. split.
  - intros ([_ Hc] & <- & Hd & He).
    split; [by apply child_of_inv|]. split; [|done].
    destruct Hc as [Hne _]. apply is_dir_true in Hd as [?|?]; done.
  - intros (-> & Hd & He).
    split; [split; [by rewrite Hd|apply child_of_child]|].
    split; [apply name_child|]. split; [|done].
    unfold is_dir. rewrite stat_lookup, Hd; [done|].
    unfold child. by destruct base.
Qed.

Lemma list_tracks_spec_witness :
  ∃ tracks : gmap string Path,
    list_tracks ["ws"] (World Sample.fs_scan []) =
      (Ret tracks, World Sample.fs_scan []) ∧
    ∀ t ws, tracks !! t = Some ws ↔
      ws = child ["ws"] t ∧ Sample.fs_scan !! ws = Some Dir ∧
      path_exists Sample.fs_scan (child (child ws "data") "lyrics.md")
        = true.
Proof.
  apply (proj2 (proj2 (list_tracks_spec ["ws"] (World Sample.fs_scan [])))).
  vm_compute. reflexivity.
Defined.

(** The scan of the sample import directory. *)
Lemma load_import_tracks_spec_witness :
  ∃ tracks : gset string,
    load_import_tracks ["in"] (World Sample.fs_scan []) =
      (Ret tracks, World Sample.fs_scan []) ∧
    (∀ t, t ∈ tracks ↔
       ∃ f, is_Some (Sample.fs_scan !! f) ∧ child_of ["in"] f ∧
            (suffix f = ".ipynb" ∨ suffix f = ".md") ∧
            t = Str.remove "-checkpoint" (stem f)) ∧
    (∀ f, is_Some (Sample.fs_scan !! f) → child_of ["in"] f →
       suffix f = ".ipynb" ∨ suffix f = ".md" →
       Str.contains "-checkpoint" (stem f) = false →
       stem f ∈ tracks).
Proof.
  apply (proj2 (proj2 (load_import_tracks_spec ["in"]
                         (World Sample.fs_scan [])))).
  vm_compute. reflexivity.
Defined.

Lemma list_pullbucket_tracks_spec_witness :
  ∃ tracks : gset string,
    list_pullbucket_tracks ["in"] (World Sample.fs_scan []) =
      (Ret tracks, World Sample.fs_scan []) ∧
    (∀ t, t ∈ tracks ↔
       ∃ f, is_Some (Sample.fs_scan !! f) ∧ child_of ["in"] f ∧
            (suffix f = ".json" ∨ suffix f = ".md") ∧
            t = Str.remove "-checkpoint" (stem f)) ∧
    (∀ f, is_Some (Sample.fs_scan !! f) → child_of ["in"] f →
       suffix f = ".json" ∨ suffix f = ".md" →
       Str.contains "-checkpoint" (stem f) = false →
       stem f ∈ tracks).
Proof.
  apply (proj2 (proj2 (list_pullbucket_tracks_spec ["in"]
                         (World Sample.fs_scan [])))).
  vm_compute. reflexivity.
Defined.

End ScanFacts.

(** ** The tree diff reporter: the clean report and the whole run *)

Module ReportFacts.

Import Fs Diff Notions Run StrFacts FsFacts ScanFacts.

(** A list of lines that is empty or starts with a line whose second
    byte is not that of the check mark of [CLEAN]. *)
Local Abbreviation flagged := (λ l : list string,
  l = [] ∨ ∃ a b r rest, l = String a (String b r) :: rest
                         ∧ b ≠ "156"%char).

Lemma flagged_app l1 l2 : flagged l1 → flagged l2 → flagged (l1 ++ l2).
Proof.
  intros [->|(a & b & r & rest & -> & Hb)] H2; [done|].
  right. by exists a, b, r, (rest ++ l2).
Qed.

Lemma flagged_block heading (tracks : gset string) a b r :
  heading = String a (String b r) → b ≠ "156"%char →
  flagged (block heading tracks).
Proof.
  intros -> Hb. unfold block. case_decide; [by left|].
  right. by eexists a, b, r, _.
Qed.

Lemma flagged_track_lines fs workspace_dict t :
  flagged (track_lines fs workspace_dict t).
Proof.
  unfold track_lines. destruct (workspace_dict !! t); [|by left].
  cbv zeta. destruct (_ && _); [by left|].
  right. cbn [app String.app]. by eexists _, _, _, _.
Qed.

Lemma flagged_concat (ls : list (list string)) :
  Forall (λ l, flagged l) ls → flagged (concat ls).
Proof.
  induction 1 as [|l ls Hl _ IH]; [by left|].
  cbn [concat]. by apply flagged_app.
Qed.

Lemma flagged_not_clean l :
  flagged l → l ≠ [] → Str.join Codec.LF l ≠ CLEAN.
Proof.
  intros [->|(a & b & r & rest & -> & Hb)] Hne; [done|].
  destruct rest; cbn [Str.join String.app]; unfold CLEAN;
    cbn [String.app]; intros [= _ ? _]; done.
Qed.

Lemma block_nil_inv heading (tracks : gset string) :
  block heading tracks = [] → tracks = ∅.
Proof. unfold block. by case_decide. Qed.

Lemma track_lines_nil fs workspace_dict t :
  track_lines fs workspace_dict t = [] ↔
  ∀ ws, workspace_dict !! t = Some ws → complete fs ws t.
Proof.
  unfold track_lines, complete.
  destruct (workspace_dict !! t) as [ws|]; [|by split].
  cbv zeta. split.
  - intros H ws' [= <-].
    destruct (path_exists fs (child (child ws "data") "lyrics.md"));
      destruct (path_exists fs (child (child ws "data") "metadata.json"));
      destruct (path_exists fs (child ws (t +:+ ".ipynb")));
      cbn [andb] in H; done.
  - intros H. by destruct (H ws eq_refl) as (-> & -> & ->).
Qed.

Lemma concat_nil_inv {A} (ls : list (list A)) :
  concat ls = [] → ∀ l, l ∈ ls → l = [].
Proof.
  induction ls as [|l0 ls IH]; cbn [concat]; [by intros _ l ?%elem_of_nil|].
  intros [-> H]%app_eq_nil l [->|Hin]%elem_of_cons; [done|]. by apply IH.
Qed.

(** X4. [diff] returns [CLEAN], the line that says that no differences
    were found and the album is clean, exactly when the workspace and
    the pull bucket hold the same track names as the imports and every
    workspace folder has its three files. *)
Theorem diff_clean_iff (import_set : gset string)
    (workspace_dict : gmap string Path) (pullbucket_set : gset string)
    (w : world) :
  diff import_set workspace_dict pullbucket_set w = (Ret CLEAN, w) ↔
  dom workspace_dict = import_set ∧ pullbucket_set = import_set ∧
  ∀ t ws, workspace_dict !! t = Some ws → complete (files w) ws t.
Proof.
  unfold diff. erewrite bind_ret; [|apply DiffFacts.diff_report_spec].
  set (lines := concat (track_lines (files w) workspace_dict
                          <$> sorted_str (elements import_set))).
  set (b1 := block MISSING_WS _). set (b2 := block MISSING_PB _).
  set (b3 := block EXTRA_WS _). set (b4 := block EXTRA_PB _).
  assert (flagged (b1 ++ b2 ++ b3 ++ b4 ++ lines)) as Hfl.
  { repeat apply flagged_app.
    - by eapply flagged_block.
    - by eapply flagged_block.
    - by eapply flagged_block.
    - by eapply flagged_block.
    - apply flagged_concat, Forall_fmap, Forall_forall. intros t _.
      apply flagged_track_lines. }
  split.
  - intros [= H].
    destruct (b1 ++ b2 ++ b3 ++ b4 ++ lines) as [|h rest] eqn:HR.
    2:{ exfalso. by apply (flagged_not_clean _ Hfl). }
    apply app_eq_nil in HR as [H1%block_nil_inv HR].
    apply app_eq_nil in HR as [H2%block_nil_inv HR].
    apply app_eq_nil in HR as [H3%block_nil_inv HR].
    apply app_eq_nil in HR as [H4%block_nil_inv HR].
    assert (dom workspace_dict = import_set) as Hdom.
    { apply set_eq. intros t. split; intros Ht.
      - destruct (decide (t ∈ import_set)) as [|Hn]; [done|].
        assert (t ∈ dom workspace_dict ∖ import_set) as Hx
          by (by apply elem_of_difference).
        rewrite H3 in Hx. by apply elem_of_empty in Hx.
      - destruct (decide (t ∈ dom workspace_dict)) as [|Hn]; [done|].
        assert (t ∈ import_set ∖ dom workspace_dict) as Hx
          by (by apply elem_of_difference).
        rewrite H1 in Hx. by apply elem_of_empty in Hx. }
    split; [done|]. split.
    { apply set_eq. intros t. split; intros Ht.
      - destruct (decide (t ∈ import_set)) as [|Hn]; [done|].
        assert (t ∈ pullbucket_set ∖ import_set) as Hx
          by (by apply elem_of_difference).
        rewrite H4 in Hx. by apply elem_of_empty in Hx.
      - destruct (decide (t ∈ pullbucket_set)) as [|Hn]; [done|].
        assert (t ∈ import_set ∖ pullbucket_set) as Hx
          by (by apply elem_of_difference).
        rewrite H2 in Hx. by apply elem_of_empty in Hx. }
    intros t ws Hws.
    assert (t ∈ import_set) as Ht.
    { rewrite <-Hdom. apply elem_of_dom. by eexists. }
    apply (proj1 (track_lines_nil (files w) workspace_dict t)); [|done].
    apply (concat_nil_inv _ HR). apply list_elem_of_fmap. exists t.
    split; [done|]. by apply (proj1 (DiffFacts.sorted_str_spec import_set)).
  - intros (Hdom & -> & Hall).
    assert (b1 = []) as ->.
    { unfold b1. rewrite Hdom, difference_diag_L.
      apply DiffFacts.block_empty. }
    assert (b2 = []) as ->.
    { unfold b2. rewrite difference_diag_L. apply DiffFacts.block_empty. }
    assert (b3 = []) as ->.
    { unfold b3. rewrite Hdom, difference_diag_L.
      apply DiffFacts.block_empty. }
    assert (b4 = []) as ->.
    { unfold b4. rewrite difference_diag_L. apply DiffFacts.block_empty. }
    assert (lines = []) as ->; [|done].
    unfold lines. clear -Hall.
    induction (sorted_str (elements import_set)) as [|t l IH]; [done|].
    cbn [fmap list_fmap concat]. rewrite IH.
    rewrite (proj2 (track_lines_nil (files w) workspace_dict t)); [done|].
    intros ws. apply Hall.
Qed.



End ReportFacts.

(** ** What the scripts may change *)

Module GrowFacts.

Import Fs Notions Run StrFacts FsFacts PathFacts.

Lemma grown_refl place fs : grown place fs fs.
Proof. intros p. by left. Qed.

Lemma grown_trans place fs1 fs2 fs3 :
  grown place fs1 fs2 → grown place fs2 fs3 → grown place fs1 fs3.
Proof.
  intros H12 H23 p. destruct (H12 p) as [E12|[Hp C12]].
  { rewrite <-E12. apply H23. }
  destruct (H23 p) as [E23|[_ C23]].
  { rewrite E23. by right. }
  right. split; [done|]. unfold change_ok in *.
  destruct (fs1 !! p) as [[]|], (fs2 !! p) as [[]|], (fs3 !! p) as [[]|];
    done.
Qed.

Lemma grown_mono (place place' : Path → Prop) fs fs' :
  (∀ p, place p → place' p) → grown place fs fs' → grown place' fs fs'.
Proof. intros Hpl H p. destruct (H p) as [?|[? ?]]; auto. Qed.

Lemma grown_outside place fs fs' p :
  grown place fs fs' → ¬ place p → fs' !! p = fs !! p.
Proof. intros H Hp. by destruct (H p) as [?|[? _]]. Qed.

Lemma grown_dir place fs fs' p :
  grown place fs fs' → fs !! p = Some Dir → fs' !! p = Some Dir.
Proof.
  intros H Hd. destruct (H p) as [->|[_ C]]; [done|].
  unfold change_ok in C. by rewrite Hd in C.
Qed.

Lemma grown_file place fs fs' p c :
  grown place fs fs' → fs !! p = Some (File c) →
  ∃ c', fs' !! p = Some (File c').
Proof.
  intros H Hf. destruct (H p) as [->|[_ C]]; [by exists c|].
  unfold change_ok in C. rewrite Hf in C.
  destruct (fs' !! p) as [[c'|]|]; [by exists c'|done..].
Qed.

Lemma grown_is_dir place fs fs' p :
  grown place fs fs' → is_dir fs p = true → is_dir fs' p = true.
Proof.
  intros H [->|Hd]%is_dir_true; [done|].
  unfold is_dir. destruct p; [done|].
  by rewrite stat_lookup, (grown_dir _ _ _ _ H Hd).
Qed.

Lemma grown_exists place fs fs' p :
  grown place fs fs' → path_exists fs p = true → path_exists fs' p = true.
Proof.
  intros H. unfold path_exists. destruct p as [|c p]; [done|].
  rewrite !stat_lookup by done.
  destruct (fs !! (c :: p)) as [[b|]|] eqn:E; [| |done]; intros _.
  - by destruct (grown_file _ _ _ _ _ H E) as [c' ->].
  - by rewrite (grown_dir _ _ _ _ H E).
Qed.

(** *** The three updates *)

Lemma grown_mkdir fs p fs' :
  mkdir_parents fs p = inr fs' →
  grown (λ q, q ≠ [] ∧ q `prefix_of` p) fs fs'.
Proof.
  intros [_ Hnew]%mkdir_parents_spec q.
  destruct (decide (fs' !! q = fs !! q)) as [?|Hne]; [by left|].
  destruct (Hnew q Hne) as (Hn & Hd & Hpre & Hq). right.
  split; [done|]. unfold change_ok. by rewrite Hn, Hd.
Qed.

Lemma grown_write fs p b fs' :
  write_bytes fs p b = inr fs' → grown (λ q, q = p) fs fs'.
Proof.
  intros H. pose proof H as [Hp ->]%write_bytes_spec.
  unfold write_bytes in H. rewrite (stat_lookup _ _ Hp) in H.
  intros q. rewrite lookup_insert. case_decide as Hq; [|by left].
  subst q. right. split; [done|]. unfold change_ok.
  by destruct (fs !! p) as [[c|]|].
Qed.

Lemma grown_copy2 fs src dst fs' :
  copy2 fs src dst = inr fs' →
  grown (λ q, q = dst ∨ q = child dst (name src)) fs fs'.
Proof.
  unfold copy2. destruct (_ && _); [done|].
  destruct (read_bytes fs src) as [e|b]; [done|].
  intros H%grown_write. eapply grown_mono; [|done].
  intros q ->. destruct (is_dir fs dst); auto.
Qed.

(** *** Places *)

Lemma near_inside roots r p :
  r ∈ roots → r `prefix_of` p → p ≠ [] → near roots p.
Proof. intros Hr Hp Hne. split; [done|]. exists r. auto. Qed.

Lemma near_above roots r p q :
  r ∈ roots → r `prefix_of` p → q ≠ [] → q `prefix_of` p → near roots q.
Proof.
  intros Hr Hp Hne Hq. split; [done|]. exists r. split; [done|].
  destruct (prefix_weak_total _ _ _ Hq Hp); auto.
Qed.

Lemma near_mono roots roots' q :
  (∀ r, r ∈ roots → r ∈ roots') → near roots q → near roots' q.
Proof. intros H [Hne (r & Hr & Hq)]. split; [done|]. exists r. auto. Qed.

(** An update inside one of the roots keeps [grown]. *)
Lemma grown_mkdir_in roots r fs0 fs p fs' :
  grown (near roots) fs0 fs → r ∈ roots → r `prefix_of` p →
  mkdir_parents fs p = inr fs' → grown (near roots) fs0 fs'.
Proof.
  intros H0 Hr Hp H%grown_mkdir. eapply grown_trans; [done|].
  eapply grown_mono; [|done]. intros q [Hne Hq]. by eapply near_above.
Qed.

Lemma grown_write_in roots r fs0 fs p b fs' :
  grown (near roots) fs0 fs → r ∈ roots → r `prefix_of` p →
  write_bytes fs p b = inr fs' → grown (near roots) fs0 fs'.
Proof.
  intros H0 Hr Hp H. pose proof H as [Hne _]%write_bytes_spec.
  apply grown_write in H. eapply grown_trans; [done|].
  eapply grown_mono; [|done]. intros q ->. by eapply near_inside.
Qed.

Lemma grown_copy2_in roots r fs0 fs src dst fs' :
  grown (near roots) fs0 fs → r ∈ roots → r `prefix_of` dst →
  copy2 fs src dst = inr fs' → grown (near roots) fs0 fs'.
Proof.
  intros H0 Hr Hp H. unfold copy2 in H.
  destruct (_ && _); [done|].
  destruct (read_bytes fs src) as [e|b]; [done|].
  eapply grown_write_in; [done|done| |done].
  destruct (is_dir fs dst); [|done]. etrans; [done|apply prefix_child].
Qed.

(** *** Steps of a script under [grown] *)

Section steps.

Variables (roots : list Path) (fs0 : FS).

Local Abbreviation inv w := (grown (near roots) fs0 (files w)).

(** The three updates as steps of a script, inside a root [r]. *)
Lemma wp_mkdir_in r p w :
  r ∈ roots → r `prefix_of` p → inv w →
  wp (io_mkdir p) (λ _ w', inv w') w.
Proof.
  intros Hr Hp Hinv. apply wp_update.
  destruct (mkdir_parents _ _) eqn:Hm; cbn; [done|].
  by eapply grown_mkdir_in.
Qed.

Lemma wp_mkdir_parent_in r p w :
  r ∈ roots → r `prefix_of` p → inv w →
  wp (io_mkdir (parent p)) (λ _ w', inv w') w.
Proof.
  intros Hr Hp Hinv. apply wp_update.
  destruct (mkdir_parents _ _) eqn:Hm; cbn; [done|].
  apply grown_mkdir in Hm. eapply grown_trans; [done|].
  eapply grown_mono; [|done]. intros q [Hne Hq].
  eapply near_above; [done..|]. etrans; [done|apply parent_prefix].
Qed.

Lemma wp_write_in r p s w :
  r ∈ roots → r `prefix_of` p → inv w →
  wp (io_write_text p s) (λ _ w', inv w') w.
Proof.
  intros Hr Hp Hinv. apply (wp_write_text p s (λ w, inv w)); [done|].
  intros c fs' Hm. cbn [files]. by eapply grown_write_in.
Qed.

Lemma wp_copy2_in r src dst w :
  r ∈ roots → r `prefix_of` dst → inv w →
  wp (io_copy2 src dst) (λ _ w', inv w') w.
Proof.
  intros Hr Hp Hinv. apply wp_update.
  destruct (copy2 _ _ _) eqn:Hm; cbn; [done|].
  by eapply grown_copy2_in.
Qed.

(** Sequencing under an invariant of the world. *)
Lemma wp_seq {A B : Type} (m : IO A) (k : A → IO B) (I : world → Prop) w :
  wp m (λ _ w', I w') w →
  (∀ a w', I w' → wp (k a) (λ _ w'', I w'') w') →
  wp (m ≫= k) (λ _ w'', I w'') w.
Proof.
  intros Hm Hk. apply wp_bind. eapply wp_mono; [exact Hm|].
  intros [a|e] w' Hw'; [by apply Hk|done].
Qed.

Lemma wp_look {A B : Type} (f : FS → A) (k : A → IO B) (I : world → Prop) w :
  (∀ a, wp (k a) (λ _ w'', I w'') w) →
  wp (query f ≫= k) (λ _ w'', I w'') w.
Proof. intros Hk. apply wp_bind, wp_query, Hk. Qed.

Lemma wp_say s w : inv w → wp (print s) (λ _ w', inv w') w.
Proof. intros H. by apply wp_print. Qed.

End steps.

End GrowFacts.

(** ** The album builder: what it may change *)

Module BuildGrowFacts.

Import Fs Build Notions Run StrFacts FsFacts PathFacts GrowFacts.

Section roots.

Variables (roots : list Path) (fs0 : FS).

Local Abbreviation inv w := (grown (near roots) fs0 (files w)).

Lemma apply_track_template_grown r track_dir template_root w :
  r ∈ roots → r `prefix_of` track_dir → inv w →
  wp (apply_track_template track_dir template_root) (λ _ w', inv w') w.
Proof.
  intros Hr Hp Hinv. unfold apply_track_template.
  apply wp_look. intros template_paths.
  apply wp_for_each; [done|]. clear w Hinv.
  intros template_path w _ Hinv.
  assert (r `prefix_of`
            track_dir ++ relative_to template_root template_path) as Hin.
  { etrans; [done|]. by apply prefix_app_r. }
  apply wp_look. intros [|].
  { by eapply wp_mkdir_in. }
  apply wp_look. intros [|]; cbn [negb]; [by apply wp_ret|].
  apply wp_seq; [by eapply wp_mkdir_parent_in|].
  intros _ w1 Hinv1. by eapply wp_copy2_in.
Qed.

Lemma import_one_grown spec base_dir template_root md_path tracks w :
  workspace_album_dir spec base_dir ∈ roots → inv w →
  wp (import_one spec base_dir template_root md_path tracks)
     (λ _ w', inv w') w.
Proof.
  intros Hr Hinv. unfold import_one.
  destruct (Str.contains _ _); [by apply wp_ret|].
  destruct (TRACK_FILE_RE _) as [[track_num slug]|]; [|by apply wp_ret].
  set (track_dir := child (workspace_album_dir spec base_dir) _).
  assert (workspace_album_dir spec base_dir `prefix_of` track_dir) as Hd
    by apply prefix_child.
  assert (∀ s, workspace_album_dir spec base_dir
                 `prefix_of` child track_dir s) as Hd1.
  { intros s. etrans; [done|apply prefix_child]. }
  assert (∀ s s', workspace_album_dir spec base_dir
                    `prefix_of` child (child track_dir s) s') as Hd2.
  { intros s s'. etrans; [apply Hd1|apply prefix_child]. }
  apply wp_seq; [by eapply wp_mkdir_in|]. intros _ w1 Hinv1.
  apply wp_seq; [by eapply apply_track_template_grown|]. intros _ w2 Hinv2.
  apply wp_bind, wp_try_read.
  destruct (read_text _ _) as [e|lyrics_text]; [done|].
  apply wp_seq; [eapply wp_mkdir_parent_in; [exact Hr|apply Hd2|done]|].
  intros _ w3 Hinv3.
  apply wp_seq; [eapply wp_write_in; [exact Hr|apply Hd2|done]|].
  intros _ w4 Hinv4.
  apply wp_look. intros e.
  apply wp_seq.
  { destruct e; [|by apply wp_ret].
    eapply wp_copy2_in; [exact Hr|apply Hd1|done]. }
  intros _ w5 Hinv5.
  apply wp_seq; [eapply wp_write_in; [exact Hr|apply Hd2|done]|].
  intros _ w6 Hinv6. by apply wp_ret.
Qed.

Lemma build_workspaces_for_album_grown spec base_dir template_root w :
  workspace_album_dir spec base_dir ∈ roots →
  pull_album_dir spec base_dir ∈ roots → inv w →
  wp (build_workspaces_for_album spec base_dir template_root)
     (λ _ w', inv w') w.
Proof.
  intros Hws Hpb Hinv. unfold build_workspaces_for_album. cbv zeta.
  apply wp_seq; [eapply wp_mkdir_in; [exact Hws|done|done]|].
  intros _ w1 Hinv1.
  apply wp_seq; [eapply wp_mkdir_in; [exact Hpb|done|done]|].
  intros _ w2 Hinv2.
  apply wp_look. intros [|]; cbn [negb].
  - apply wp_look. intros md_paths. apply wp_for_fold; [done|].
    intros md_path acc w3 _ Hinv3. by apply import_one_grown.
  - apply wp_seq; [by apply wp_say|]. intros _ w3 Hinv3. by apply wp_ret.
Qed.

Lemma pull_one_grown spec base_dir track w :
  pull_album_dir spec base_dir ∈ roots → inv w →
  wp (pull_one spec base_dir track) (λ _ w', inv w') w.
Proof.
  intros Hpb Hinv. unfold pull_one. cbv zeta.
  apply wp_bind, wp_try_read.
  destruct (read_text _ _) as [e|lyrics_text]; [done|].
  apply wp_seq; [eapply wp_write_in; [done|apply prefix_child|done]|].
  intros _ w1 Hinv1.
  apply wp_seq; [eapply wp_write_in; [done|apply prefix_child|done]|].
  intros _ w2 Hinv2. by apply wp_say.
Qed.

Lemma build_pull_bucket_for_album_grown spec base_dir tracks w :
  pull_album_dir spec base_dir ∈ roots → inv w →
  wp (build_pull_bucket_for_album spec base_dir tracks)
     (λ _ w', inv w') w.
Proof.
  intros Hpb Hinv. unfold build_pull_bucket_for_album.
  apply wp_seq; [by eapply wp_mkdir_in|]. intros _ w1 Hinv1.
  apply wp_for_each; [done|]. intros track w2 _ Hinv2.
  by apply pull_one_grown.
Qed.

Lemma copy_sun_tzu_notebook_grown base_dir w :
  parent (join base_dir SUN_TZU_DEST) ∈ roots → inv w →
  wp (copy_sun_tzu_notebook base_dir) (λ _ w', inv w') w.
Proof.
  intros Hr Hinv. unfold copy_sun_tzu_notebook. cbv zeta.
  apply wp_seq; [by eapply wp_mkdir_in|]. intros _ w1 Hinv1.
  apply wp_look. intros [|]; cbn [negb]; [|by apply wp_say].
  apply wp_seq; [eapply wp_copy2_in; [done|apply parent_prefix|done]|].
  intros _ w2 Hinv2. by apply wp_say.
Qed.

End roots.

Lemma workspace_in_output_dirs spec :
  spec ∈ ALBUM_SPECS → workspace_album_dir spec [] ∈ output_dirs.
Proof.
  intros H. apply elem_of_app. left.
  apply list_elem_of_fmap. by exists spec.
Qed.

Lemma pull_in_output_dirs spec :
  spec ∈ ALBUM_SPECS → pull_album_dir spec [] ∈ output_dirs.
Proof.
  intros H. apply elem_of_app. right.
  apply list_elem_of_fmap. by exists spec.
Qed.

Lemma notebook_in_output_dirs :
  parent (join [] SUN_TZU_DEST) ∈ output_dirs.
Proof. vm_compute. do 6 right. left. Qed.

Lemma builder_main_grown w :
  grown (near output_dirs) (files w) (files (main w).2).
Proof.
  change (wp main (λ _ w', grown (near output_dirs) (files w) (files w')) w).
  unfold main. cbv zeta.
  apply wp_seq.
  - apply wp_for_each; [apply grown_refl|]. intros spec w1 Hspec Hinv1.
    unfold process_album.
    apply wp_seq; [by apply wp_say|]. intros _ w2 Hinv2.
    apply wp_seq.
    + apply build_workspaces_for_album_grown;
        auto using workspace_in_output_dirs, pull_in_output_dirs.
    + intros tracks w3 Hinv3.
      apply build_pull_bucket_for_album_grown;
        auto using pull_in_output_dirs.
  - intros _ w1 Hinv1.
    apply copy_sun_tzu_notebook_grown;
      auto using notebook_in_output_dirs.
Qed.

Lemma output_dirs_heads :
  Forall (λ r, head r ∈ [Some "HAWK-ARS-01"; Some "HAWK-ARS-02";
                         Some "HAWK-ARS-03"; Some "HAWK-ARS-04"])
         output_dirs.
Proof. apply (bool_decide_unpack _). by vm_compute. Qed.

Lemma near_output_dirs_head p :
  near output_dirs p →
  head p ∈ [Some "HAWK-ARS-01"; Some "HAWK-ARS-02";
            Some "HAWK-ARS-03"; Some "HAWK-ARS-04"].
Proof.
  intros [Hne (r & Hr & Hp)].
  pose proof (proj1 (Forall_forall _ _) output_dirs_heads r Hr) as Hh.
  assert (head p = head r) as ->; [|done].
  destruct Hp as [[k ->]|[k ->]].
  - by destruct p.
  - destruct r; [|done]. exfalso. revert Hh.
    rewrite !elem_of_cons, elem_of_nil.
    intros [?|[?|[?|[?|[]]]]]; done.
Qed.

(** X6. The builder removes nothing and changes the kind of nothing:
    after a run, also one that stops on an exception, every directory
    is still a directory and every regular file is still a regular
    file. *)
Theorem builder_never_removes (w : world) (p : Path) :
  (files w !! p = Some Dir → files (main w).2 !! p = Some Dir) ∧
  (∀ c, files w !! p = Some (File c) →
     ∃ c', files (main w).2 !! p = Some (File c')).
Proof.
  split.
  - apply (grown_dir _ _ _ _ (builder_main_grown w)).
  - intros c. apply (grown_file _ _ _ _ _ (builder_main_grown w)).
Qed.

(** X7. The builder changes entries only on the way to, or inside, the
    workspace and pull-bucket directories of its albums; in particular
    nothing under [_imports] or [_templates] is created or written,
    whatever the outcome of the run. *)
Theorem builder_changes_only_outputs (w : world) (p : Path) :
  (files (main w).2 !! p ≠ files w !! p →
     p ≠ [] ∧
     ∃ spec, spec ∈ ALBUM_SPECS ∧
       let ws := workspace_album_dir spec [] in
       let pb := pull_album_dir spec [] in
       p `prefix_of` ws ∨ ws `prefix_of` p ∨
       p `prefix_of` pb ∨ pb `prefix_of` p) ∧
  (head p = Some "_imports" ∨ head p = Some "_templates" →
     files (main w).2 !! p = files w !! p).
Proof.
  split.
  - intros Hne. destruct (builder_main_grown w p) as [?|[[Hp (r & Hr & Hc)] _]];
      [done|].
    split; [done|]. unfold output_dirs in Hr.
    apply elem_of_app in Hr
      as [(spec & -> & Hs)%list_elem_of_fmap|(spec & -> & Hs)%list_elem_of_fmap];
      exists spec; (split; [done|]); cbv zeta; tauto.
  - intros Hh. apply (grown_outside _ _ _ _ (builder_main_grown w)).
    intros Hin%near_output_dirs_head. revert Hin.
    rewrite !elem_of_cons, elem_of_nil.
    destruct Hh as [-> | ->]; intros [?|[?|[?|[?|[]]]]]; done.
Qed.

End BuildGrowFacts.

(** ** The album builder: the tracks it leaves *)

Module TrackFacts.

Import Fs Build Notions Run StrFacts FsFacts PathFacts
  GrowFacts BuildGrowFacts SelectFacts.

Lemma copy2_inv fs src dst fs' :
  copy2 fs src dst = inr fs' →
  ∃ b dst', fs' = <[dst' := File b]> fs ∧
            (dst' = dst ∨ dst' = child dst (name src)).
Proof.
  unfold copy2. destruct (_ && _); [done|].
  destruct (read_bytes fs src) as [e|b]; [done|].
  intros [_ ->]%write_bytes_spec. exists b. eexists. split; [done|].
  destruct (is_dir fs dst); auto.
Qed.

(** The canonical slug of a raw slug, as bytes. *)
Local Abbreviation canon slug :=
  (Unicode.fsencode (canonicalize_slug (Unicode.fsdecode slug))).

Lemma str_app_assoc (a b c : string) : (a +:+ b) +:+ c = a +:+ b +:+ c.
Proof.
  induction a as [|x a IH]; [done|].
  rewrite !UnicodeFacts.app_cons. by rewrite IH.
Qed.

Lemma str_app_nil_r (a : string) : a +:+ "" = a.
Proof.
  induction a as [|x a IH]; [done|]. rewrite UnicodeFacts.app_cons.
  by rewrite IH.
Qed.

Lemma well_made_recorded spec base_dir t :
  well_made spec base_dir t → recorded spec base_dir t.
Proof. intros (_ & _ & _ & Hd & Hl). unfold recorded. by rewrite Hl, Hd. Qed.

(** The prefix the sync tool takes from the folder of a track is its
    number. *)
Lemma well_made_prefix spec base_dir t :
  well_made spec base_dir t →
  Str.before_first "_"%char (name (workspace_dir t)) = track_number t.
Proof.
  intros ((d1 & d2 & Hn & H1 & H2) & _ & _ & -> & _).
  rewrite name_child. unfold file_root. rewrite Hn, str_app_assoc.
  rewrite !digit_before_first by done.
  rewrite UnicodeFacts.app_cons. cbn [Str.before_first Ascii.eqb].
  by rewrite !str_app_nil_r.
Qed.

(** Paths that differ in length, or in a literal component. *)
Ltac length_ne :=
  let E := fresh in
  intros E; apply (f_equal length) in E; unfold child in E;
  rewrite ?length_app in E; simpl in E; lia.

Lemma ipynb_is_not_data a b c : a +:+ b +:+ c +:+ ".ipynb" ≠ "data".
Proof.
  intros E. apply (f_equal chars) in E. rewrite !chars_app in E.
  apply (f_equal length) in E. rewrite !length_app in E. simpl in E. lia.
Qed.

Section album.

Variables (spec : AlbumSpec) (base_dir template_root : Path).

(** Lyrics that are normal stay normal. *)
Local Abbreviation keeps fs fs' :=
  (∀ t, recorded spec base_dir t →
        normal fs (lyrics_path t) → normal fs' (lyrics_path t)).

Lemma keeps_subseteq (fs fs' : FS) : fs ⊆ fs' → keeps fs fs'.
Proof.
  intros Hsub t _ [b Hb]. exists b. by eapply lookup_weaken.
Qed.

(** One round of the loop that made a track. *)
Lemma import_one_inv md_path tracks w ts w' :
  import_one spec base_dir template_root md_path tracks w = (Ret ts, w') →
  (ts = tracks ∧ w' = w) ∨
  ∃ num slug,
    TRACK_FILE_RE (name md_path) = Some (num, slug) ∧
    let track_dir :=
      child (workspace_album_dir spec base_dir)
            (num +:+ "_" +:+ canon slug) in
    let t := {| track_number := num; raw_slug := slug;
                canonical_slug := canon slug;
                workspace_dir := track_dir;
                lyrics_path := child (child track_dir "data") "lyrics.md" |} in
    ts = tracks ++ [t] ∧ built (files w') t ∧ keeps (files w) (files w') ∧
    ∃ b, Str.contains "-checkpoint" (name md_path) = false ∧
         (∀ n, files w !! md_path = Some n → n = File b) ∧
         Codec.utf8_valid b = true ∧
         files w' !! lyrics_path t
           = Some (File (Codec.universal_newlines b)) ∧
         ∀ t0 c, recorded spec base_dir t0 →
           lyrics_path t0 ≠ lyrics_path t →
           files w !! lyrics_path t0 = Some (File c) →
           files w' !! lyrics_path t0 = Some (File c).
Proof.
  unfold import_one.
  destruct (Str.contains _ _) eqn:Hck; [intros [= <- <-]; by left|].
  destruct (TRACK_FILE_RE _) as [[num slug]|]; [|intros [= <- <-]; by left].
  intros H. right. exists num, slug. split; [done|].
  set (track_dir := child (workspace_album_dir spec base_dir) _) in *.
  cbv zeta.
  unfold io_mkdir, io_read_text, io_exists, io_copy2 in H.
  apply bind_inv in H as ([] & w1 & (fs1 & Hmk1 & ->)%update_inv & H).
  apply bind_inv in H as ([] & w2 & Htpl & H).
  apply bind_inv in H as (lyrics & w3 & [Hrd ->]%try_read_inv & H).
  apply bind_inv in H as ([] & w3 & (fs3 & Hmk3 & ->)%update_inv & H).
  apply bind_inv in H as ([] & w4 & (fs4 & Hwr4 & ->)%write_text_inv & H).
  apply bind_inv in H as (e & w5 & [-> ->]%query_inv & H).
  apply bind_inv in H as ([] & w5 & Hcp & H).
  apply bind_inv in H as ([] & w6 & (fs6 & Hwr6 & ->)%write_text_inv & H).
  injection H as <- <-. cbn [files] in *.
  (* the file systems in turn *)
  pose proof (mkdir_parents_is_dir _ _ _ Hmk1) as Hdir1.
  apply is_dir_true in Hdir1 as [Hdir1|Hdir1];
    [by apply child_ne in Hdir1|].
  apply mkdir_parents_spec in Hmk1 as [Hsub1 _].
  assert (fs1 ⊆ files w2) as Hsub2.
  { pose proof (TemplateFacts.apply_track_template_templated
                  track_dir template_root fs1 (World fs1 (stdout w)) eq_refl)
      as Ht. unfold wp in Ht. rewrite Htpl in Ht. by destruct Ht. }
  apply read_text_inv in Hrd as (b & Hb & Hv & ->).
  apply mkdir_parents_spec in Hmk3 as [Hsub3 _].
  apply write_bytes_spec in Hwr4 as [_ ->].
  apply write_bytes_spec in Hwr6 as [_ ->].
  set (lyrics_dest := child (child track_dir "data") "lyrics.md") in *.
  set (meta := child (child track_dir "data") "metadata.json") in *.
  set (fs4 := <[lyrics_dest := _]> fs3) in *.
  assert (∃ fs5, files w5 = fs5 ∧
            ∀ p, length p ≠ S (length track_dir) →
                 (∀ y, p ≠ track_dir
                         ++ [num +:+ "_" +:+ canon slug
                             +:+ ".ipynb"; y]) →
                 fs5 !! p = fs4 !! p) as (fs5 & -> & Hfs5).
  { destruct (path_exists fs4 _).
    - apply update_inv in Hcp as (fs5 & Hcp & ->). exists fs5.
      split; [done|]. intros p Hlen Hp.
      apply copy2_inv in Hcp as (c & dst' & -> & Hdst).
      apply lookup_insert_ne. intros <-. destruct Hdst as [->| ->].
      + apply Hlen. unfold child. rewrite length_app. simpl. lia.
      + eapply Hp. unfold child. by rewrite <-(assoc_L (++)).
    - injection Hcp as <-. by exists fs4. }
  assert (meta ≠ lyrics_dest) as Hml.
  { unfold meta, lyrics_dest, child. by intros [_ ?]%app_inj_tail. }
  set (fs6 := <[meta := _]> fs5) in *.
  assert (fs6 !! lyrics_dest = Some (File (Codec.universal_newlines b)))
    as Hlyr.
  { unfold fs6. rewrite lookup_insert_ne by done.
    rewrite Hfs5.
    - unfold fs4. by rewrite lookup_insert_eq.
    - unfold lyrics_dest. unfold child. rewrite !length_app. simpl. lia.
    - intros y E. unfold lyrics_dest, child in E.
      rewrite <-(assoc_L (++)) in E. apply app_inv_head in E.
      injection E as E _. symmetry in E. by apply ipynb_is_not_data in E. }
  assert (∀ t0 c, recorded spec base_dir t0 →
            lyrics_path t0 ≠ lyrics_dest →
            files w !! lyrics_path t0 = Some (File c) →
            fs6 !! lyrics_path t0 = Some (File c)) as Hold.
  { intros t0 c Hrec Hne Hc.
    assert (lyrics_path t0 ≠ meta) as Hne0.
    { unfold recorded in Hrec. rewrite Hrec. unfold meta, child.
      by intros [_ ?]%app_inj_tail. }
    unfold fs6. rewrite lookup_insert_ne by done.
    rewrite Hfs5.
    + unfold fs4. rewrite lookup_insert_ne by done.
      eapply lookup_weaken; [|exact Hsub3].
      eapply lookup_weaken; [|exact Hsub2].
      eapply lookup_weaken; [|exact Hsub1]. done.
    + unfold recorded in Hrec. rewrite Hrec. unfold track_dir, child.
      rewrite !length_app. simpl. lia.
    + intros y E. unfold recorded in Hrec. rewrite Hrec in E.
      unfold track_dir, child in E. rewrite <-!(assoc_L (++)) in E.
      apply app_inv_head in E. injection E as _ E _.
      symmetry in E. by apply ipynb_is_not_data in E. }
  split; [done|]. split; [|split].
  - (* the track as it is left *)
    split; [|split].
    + cbn [workspace_dir]. unfold fs6.
      rewrite lookup_insert_ne by (unfold meta; length_ne).
      rewrite Hfs5.
      * unfold fs4.
        rewrite lookup_insert_ne by (unfold lyrics_dest; length_ne).
        eapply lookup_weaken; [|exact Hsub3].
        eapply lookup_weaken; [|exact Hsub2]. done.
      * lia.
      * intros y. length_ne.
    + exists b. exact Hlyr.
    + eexists. cbn [workspace_dir]. unfold fs6. by rewrite lookup_insert_eq.
  - (* the tracks of the earlier rounds *)
    intros t0 Hrec [c Hc].
    destruct (decide (lyrics_path t0 = lyrics_dest)) as [->|Hne].
    + by exists b.
    + exists c. by apply Hold.
  - (* what the lyrics are *)
    exists b. split; [done|].
    split; [|split; [done|split; [exact Hlyr|exact Hold]]].
    intros n Hn.
    pose proof (lookup_weaken _ _ _ _ (lookup_weaken _ _ _ _ Hn Hsub1) Hsub2)
      as Hn2.
    congruence.
Qed.

Lemma import_one_step md_path tracks w ts w' :
  import_one spec base_dir template_root md_path tracks w = (Ret ts, w') →
  Forall (λ t, well_made spec base_dir t ∧ built (files w) t) tracks →
  Forall (λ t, well_made spec base_dir t ∧ built (files w') t) ts.
Proof.
  intros H Hacc.
  pose proof (import_one_grown [workspace_album_dir spec base_dir]
                (files w) spec base_dir template_root md_path tracks w
                ltac:(by left) (grown_refl _ _)) as Hg.
  unfold wp in Hg. rewrite H in Hg. cbn [snd] in Hg.
  apply import_one_inv in H
    as [[-> ->]|(num & slug & Hre & -> & Hbuilt & Hkeeps & _)]; [done|].
  apply Forall_app. split.
  - eapply Forall_impl; [exact Hacc|].
    intros t0 [Hwm (Hd & Hn & j & Hj)]. split; [done|]. split; [|split].
    + by eapply grown_dir.
    + apply Hkeeps; [by apply well_made_recorded|done].
    + by eapply grown_file.
  - apply Forall_singleton. split; [|done].
    apply SelectFacts.TRACK_FILE_RE_spec in Hre
      as (d1 & d2 & sep & m & d & eol & _ & -> & H1 & H2 & _ & Hs & _).
    split; [by exists d1, d2|]. done.
Qed.

Lemma build_workspaces_tracks w tracks w' :
  build_workspaces_for_album spec base_dir template_root w
    = (Ret tracks, w') →
  Forall (λ t, well_made spec base_dir t ∧ built (files w') t) tracks.
Proof.
  unfold build_workspaces_for_album. intros H.
  apply bind_inv in H as (? & w1 & _ & H).
  apply bind_inv in H as (? & w2 & _ & H).
  apply bind_inv in H as (e & w3 & _ & H).
  destruct e; cbn [negb] in H.
  - apply bind_inv in H as (l & w4 & _ & H).
    eapply (for_fold_inv _ _
      (λ tracks w, Forall (λ t, well_made spec base_dir t
                                ∧ built (files w) t) tracks));
      [| |exact H]; [|done].
    intros md acc w5 ts w6 _ Hacc Hone. by eapply import_one_step.
  - apply bind_inv in H as (? & w4 & _ & H).
    cbv [mret IO_ret ret] in H. by injection H as <-.
Qed.

End album.

(** X8. The records [build_workspaces_for_album] returns are made from
    the matches: a track number of two decimal digits, of any script as
    [\d] takes them, a raw slug that is not empty, its canonical form by
    [str.lower] and the replacement of underscores, the folder
    [<number>_<canonical slug>] of the workspace album and
    [data/lyrics.md] in it.  So the prefix that the sync tool takes from
    the name of such a folder, the part before the first underscore, is
    the track number. *)
Theorem builder_records_are_well_made
    (spec : AlbumSpec) (base_dir template_root : Path) (w : world)
    (tracks : list Track) (w' : world) :
  build_workspaces_for_album spec base_dir template_root w
    = (Ret tracks, w') →
  ∀ t, t ∈ tracks →
    well_made spec base_dir t ∧
    name (workspace_dir t) = track_number t +:+ "_" +:+ canonical_slug t ∧
    Str.before_first "_"%char (name (workspace_dir t)) = track_number t.
Proof.
  intros H%build_workspaces_tracks t Ht.
  rewrite (Forall_forall _ _) in H. destruct (H t Ht) as [Hwm _].
  split; [done|]. split; [|by eapply well_made_prefix].
  destruct Hwm as (_ & _ & _ & -> & _). apply name_child.
Qed.

(** The builder run on the sample imports. *)
Lemma builder_records_are_well_made_witness :
  well_made Sample.singles [] Sample.kings ∧
  name (workspace_dir Sample.kings)
    = track_number Sample.kings +:+ "_" +:+ canonical_slug Sample.kings ∧
  Str.before_first "_"%char (name (workspace_dir Sample.kings))
    = track_number Sample.kings.
Proof.
  apply (builder_records_are_well_made Sample.singles []
           Sample.template_root Sample.w_imports [Sample.kings]
           Sample.w_built).
  - apply (run_eq (build_workspaces_for_album Sample.singles []
                     Sample.template_root) Sample.w_imports).
    vm_compute. reflexivity.
  - by left.
Defined.

(** X9. When [build_workspaces_for_album] returns, every track it
    returns has its folder, its [data/lyrics.md], a regular file whose
    text has every line ending turned into a line feed, and its
    [data/metadata.json]: no later round of the loop has undone an
    earlier one. *)
Theorem builder_leaves_tracks
    (spec : AlbumSpec) (base_dir template_root : Path) (w : world)
    (tracks : list Track) (w' : world) :
  build_workspaces_for_album spec base_dir template_root w
    = (Ret tracks, w') →
  ∀ t, t ∈ tracks →
    files w' !! workspace_dir t = Some Dir ∧
    (∃ b, files w' !! lyrics_path t
          = Some (File (Codec.universal_newlines b))) ∧
    (∃ j, files w' !! child (child (workspace_dir t) "data")
                            "metadata.json" = Some (File j)).
Proof.
  intros H%build_workspaces_tracks t Ht.
  rewrite (Forall_forall _ _) in H. by destruct (H t Ht) as [_ ?].
Qed.

Lemma builder_leaves_tracks_witness :
  files Sample.w_built !! workspace_dir Sample.kings = Some Dir ∧
  (∃ b, files Sample.w_built !! lyrics_path Sample.kings
        = Some (File (Codec.universal_newlines b))) ∧
  (∃ j, files Sample.w_built
          !! child (child (workspace_dir Sample.kings) "data")
                   "metadata.json" = Some (File j)).
Proof.
  apply (builder_leaves_tracks Sample.singles []
           Sample.template_root Sample.w_imports [Sample.kings]
           Sample.w_built).
  - apply (run_eq (build_workspaces_for_album Sample.singles []
                     Sample.template_root) Sample.w_imports).
    vm_compute. reflexivity.
  - by left.
Defined.

(** X10. One round of [main] for an album, when it returns: the album
    builder has returned its tracks, and for each of them the [.md] file
    of the pull bucket holds, byte for byte, what [data/lyrics.md] of the
    workspace holds. *)
Theorem fresh_pull_bucket_is_identical
    (spec : AlbumSpec) (base_dir template_root : Path) (w w' : world) :
  process_album base_dir template_root spec w = (Ret tt, w') →
  ∃ tracks w1,
    build_workspaces_for_album spec base_dir template_root
      (World (files w)
             (stdout w ++ ["[ALBUM] " +:+ sku spec +:+ " / "
                           +:+ workspace_album spec]))
      = (Ret tracks, w1) ∧
    ∀ t, t ∈ tracks →
      ∃ c, files w' !! lyrics_path t = Some (File c) ∧
           files w' !! pull_md_path spec base_dir t = Some (File c).
Proof.
  unfold process_album. intros H.
  apply bind_inv in H as ([] & w0 & [= <-] & H).
  apply bind_inv in H as (tracks & w1 & Hbuild & H).
  exists tracks, w1. split; [done|].
  apply build_workspaces_tracks in Hbuild.
  assert (Forall (recorded spec base_dir) tracks) as Hrec.
  { eapply Forall_impl; [exact Hbuild|].
    intros t [Hwm _]. by eapply well_made_recorded. }
  unfold build_pull_bucket_for_album, io_mkdir in H.
  apply bind_inv in H as ([] & w2 & (fs2 & Hmk & ->)%update_inv & H).
  apply mkdir_parents_spec in Hmk as [Hsub _].
  destruct (PullFacts.for_each_pull_inv spec base_dir tracks _ _ Hrec H)
    as [Hframe Hres]. cbn [files] in *.
  intros t Ht. rewrite (Forall_forall _ _) in Hbuild.
  destruct (Hbuild t Ht) as (_ & _ & [b Hb] & _).
  pose proof (lookup_weaken _ _ _ _ Hb Hsub) as Hb2. clear Hb.
  rename Hb2 into Hb.
  destruct (Hres t Ht) as (b' & Hb' & _ & Hmd).
  rewrite Hb in Hb'. injection Hb' as <-.
  rewrite PullFacts.universal_newlines_idemp in Hmd.
  exists (Codec.universal_newlines b). split; [|done].
  rewrite Hframe; [done|]. intros t' Ht'.
  apply PullFacts.recorded_not_pulled.
  rewrite (Forall_forall _ _) in Hrec. by apply Hrec.
Qed.

Lemma fresh_pull_bucket_is_identical_witness :
  ∃ tracks w1,
    build_workspaces_for_album Sample.singles [] Sample.template_root
      (World (files Sample.w_imports)
             (stdout Sample.w_imports
              ++ ["[ALBUM] " +:+ sku Sample.singles +:+ " / "
                  +:+ workspace_album Sample.singles]))
      = (Ret tracks, w1) ∧
    ∀ t, t ∈ tracks →
      ∃ c, files (process_album [] Sample.template_root Sample.singles
                    Sample.w_imports).2 !! lyrics_path t = Some (File c) ∧
           files (process_album [] Sample.template_root Sample.singles
                    Sample.w_imports).2 !! pull_md_path Sample.singles [] t
             = Some (File c).
Proof.
  apply (fresh_pull_bucket_is_identical Sample.singles []
           Sample.template_root Sample.w_imports).
  apply (run_eq (process_album [] Sample.template_root Sample.singles)
           Sample.w_imports).
  vm_compute. reflexivity.
Defined.

End TrackFacts.

(** ** The template applier: a complete and repeatable run *)

Module TemplateRunFacts.

Import Fs Build Notions Run StrFacts FsFacts
  PathFacts GrowFacts BuildGrowFacts TrackFacts.

Lemma mkdir_from_all_dirs fs above todo fs' :
  mkdir_from fs above todo = inr fs' →
  ∀ k, k ≠ [] → k `prefix_of` todo → fs' !! (above ++ k) = Some Dir.
Proof.
  revert fs above. induction todo as [|c rest IH]; intros fs above H k Hk Hpre.
  { by apply prefix_nil_inv in Hpre. }
  destruct k as [|c' k]; [done|].
  apply prefix_cons_inv_1 in Hpre as Hc. subst c'.
  apply prefix_cons_inv_2 in Hpre.
  cbn [mkdir_from] in H.
  assert (∃ fs1, mkdir_from fs1 (above ++ [c]) rest = inr fs' ∧
                 fs1 !! (above ++ [c]) = Some Dir) as (fs1 & H1 & Hd).
  { destruct (fs !! (above ++ [c])) as [[b|]|] eqn:E; [done|by exists fs|].
    eexists. split; [done|]. by rewrite lookup_insert_eq. }
  destruct k as [|c'' k].
  - apply mkdir_from_spec in H1 as [Hsub _]. by eapply lookup_weaken.
  - replace (above ++ c :: c'' :: k) with ((above ++ [c]) ++ c'' :: k)
      by (by rewrite <-(assoc_L (++))).
    by eapply IH.
Qed.

Lemma mkdir_parents_all_dirs fs p fs' :
  mkdir_parents fs p = inr fs' →
  ∀ k, k ≠ [] → k `prefix_of` p → fs' !! k = Some Dir.
Proof. intros H k. by apply (mkdir_from_all_dirs _ [] _ _ H). Qed.

Lemma is_dir_exists fs p : is_dir fs p = true → path_exists fs p = true.
Proof. unfold is_dir, path_exists. by destruct (stat fs p) as [[]|]. Qed.

Lemma lookup_dir_is_dir fs p : fs !! p = Some Dir → is_dir fs p = true.
Proof.
  intros H. unfold is_dir. destruct p; [done|]. by rewrite stat_lookup, H.
Qed.

Lemma world_eta w : World (files w) (stdout w) = w.
Proof. by destruct w. Qed.

Section template.

Variables (track_dir template_root : Path).

(** The body of the loop of [apply_track_template]. *)
Local Abbreviation body := (λ template_path : Path,
  let relative := relative_to template_root template_path in
  let target_path := track_dir ++ relative in
  d ← io_is_dir template_path;
  if d : bool then io_mkdir target_path
  else
    e ← io_exists target_path;
    if negb e then
      io_mkdir (parent target_path);;
      io_copy2 template_path target_path
    else mret tt).

Local Abbreviation anywhere := (λ _ : Path, True).

Lemma applied_stable fs0 fs fs' template_path :
  grown anywhere fs fs' →
  applied track_dir template_root fs0 fs template_path →
  applied track_dir template_root fs0 fs' template_path.
Proof.
  intros Hg [He Hd]. split; [by eapply grown_exists|].
  intros H0 k Hk Hpre. eapply grown_dir; [done|]. by apply Hd.
Qed.

Lemma body_applied fs0 template_path w w' :
  template_path ≠ [] →
  grown anywhere fs0 (files w) →
  body template_path w = (Ret tt, w') →
  grown anywhere (files w) (files w') ∧
  applied track_dir template_root fs0 (files w') template_path.
Proof.
  intros Hne Hg0. cbv zeta.
  set (target := track_dir ++ relative_to template_root template_path).
  unfold io_is_dir, io_exists, io_mkdir, io_copy2. intros H.
  apply bind_inv in H as (d & w1 & [-> ->]%query_inv & H).
  assert (is_dir (files w) template_path = false →
          fs0 !! template_path ≠ Some Dir) as Hfile.
  { intros Hd H0. apply (grown_dir _ _ _ _ Hg0) in H0.
    apply lookup_dir_is_dir in H0. congruence. }
  destruct (is_dir (files w) template_path) eqn:Hd.
  - apply update_inv in H as (fs' & Hmk & ->). cbn [files]. split.
    + eapply grown_mono; [|by apply grown_mkdir]. done.
    + split.
      * apply is_dir_exists. by eapply mkdir_parents_is_dir.
      * intros _. apply (mkdir_parents_all_dirs _ _ _ Hmk).
  - apply bind_inv in H as (e & w1 & [-> ->]%query_inv & H).
    fold target in H.
    destruct (path_exists (files w) target) eqn:He; cbn [negb] in H.
    + cbv [mret IO_ret ret] in H. injection H as <-.
      split; [apply grown_refl|].
      split; [done|]. intros H0. by destruct (Hfile eq_refl).
    + apply bind_inv in H as ([] & w1 & (fs1 & Hmk & ->)%update_inv & H).
      apply update_inv in H as (fs2 & Hcp & ->). cbn [files] in *.
      assert (grown anywhere (files w) fs2) as Hg.
      { eapply grown_trans.
        - eapply grown_mono; [|by apply grown_mkdir]. done.
        - eapply grown_mono; [|by apply grown_copy2]. done. }
      split; [done|]. split; [|intros H0; by destruct (Hfile eq_refl)].
      unfold copy2 in Hcp. destruct (_ && _); [done|].
      destruct (read_bytes fs1 template_path) as [?|b]; [done|].
      destruct (is_dir fs1 target) eqn:Hd1.
      * eapply grown_exists; [exact (grown_write _ _ _ _ Hcp)|].
        by apply is_dir_exists.
      * apply write_bytes_spec in Hcp as [Hp ->].
        unfold path_exists. by rewrite stat_lookup, lookup_insert_eq.
Qed.

Lemma for_each_applied fs0 (l : list Path) :
  (∀ tp, tp ∈ l → tp ≠ []) →
  ∀ w w',
    grown anywhere fs0 (files w) →
    for_each l body w = (Ret tt, w') →
    grown anywhere (files w) (files w') ∧
    ∀ tp, tp ∈ l → applied track_dir template_root fs0 (files w') tp.
Proof.
  induction l as [|x l IH]; intros Hne w w' Hg0 H.
  - injection H as <-. split; [apply grown_refl|].
    by intros tp ?%elem_of_nil.
  - cbn [for_each] in H. apply bind_inv in H as ([] & w1 & Hx & Hl).
    apply body_applied with (fs0 := fs0) in Hx
      as [Hg1 Hx]; [|apply Hne; by left|done].
    assert (grown anywhere fs0 (files w1)) as Hg01
      by (by eapply grown_trans).
    destruct (IH (λ tp Htp, Hne tp ltac:(by right)) w1 w' Hg01 Hl)
      as [Hg Hall].
    split; [by eapply grown_trans|].
    intros tp [->|Htp]%elem_of_cons; [|by apply Hall].
    by eapply applied_stable.
Qed.

Lemma apply_track_template_applied w w' :
  apply_track_template track_dir template_root w = (Ret tt, w') →
  ∀ tp, tp ∈ rglob_all (files w) template_root →
        applied track_dir template_root (files w) (files w') tp.
Proof.
  unfold apply_track_template. intros H.
  apply bind_inv in H as (l & w1 & [-> ->]%query_inv & H).
  apply for_each_applied with (fs0 := files w) in H as [_ Hall].
  - intros tp Htp. by apply Hall, elem_of_sorted.
  - intros tp Htp ->. apply (proj1 (elem_of_sorted _ _)) in Htp.
    apply elem_of_rglob_all in Htp as [_ [Hpre Hne]].
    apply prefix_nil_inv in Hpre. by subst.
  - apply grown_refl.
Qed.

Lemma for_each_noop (l : list Path) w :
  (∀ tp, tp ∈ l → body tp w = (Ret tt, w)) →
  for_each l body w = (Ret tt, w).
Proof.
  induction l as [|x l IH]; intros H; [done|].
  cbn [for_each]. erewrite bind_ret; [|apply H; by left].
  apply IH. intros tp Htp. apply H. by right.
Qed.

Lemma body_again fs0 template_path w :
  template_path ≠ [] →
  files w !! template_path = fs0 !! template_path →
  applied track_dir template_root fs0 (files w) template_path →
  body template_path w = (Ret tt, w).
Proof.
  intros Hne Hsame [He Hd]. cbv zeta.
  unfold io_is_dir, io_exists, io_mkdir.
  erewrite bind_ret; [|reflexivity].
  destruct (is_dir (files w) template_path) eqn:Hdir.
  - apply is_dir_true in Hdir as [?|Hdir]; [done|].
    rewrite Hsame in Hdir. unfold update, mkdir_parents.
    rewrite mkdir_from_noop; [by rewrite world_eta|].
    intros k Hk Hpre. by apply Hd.
  - erewrite bind_ret; [|reflexivity]. by rewrite He.
Qed.

End template.

(** X11. When [apply_track_template] returns, the target holds the
    whole template: for every entry below the template root the path
    with the same relative part below the track directory exists, and
    it is a directory when the template entry is one. *)
Theorem template_is_applied
    (track_dir template_root : Path) (w w' : world) (rel : Path) :
  apply_track_template track_dir template_root w = (Ret tt, w') →
  is_dir (files w) template_root = true →
  rel ≠ [] →
  is_Some (files w !! (template_root ++ rel)) →
  path_exists (files w') (track_dir ++ rel) = true ∧
  (files w !! (template_root ++ rel) = Some Dir →
   files w' !! (track_dir ++ rel) = Some Dir).
Proof.
  intros H Hroot Hrel Hin.
  assert (template_root ++ rel ∈ rglob_all (files w) template_root) as Htp.
  { unfold rglob_all. rewrite Hroot. apply elem_of_descendants.
    split; [done|]. split; [by apply prefix_app_r|].
    intros E. rewrite <-(right_id_L [] (++) template_root) in E at 2.
    by apply app_inv_head in E. }
  destruct (apply_track_template_applied _ _ _ _ H _ Htp) as [He Hd].
  unfold relative_to in *. rewrite drop_app_length in *.
  split; [done|]. intros H0. apply Hd; [done| |done].
  by destruct track_dir, rel.
Qed.

(** The template of the sample applied to a new folder. *)
Lemma template_is_applied_witness :
  path_exists
    (files (apply_track_template ["t"] Sample.template_root
              Sample.w_imports).2) (["t"] ++ ["data"]) = true ∧
  (files Sample.w_imports !! (Sample.template_root ++ ["data"]) = Some Dir →
   files (apply_track_template ["t"] Sample.template_root
            Sample.w_imports).2 !! (["t"] ++ ["data"]) = Some Dir).
Proof.
  apply (template_is_applied ["t"] Sample.template_root Sample.w_imports).
  - apply (run_eq (apply_track_template ["t"] Sample.template_root)
             Sample.w_imports).
    vm_compute. reflexivity.
  - vm_compute. reflexivity.
  - done.
  - vm_compute. by eexists.
Defined.

(** X12. Applying the template again changes nothing: after a run that
    returned, a second run on the world it left returns and leaves that
    world as it is, provided neither the template root nor the track
    directory lies inside the other. *)
Theorem template_is_repeatable
    (track_dir template_root : Path) (w w' : world) :
  apply_track_template track_dir template_root w = (Ret tt, w') →
  ¬ template_root `prefix_of` track_dir →
  ¬ track_dir `prefix_of` template_root →
  apply_track_template track_dir template_root w' = (Ret tt, w').
Proof.
  intros H Hrt Htr.
  pose proof (apply_track_template_grown [track_dir] (files w) track_dir
                track_dir template_root w ltac:(by left) ltac:(done)
                (grown_refl _ _)) as Hg.
  unfold wp in Hg. rewrite H in Hg. cbn [snd] in Hg.
  assert (∀ q, template_root `prefix_of` q →
               files w' !! q = files w !! q) as Hsame.
  { intros q Hq. apply (grown_outside _ _ _ _ Hg).
    intros [_ (r & ->%list_elem_of_singleton & [Hc|Hc])].
    - apply Hrt. by etrans.
    - destruct (prefix_weak_total _ _ _ Hq Hc); done. }
  assert (template_root ≠ []) as Hne.
  { intros ->. apply Hrt, prefix_nil. }
  assert (rglob_all (files w') template_root
          = rglob_all (files w) template_root) as Hlist.
  { unfold rglob_all, is_dir. rewrite !stat_lookup by done.
    rewrite (Hsame template_root) by done.
    rewrite (descendants_agree (files w) (files w')); [done|].
    intros q [Hq _]. by apply Hsame. }
  pose proof (apply_track_template_applied _ _ _ _ H) as Hall.
  unfold apply_track_template. erewrite bind_ret; [|reflexivity].
  rewrite Hlist. apply for_each_noop. intros tp Htp.
  apply (proj1 (elem_of_sorted _ _)) in Htp.
  pose proof Htp as [_ [Hpre Hntp]]%elem_of_rglob_all.
  apply body_again with (fs0 := files w).
  - intros ->. apply prefix_nil_inv in Hpre. by subst.
  - by apply Hsame.
  - by apply Hall.
Qed.

Lemma template_is_repeatable_witness :
  apply_track_template ["t"] Sample.template_root
    (apply_track_template ["t"] Sample.template_root Sample.w_imports).2
  = (Ret tt,
     (apply_track_template ["t"] Sample.template_root Sample.w_imports).2).
Proof.
  apply (template_is_repeatable ["t"] Sample.template_root Sample.w_imports).
  - apply (run_eq (apply_track_template ["t"] Sample.template_root)
             Sample.w_imports).
    vm_compute. reflexivity.
  - intros [k Hk]. by vm_compute in Hk.
  - intros [k Hk]. by vm_compute in Hk.
Defined.

End TemplateRunFacts.

(** ** The notebook copier *)

Module NotebookFacts.

Import Fs Build Notions Run StrFacts FsFacts PathFacts GrowFacts
  BuildGrowFacts TemplateRunFacts.

Local Abbreviation source := (join [] SUN_TZU_NOTEBOOK).
Local Abbreviation destination := (join [] SUN_TZU_DEST).

Lemma source_eq :
  source = ["_imports"; "HAWK-ARS-00"; "04_reckoning"; "Sun_Tzu.ipynb"].
Proof. reflexivity. Qed.

Lemma destination_eq :
  destination =
  ["HAWK-ARS-04"; "_workspace"; "01_Sun_Tzu_Secretz_To_War"; "Sun_Tzu.ipynb"].
Proof. reflexivity. Qed.

(** *** The state the copier is called in *)

(** A round of [main] that returns leaves the workspace directory of
    its album in place. *)
Lemma process_album_workspace spec base_dir template_root w w' :
  process_album base_dir template_root spec w = (Ret tt, w') →
  ∀ k, k ≠ [] → k `prefix_of` workspace_album_dir spec base_dir →
       files w' !! k = Some Dir.
Proof.
  unfold process_album. intros H k Hk Hpre.
  apply bind_inv in H as ([] & w0 & [= <-] & H).
  apply bind_inv in H as (tracks & w2 & Hbuild & Hpull).
  set (ws := workspace_album_dir spec base_dir) in *.
  set (pb := pull_album_dir spec base_dir) in *.
  unfold build_workspaces_for_album in Hbuild. fold ws pb in Hbuild.
  apply bind_inv in Hbuild as ([] & w1 & Hmk & Hbuild).
  unfold io_mkdir in Hmk. apply update_inv in Hmk as (fs1 & Hmk & ->).
  cbn [files stdout] in *.
  pose proof (mkdir_parents_all_dirs _ _ _ Hmk k Hk Hpre) as Hdir.
  assert (grown (near [ws; pb]) fs1 (files w2)) as Hg2.
  { match type of Hbuild with ?m _ = _ =>
      assert (wp m (λ _ w', grown (near [ws; pb]) fs1 (files w'))
                (World fs1 (stdout w
                   ++ ["[ALBUM] " +:+ sku spec +:+ " / "
                       +:+ workspace_album spec]))) as Hwp
    end.
    { apply wp_seq.
      { eapply wp_mkdir_in; [right; by left|done|apply grown_refl]. }
      intros _ w3 Hinv3. apply wp_look. intros [|]; cbn [negb].
      - apply wp_look. intros md_paths. apply wp_for_fold; [done|].
        intros md_path acc w4 _ Hinv4.
        apply import_one_grown; [by left|done].
      - apply wp_seq; [by apply wp_say|]. intros _ w4 Hinv4.
        by apply wp_ret. }
    unfold wp in Hwp. by rewrite Hbuild in Hwp. }
  pose proof (build_pull_bucket_for_album_grown [ws; pb] (files w2)
                spec base_dir tracks w2 ltac:(right; by left)
                (grown_refl _ _)) as Hg3.
  unfold wp in Hg3. rewrite Hpull in Hg3. cbn [snd] in Hg3.
  eapply grown_dir; [exact Hg3|]. by eapply grown_dir.
Qed.

Lemma for_each_last {A} (l : list A) (x : A) (body : A → IO unit) w w' :
  for_each (l ++ [x]) body w = (Ret tt, w') →
  ∃ w0, body x w0 = (Ret tt, w').
Proof.
  revert w. induction l as [|y l IH]; intros w H; cbn [app for_each] in H.
  - apply bind_inv in H as ([] & w1 & H1 & H). injection H as <-. eauto.
  - apply bind_inv in H as ([] & w1 & _ & H). by eapply IH.
Qed.

(** When the loop of [main] over the albums has returned, the directory
    of the destination is in place: the last album made it. *)
Lemma albums_set_up template_root w w1 :
  for_each ALBUM_SPECS (process_album [] template_root) w = (Ret tt, w1) →
  set_up (files w1).
Proof.
  intros H.
  change ALBUM_SPECS with
    (take 6 ALBUM_SPECS
     ++ [ {| sku := "HAWK-ARS-04"; album_code := "01_Sun_Tzu_Secretz_To_War";
             import_dir := "_imports/HAWK-ARS-00/04_reckoning";
             workspace_album := "01_Sun_Tzu_Secretz_To_War";
             pull_album := "01_Sun_Tzu_Secretz_To_War" |} ]) in H.
  apply for_each_last in H as [w0 H].
  exact (process_album_workspace _ _ _ _ _ H).
Qed.

(** *** The copier *)

Lemma copier_mkdir_noop base_fs :
  set_up base_fs → mkdir_parents base_fs (parent destination) = inr base_fs.
Proof. intros H. apply mkdir_from_noop. intros k Hk Hpre. by apply H. Qed.

(** C8.  The copier is called once, at the end of [main], when the loop
    over the albums has returned; the directory of its destination is
    then in place.  In such a state: without a source it prints the
    warning, returns and changes nothing; with a regular file as source,
    and a destination that is not itself a directory, it returns with
    the bytes of the source at the destination, whatever was there
    before, and nothing else changed; with a directory as source it
    raises and changes nothing. *)
Theorem notebook_copier_spec :
  (∀ w w1,
     for_each ALBUM_SPECS
       (process_album [] (child (child [] "_templates") "track")) w
       = (Ret tt, w1) →
     main w = copy_sun_tzu_notebook [] w1 ∧ set_up (files w1)) ∧
  (∀ w1, set_up (files w1) →
     (path_exists (files w1) source = false →
        copy_sun_tzu_notebook [] w1
        = (Ret tt, World (files w1) (stdout w1 ++ [notebook_warning]))) ∧
     (∀ b, files w1 !! source = Some (File b) →
        is_dir (files w1) destination = false →
        copy_sun_tzu_notebook [] w1
        = (Ret tt, World (<[destination := File b]> (files w1))
                         (stdout w1 ++ [notebook_copied]))) ∧
     (files w1 !! source = Some Dir →
        is_dir (files w1) destination = false →
        copy_sun_tzu_notebook [] w1 = (Raise IsADirectoryError, w1))).
Proof.
  split.
  - intros w w1 H. split; [|by eapply albums_set_up].
    unfold main. cbv zeta. by erewrite bind_ret.
  - intros w1 Hset.
    pose proof (copier_mkdir_noop _ Hset) as Hmk.
    assert (is_dir (files w1) (parent destination) = true) as Hpar.
    { apply lookup_dir_is_dir, Hset; done. }
    unfold copy_sun_tzu_notebook, notebook_warning, notebook_copied.
    cbv zeta. revert Hmk Hpar. rewrite source_eq, destination_eq.
    set (src := ["_imports"; "HAWK-ARS-00"; "04_reckoning"; "Sun_Tzu.ipynb"]).
    set (dst := ["HAWK-ARS-04"; "_workspace"; "01_Sun_Tzu_Secretz_To_War";
                 "Sun_Tzu.ipynb"]).
    assert (src ≠ []) as Hsrc_ne by done.
    assert (dst ≠ []) as Hdst_ne by done.
    assert (src ≠ dst) as Hdiff by done.
    clearbody src dst. intros Hmk Hpar.
    assert (io_mkdir (parent dst) w1 = (Ret tt, w1)) as Hstep.
    { unfold io_mkdir, update. rewrite Hmk. by rewrite world_eta. }
    split; [|split].
    + intros Habs. erewrite bind_ret; [|exact Hstep].
      erewrite bind_ret; [|reflexivity]. by rewrite Habs.
    + intros b Hsrc Hdst. erewrite bind_ret; [|exact Hstep].
      erewrite bind_ret; [|reflexivity].
      assert (path_exists (files w1) src = true) as ->.
      { unfold path_exists. by rewrite stat_lookup, Hsrc. }
      cbn [negb].
      assert (io_copy2 src dst w1
              = (Ret tt, World (<[dst := File b]> (files w1)) (stdout w1)))
        as Hcopy.
      { unfold io_copy2, update, copy2.
        rewrite Hdst. rewrite bool_decide_eq_false_2 by done. cbn [andb].
        unfold read_bytes, write_bytes.
        rewrite stat_lookup, Hsrc by done.
        unfold is_dir in Hdst, Hpar.
        destruct (stat (files w1) dst) as [[]|]; try done;
          destruct (stat (files w1) (parent dst)) as [[]|]; done. }
      erewrite bind_ret; [|exact Hcopy]. reflexivity.
    + intros Hsrc Hdst. erewrite bind_ret; [|exact Hstep].
      erewrite bind_ret; [|reflexivity].
      assert (path_exists (files w1) src = true) as ->.
      { unfold path_exists. by rewrite stat_lookup, Hsrc. }
      cbn [negb]. erewrite bind_raise; [done|].
      unfold io_copy2, update, copy2.
      rewrite Hdst. rewrite bool_decide_eq_false_2 by done. cbn [andb].
      unfold read_bytes. by rewrite stat_lookup, Hsrc.
Qed.

(** A run of [main] on the sample world: the copier replaces the stale
    copy. *)
Lemma notebook_copier_spec_witness :
  files (main Sample.w_notebook).2 !! destination
  = Some (File "fresh notebook").
Proof.
  pose (w1 := (for_each ALBUM_SPECS
                 (process_album [] (child (child [] "_templates") "track"))
                 Sample.w_notebook).2).
  destruct (proj1 notebook_copier_spec Sample.w_notebook w1) as [-> Hset].
  { exact (run_eq (for_each ALBUM_SPECS
                     (process_album [] (child (child [] "_templates") "track")))
                  Sample.w_notebook (Ret tt)
                  ltac:(vm_compute; reflexivity)). }
  destruct (proj2 notebook_copier_spec w1 Hset) as (_ & Hcopy & _).
  rewrite (Hcopy "fresh notebook");
    [|vm_compute; reflexivity|vm_compute; reflexivity].
  cbn [snd files]. apply lookup_insert_eq.
Defined.

End NotebookFacts.

(** ** The pull-bucket builder: what it may change *)

Module PullGrowFacts.

Import Fs Build Notions Run StrFacts FsFacts PathFacts
  GrowFacts.

Section pull.

Variables (spec : AlbumSpec) (base_dir : Path) (tracks : list Track)
  (fs0 : FS).

(** Every change since [fs0] is a directory made on the way to the
    pull-bucket album, or one of the two files of a track. *)
Local Abbreviation inv fs :=
  (∀ p, fs !! p ≠ fs0 !! p →
     (fs0 !! p = None ∧ fs !! p = Some Dir ∧ p ≠ [] ∧
      p `prefix_of` pull_album_dir spec base_dir) ∨
     (∃ t c, t ∈ tracks ∧ fs !! p = Some (File c) ∧
             (p = pull_md_path spec base_dir t ∨
              p = pull_json_path spec base_dir t))).

Lemma inv_write (fs : FS) p c t :
  inv fs → t ∈ tracks →
  p = pull_md_path spec base_dir t ∨ p = pull_json_path spec base_dir t →
  inv (<[p := File c]> fs).
Proof.
  intros Hinv Ht Hp q. rewrite lookup_insert. case_decide as Hq.
  - subst q. intros _. right. by exists t, c.
  - apply Hinv.
Qed.

Lemma pull_one_inv_kept t w :
  t ∈ tracks → inv (files w) →
  wp (pull_one spec base_dir t) (λ _ w', inv (files w')) w.
Proof.
  intros Ht Hinv. unfold pull_one, io_read_text.
  cbv zeta. apply wp_bind, wp_try_read.
  destruct (read_text _ _) as [e|lyrics]; [done|].
  apply (wp_seq _ _ (λ w, inv (files w))).
  { apply (wp_write_text _ _ (λ w, inv (files w))); [done|].
    intros c fs1 [_ ->]%write_bytes_spec. cbn [files].
    apply (inv_write _ _ _ t); auto. }
  intros _ w1 Hinv1.
  apply (wp_seq _ _ (λ w, inv (files w))).
  { apply (wp_write_text _ _ (λ w, inv (files w))); [done|].
    intros c fs2 [_ ->]%write_bytes_spec. cbn [files].
    apply (inv_write _ _ _ t); auto. }
  intros _ w2 Hinv2. by apply wp_print.
Qed.

End pull.

(** X13. The pull-bucket builder, whatever its outcome, changes only
    this: it makes the directories on the way to the pull-bucket album
    that are missing, and it writes the [.md] and [.json] files of the
    tracks it is given.  Nothing else is created, written or removed; in
    particular the workspace is only read. *)
Theorem pull_bucket_builder_footprint
    (spec : AlbumSpec) (base_dir : Path) (tracks : list Track) (w : world)
    (p : Path) :
  let fs' := files (build_pull_bucket_for_album spec base_dir tracks w).2 in
  fs' !! p ≠ files w !! p →
  (files w !! p = None ∧ fs' !! p = Some Dir ∧ p ≠ [] ∧
   p `prefix_of` pull_album_dir spec base_dir) ∨
  (∃ t c, t ∈ tracks ∧ fs' !! p = Some (File c) ∧
          (p = pull_md_path spec base_dir t ∨
           p = pull_json_path spec base_dir t)).
Proof.
  cbv zeta. revert p.
  change (wp (build_pull_bucket_for_album spec base_dir tracks)
            (λ _ w', ∀ p, files w' !! p ≠ files w !! p →
               (files w !! p = None ∧ files w' !! p = Some Dir ∧ p ≠ [] ∧
                p `prefix_of` pull_album_dir spec base_dir) ∨
               (∃ t c, t ∈ tracks ∧ files w' !! p = Some (File c) ∧
                       (p = pull_md_path spec base_dir t ∨
                        p = pull_json_path spec base_dir t))) w).
  unfold build_pull_bucket_for_album, io_mkdir.
  apply wp_bind, wp_update.
  destruct (mkdir_parents _ _) as [e|fs1] eqn:Hmk; [by intros p []|].
  apply mkdir_parents_spec in Hmk as [_ Hnew].
  apply wp_for_each.
  - cbn [files]. intros p Hp. left.
    destruct (Hnew p Hp) as (? & ? & ? & ?). done.
  - intros t w1 Ht Hinv. by apply pull_one_inv_kept.
Qed.

Lemma pull_bucket_builder_footprint_witness :
  let fs' := files (build_pull_bucket_for_album Sample.singles []
                      [Sample.kings] Sample.w_built).2 in
  (files Sample.w_built !! pull_md_path Sample.singles [] Sample.kings = None
   ∧ fs' !! pull_md_path Sample.singles [] Sample.kings = Some Dir
   ∧ pull_md_path Sample.singles [] Sample.kings ≠ []
   ∧ pull_md_path Sample.singles [] Sample.kings
       `prefix_of` pull_album_dir Sample.singles []) ∨
  (∃ t c, t ∈ [Sample.kings] ∧
     fs' !! pull_md_path Sample.singles [] Sample.kings = Some (File c) ∧
     (pull_md_path Sample.singles [] Sample.kings
        = pull_md_path Sample.singles [] t ∨
      pull_md_path Sample.singles [] Sample.kings
        = pull_json_path Sample.singles [] t)).
Proof.
  apply (pull_bucket_builder_footprint Sample.singles [] [Sample.kings]
           Sample.w_built (pull_md_path Sample.singles [] Sample.kings)).
  vm_compute. discriminate.
Defined.

End PullGrowFacts.

(** ** The sync tool: what it may change *)

Module SyncGrowFacts.

Import Fs Sync Notions Run StrFacts FsFacts PathFacts
  GrowFacts.

Lemma iterdir_inv fs d items :
  iterdir fs d = inr items → items = entries fs d ∧ is_dir fs d = true.
Proof.
  unfold iterdir, is_dir. destruct (stat fs d) as [[]|]; [done| |done].
  by intros [= <-].
Qed.

Lemma child_of_prefix d p : child_of d p → d `prefix_of` p.
Proof. intros ->%child_of_inv. by exists [Fs.name p]. Qed.

Section sync.

Variable fnmatch : string → string → bool.
Variables (roots : list Path) (fs0 : FS).

Local Abbreviation inv w := (grown (near roots) fs0 (files w)).

Lemma sync_track_grown album_def dry_run ws_album pb_album import_dir
    track_dir log w :
  ws_album ∈ roots → pb_album ∈ roots → ws_album `prefix_of` track_dir →
  inv w →
  wp (sync_track fnmatch album_def dry_run pb_album import_dir track_dir log)
     (λ _ w', inv w') w.
Proof.
  intros Hws Hpb Hpre Hinv. unfold sync_track.
  assert (∀ s, ws_album `prefix_of` child track_dir s) as Hd1.
  { intros s. etrans; [done|apply prefix_child]. }
  assert (∀ s s', ws_album `prefix_of` child (child track_dir s) s') as Hd2.
  { intros s s'. etrans; [apply Hd1|apply prefix_child]. }
  apply wp_look. intros [|]; cbn [negb]; [|by apply wp_ret].
  destruct (Str.contains _ _).
  { apply wp_seq; [by apply wp_say|]. intros _ w1 Hinv1. by apply wp_ret. }
  apply wp_bind, ChooseFacts.wp_choose_import_md; [done|].
  destruct (pick _) as [import_md|].
  2:{ apply wp_seq; [by apply wp_say|]. intros _ w1 Hinv1. by apply wp_ret. }
  apply wp_bind, wp_try_read.
  destruct (read_text_ignore _ _) as [e|lyrics]; [done|].
  apply wp_seq; [eapply wp_mkdir_in; [exact Hws|apply Hd1|done]|].
  intros _ w1 Hinv1. destruct dry_run.
  - do 4 (apply wp_seq; [by apply wp_say|]; intros _ ? ?).
    by apply wp_ret.
  - apply wp_seq; [eapply wp_write_in; [exact Hws|apply Hd2|done]|].
    intros _ w2 Hinv2.
    apply wp_seq; [eapply wp_write_in; [exact Hpb|apply prefix_child|done]|].
    intros _ w3 Hinv3.
    apply wp_seq; [eapply wp_write_in; [exact Hpb|apply prefix_child|done]|].
    intros _ w4 Hinv4.
    do 4 (apply wp_seq; [by apply wp_say|]; intros _ ? ?).
    by apply wp_ret.
Qed.

Lemma sync_album_grown album_def dry_run w :
  sync_ws album_def ∈ roots → sync_pb album_def ∈ roots → inv w →
  wp (sync_album fnmatch album_def dry_run) (λ _ w', inv w') w.
Proof.
  intros Hws Hpb Hinv. unfold sync_album. cbv zeta.
  fold (sync_ws album_def) (sync_pb album_def).
  do 3 (apply wp_seq; [by apply wp_say|]; intros _ ? ?).
  apply wp_look. intros [|]; cbn [negb].
  2:{ apply wp_seq; [by apply wp_say|]. intros _ ? ?. by apply wp_ret. }
  apply wp_look. intros [|]; cbn [negb].
  2:{ apply wp_seq; [by apply wp_say|]. intros _ ? ?. by apply wp_ret. }
  apply wp_seq; [eapply wp_mkdir_in; [exact Hpb|done|done]|].
  intros _ w1 Hinv1.
  apply wp_bind, wp_try_read.
  destruct (iterdir _ _) as [e|items] eqn:Hit; [done|].
  apply iterdir_inv in Hit as [-> _].
  apply wp_for_fold; [done|]. intros track_dir log w2 Htd Hinv2.
  apply (proj1 (elem_of_sorted _ _)) in Htd.
  apply elem_of_entries in Htd as [_ Htd%child_of_prefix].
  eapply sync_track_grown; [exact Hws|exact Hpb|exact Htd|done].
Qed.

End sync.

Lemma sync_ws_in_dirs album_def :
  album_def ∈ ALBUMS → sync_ws album_def ∈ sync_dirs.
Proof.
  intros H. apply elem_of_app. left. apply list_elem_of_fmap. by exists album_def.
Qed.

Lemma sync_pb_in_dirs album_def :
  album_def ∈ ALBUMS → sync_pb album_def ∈ sync_dirs.
Proof.
  intros H. apply elem_of_app. right. apply list_elem_of_fmap. by exists album_def.
Qed.

Lemma sync_main_grown fnmatch dry_run w :
  grown (near sync_dirs) (files w) (files (main fnmatch dry_run w).2).
Proof.
  change (wp (main fnmatch dry_run)
            (λ _ w', grown (near sync_dirs) (files w) (files w')) w).
  unfold main. apply wp_for_fold; [apply grown_refl|].
  intros album_def logs w1 Ha Hinv1.
  apply wp_seq.
  - apply sync_album_grown; auto using sync_ws_in_dirs, sync_pb_in_dirs.
  - intros log w2 Hinv2. by apply wp_ret.
Qed.

Lemma sync_dirs_heads :
  Forall (λ r, head r ∈ [Some "HAWK-ARS-01"; Some "HAWK-ARS-02";
                         Some "HAWK-ARS-03"])
         sync_dirs.
Proof. apply (bool_decide_unpack _). by vm_compute. Qed.

Lemma near_sync_dirs_head p :
  near sync_dirs p →
  head p ∈ [Some "HAWK-ARS-01"; Some "HAWK-ARS-02"; Some "HAWK-ARS-03"].
Proof.
  intros [Hne (r & Hr & Hp)].
  pose proof (proj1 (Forall_forall _ _) sync_dirs_heads r Hr) as Hh.
  assert (head p = head r) as ->; [|done].
  destruct Hp as [[k ->]|[k ->]].
  - by destruct p.
  - destruct r; [|done]. exfalso. revert Hh.
    rewrite !elem_of_cons, elem_of_nil.
    intros [?|[?|[?|[]]]]; done.
Qed.

(** X14. The sync tool, in a dry run or a real one and whatever the
    glob matcher, removes nothing and changes the kind of nothing: after
    a run, also one that stops on an exception, every directory is still
    a directory and every regular file is still a regular file. *)
Theorem sync_never_removes
    (fnmatch : string → string → bool) (dry_run : bool) (w : world)
    (p : Path) :
  (files w !! p = Some Dir →
     files (main fnmatch dry_run w).2 !! p = Some Dir) ∧
  (∀ c, files w !! p = Some (File c) →
     ∃ c', files (main fnmatch dry_run w).2 !! p = Some (File c')).
Proof.
  split.
  - apply (grown_dir _ _ _ _ (sync_main_grown fnmatch dry_run w)).
  - intros c. apply (grown_file _ _ _ _ _ (sync_main_grown fnmatch dry_run w)).
Qed.

(** X15. The sync tool changes entries only on the way to, or inside,
    the workspace and pull-bucket directories of its albums; nothing
    under [_imports], where it reads the lyrics, is created or written,
    whatever the outcome of the run. *)
Theorem sync_changes_only_outputs
    (fnmatch : string → string → bool) (dry_run : bool) (w : world)
    (p : Path) :
  (files (main fnmatch dry_run w).2 !! p ≠ files w !! p →
     p ≠ [] ∧
     ∃ album_def, album_def ∈ ALBUMS ∧
       let ws := sync_ws album_def in
       let pb := sync_pb album_def in
       p `prefix_of` ws ∨ ws `prefix_of` p ∨
       p `prefix_of` pb ∨ pb `prefix_of` p) ∧
  (head p = Some "_imports" →
     files (main fnmatch dry_run w).2 !! p = files w !! p).
Proof.
  split.
  - intros Hne.
    destruct (sync_main_grown fnmatch dry_run w p)
      as [?|[[Hp (r & Hr & Hc)] _]]; [done|].
    split; [done|]. unfold sync_dirs in Hr.
    apply elem_of_app in Hr
      as [(a & -> & Hs)%list_elem_of_fmap|(a & -> & Hs)%list_elem_of_fmap];
      exists a; (split; [done|]); cbv zeta; tauto.
  - intros Hh. apply (grown_outside _ _ _ _ (sync_main_grown fnmatch dry_run w)).
    intros Hin%near_sync_dirs_head. revert Hin.
    rewrite Hh, !elem_of_cons, elem_of_nil.
    intros [?|[?|[?|[]]]]; done.
Qed.

Lemma sync_changes_only_outputs_witness :
  files (main fnmatch_plain false (World Sample.fs_fresh [])).2
    !! ["_imports"; "HAWK-ARS-00"; "01_singles"; "07_song.md"]
  = Sample.fs_fresh
    !! ["_imports"; "HAWK-ARS-00"; "01_singles"; "07_song.md"].
Proof.
  apply (proj2 (sync_changes_only_outputs fnmatch_plain false
                  (World Sample.fs_fresh [])
                  ["_imports"; "HAWK-ARS-00"; "01_singles"; "07_song.md"])).
  reflexivity.
Defined.

(** X16. An album whose workspace directory or whose import directory
    does not exist is skipped: [sync_album] prints its heading and the
    warning, returns no decision and leaves the file system as it is (it
    does not even make the pull-bucket directory), in a dry run and in a
    real one. *)
Theorem sync_album_skips
    (fnmatch : string → string → bool) (album_def : AlbumDef)
    (dry_run : bool) (w : world) :
  (path_exists (files w) (sync_ws album_def) = false →
   sync_album fnmatch album_def dry_run w
   = (Ret [], World (files w)
               (stdout w ++ sync_heading album_def
                ++ ["  [WARN] workspace album missing, skipping."]))) ∧
  (path_exists (files w) (sync_ws album_def) = true →
   path_exists (files w) (sync_imports album_def) = false →
   sync_album fnmatch album_def dry_run w
   = (Ret [], World (files w)
               (stdout w ++ sync_heading album_def
                ++ ["  [WARN] import dir missing, skipping."]))).
Proof.
  unfold sync_album. cbv zeta.
  fold (sync_ws album_def) (sync_pb album_def) (sync_imports album_def).
  do 3 (erewrite bind_ret; [|reflexivity]).
  unfold io_exists. erewrite bind_ret; [|reflexivity]. cbn [files stdout].
  rewrite <-!(assoc_L (++)). split.
  - intros ->. cbn [negb]. erewrite bind_ret; [|reflexivity].
    cbn [files stdout]. by rewrite <-!(assoc_L (++)).
  - intros -> Himp. cbn [negb]. erewrite bind_ret; [|reflexivity].
    cbn [files]. rewrite Himp. cbn [negb].
    erewrite bind_ret; [|reflexivity].
    cbn [files stdout]. by rewrite <-!(assoc_L (++)).
Qed.

End SyncGrowFacts.

(** ** The sync tool: its decisions and what a real run writes *)

Module SyncRunFacts.

Import Fs Sync Notions Run StrFacts FsFacts
  PathFacts GrowFacts SyncGrowFacts.

Lemma read_text_ignore_inv fs p s :
  read_text_ignore fs p = inr s →
  ∃ b, fs !! p = Some (File b) ∧ s = decoded b.
Proof.
  unfold read_text_ignore.
  destruct (read_bytes fs p) as [e|b] eqn:Hb; [done|].
  intros [= <-]. apply read_bytes_spec in Hb. by exists b.
Qed.

Lemma entries_same (fs fs' : FS) d :
  (∀ q, child_of d q → fs' !! q = fs !! q) → entries fs' d = entries fs d.
Proof.
  intros H. unfold entries. do 2 f_equal. apply map_eq. intros q.
  rewrite !map_lookup_filter.
  destruct (decide (child_of d q)) as [Hq|Hq].
  - by rewrite (H q Hq).
  - destruct (fs' !! q), (fs !! q); simpl; by rewrite ?option_guard_False.
Qed.

Lemma grown_is_dir_eq (place : Path → Prop) (fs fs' : FS) (p : Path) :
  grown place fs fs' → is_Some (fs !! p) → is_dir fs' p = is_dir fs p.
Proof.
  intros Hg [n Hn]. destruct p as [|c p]; [done|].
  unfold is_dir. rewrite !stat_lookup by done. rewrite Hn.
  destruct n as [b|].
  - by destruct (grown_file _ _ _ _ _ Hg Hn) as [b' ->].
  - by rewrite (grown_dir _ _ _ _ Hg Hn).
Qed.

Section sync.

Variable fnmatch : string → string → bool.

Lemma candidates_same (fs fs' : FS) d n :
  d ≠ [] → (∀ q, d `prefix_of` q → fs' !! q = fs !! q) →
  candidates_of fnmatch fs' d n = candidates_of fnmatch fs d n.
Proof.
  intros Hd H. unfold candidates_of, glob_select, is_dir. cbv zeta.
  rewrite !stat_lookup by done. rewrite (H d) by done.
  rewrite (entries_same fs fs' d); [done|].
  intros q Hq. by apply H, child_of_prefix.
Qed.

(** One round of the loop of [sync_album] that returned. *)
Lemma sync_track_inv album_def dry_run pb_album import_dir track_dir
    log w log' w' :
  sync_track fnmatch album_def dry_run pb_album import_dir track_dir log w
    = (Ret log', w') →
  let n := Fs.name track_dir in
  (is_dir (files w) track_dir = false ∧ log' = log ∧ files w' = files w) ∨
  (is_dir (files w) track_dir = true ∧
   ((∃ a, decision fnmatch (files w) import_dir n = a ∧
          (a = SkipCheckpoint ∨ a = Miss) ∧
          log' = log ++ [(n, a)] ∧ files w' = files w) ∨
    (∃ import_md b fs1 j,
       decision fnmatch (files w) import_dir n = Resolved import_md ∧
       log' = log ++ [(n, Resolved import_md)] ∧
       files w !! import_md = Some (File b) ∧
       mkdir_parents (files w) (child track_dir "data") = inr fs1 ∧
       files w' =
         if dry_run then fs1
         else <[child pb_album (n +:+ ".json") := File j]>
                (<[child pb_album (n +:+ ".md") := File (decoded b)]>
                   (<[child (child track_dir "data") "lyrics.md"
                        := File (decoded b)]> fs1))))).
Proof.
  cbv zeta. unfold sync_track, decision,
    io_is_dir, io_read_text_ignore, io_mkdir.
  intros H.
  apply bind_inv in H as (d & w1 & [-> ->]%query_inv & H).
  destruct (is_dir (files w) track_dir); cbn [negb] in H.
  2:{ injection H as <- <-. by left. }
  right. split; [done|].
  destruct (Str.contains "checkpoint" _).
  { apply bind_inv in H as ([] & w1 & [= <-] & [= <- <-]).
    left. eexists. split; [done|]. split; [by left|]. done. }
  apply bind_inv in H as (r & w1 & Hch & H).
  apply ChooseFacts.choose_import_md_pick in Hch as [-> ->].
  destruct (pick _) as [import_md|].
  2:{ apply bind_inv in H as ([] & w1 & [= <-] & [= <- <-]).
      left. eexists. split; [done|]. split; [by right|]. done. }
  right.
  apply bind_inv in H as (lyrics & w1 & [Hread ->]%try_read_inv & H).
  apply read_text_ignore_inv in Hread as (b & Hb & ->).
  apply bind_inv in H as ([] & w1 & (fs1 & Hmk & ->)%update_inv & H).
  destruct dry_run.
  - do 4 (apply bind_inv in H as ([] & w1 & [= <-] & H)).
    injection H as <- <-. by exists import_md, b, fs1, "".
  - apply bind_inv in H as ([] & w1 & (fs2 & Hw2 & ->)%write_text_inv & H).
    apply bind_inv in H as ([] & w1 & (fs3 & Hw3 & ->)%write_text_inv & H).
    apply bind_inv in H as ([] & w1 & (fs4 & Hw4 & ->)%write_text_inv & H).
    cbn [files stdout] in *.
    apply write_bytes_spec in Hw2 as [_ ->].
    apply write_bytes_spec in Hw3 as [_ ->].
    apply write_bytes_spec in Hw4 as [_ ->].
    do 4 (apply bind_inv in H as ([] & w1 & [= <-] & H)).
    injection H as <- <-. by eexists import_md, b, fs1, _.
Qed.

(** The entry one round adds to the log. *)
Lemma sync_track_decides album_def dry_run pb_album import_dir track_dir
    log w log' w' :
  sync_track fnmatch album_def dry_run pb_album import_dir track_dir log w
    = (Ret log', w') →
  log' = log ++
    (if is_dir (files w) track_dir
     then [(Fs.name track_dir,
            decision fnmatch (files w) import_dir (Fs.name track_dir))]
     else []).
Proof.
  intros H%sync_track_inv. cbv zeta in H.
  destruct H as [(-> & -> & _)|[-> [(a & <- & _ & -> & _)|H]]].
  - by rewrite (right_id_L [] (++)).
  - done.
  - by destruct H as (md & b & fs1 & j & -> & -> & _).
Qed.

(** The places of an album and the paths a run may change. *)
Lemma imports_not_near ws pb imp q :
  ws_shape ws → pb_shape pb → import_shape imp →
  imp `prefix_of` q → ¬ near [ws; pb] q.
Proof.
  intros (s & a & ->) (s' & a' & ->) [rest ->] [k ->] [_ (r & Hr & Hc)].
  apply elem_of_cons in Hr as [->|Hr];
    [|apply list_elem_of_singleton in Hr as ->];
    (destruct Hc as [[k' Hk]|[k' Hk]]; by simplify_eq/=).
Qed.

Lemma import_shape_ne imp : import_shape imp → imp ≠ [].
Proof. by intros [rest ->]. Qed.

Lemma for_fold_decisions album_def dry_run ws pb imp fs0 l :
  ws_shape ws → pb_shape pb → import_shape imp →
  (∀ td, td ∈ l → child_of ws td ∧ is_Some (fs0 !! td)) →
  ∀ log w log' w',
    grown (near [ws; pb]) fs0 (files w) →
    for_fold l log (sync_track fnmatch album_def dry_run pb imp) w
      = (Ret log', w') →
    log' = log ++
      ((λ td, (Fs.name td, decision fnmatch fs0 imp (Fs.name td)))
       <$> filter (λ td, is_dir fs0 td = true) l).
Proof.
  intros Hws Hpb Himp. induction l as [|td l IH];
    intros Hl log w log' w' Hg H; cbn [for_fold] in H.
  - injection H as <- _. simpl. by rewrite (right_id_L [] (++)).
  - apply bind_inv in H as (log1 & w1 & H1 & H).
    destruct (Hl td ltac:(by left)) as [Hchild Hsome].
    pose proof (sync_track_grown fnmatch [ws; pb] fs0 album_def dry_run
                  ws pb imp td log w ltac:(by left)
                  ltac:(right; by left) (child_of_prefix _ _ Hchild) Hg)
      as Hg1.
    unfold wp in Hg1. rewrite H1 in Hg1. cbn [snd] in Hg1.
    apply sync_track_decides in H1.
    rewrite (grown_is_dir_eq _ _ _ _ Hg Hsome) in H1.
    assert (decision fnmatch (files w) imp (Fs.name td)
            = decision fnmatch fs0 imp (Fs.name td)) as Hdec.
    { unfold decision. rewrite (candidates_same fs0 (files w)); [done| |].
      - by apply import_shape_ne.
      - intros q Hq. apply (grown_outside _ _ _ _ Hg).
        by eapply imports_not_near. }
    rewrite Hdec in H1.
    apply IH in H; [|intros td' ?; apply Hl; by right|done].
    rewrite H, H1, <-(assoc_L (++)). f_equal.
    rewrite filter_cons. destruct (is_dir fs0 td) eqn:Hd.
    + by rewrite decide_True.
    + by rewrite decide_False.
Qed.

(** Two paths of the tool that are not the same. *)
Ltac other_path :=
  let E := fresh in
  first
    [ congruence
    | intros [= E];
      first [ by apply md_is_not_json in E
            | symmetry in E; by apply md_is_not_json in E
            | apply str_app_inv_tail in E; congruence ] ].

Lemma decision_resolved (fs : FS) imp n import_md :
  decision fnmatch fs imp n = Resolved import_md → child_of imp import_md.
Proof.
  unfold decision. destruct (Str.contains _ _); [done|].
  destruct (pick _) as [md|] eqn:Hp; [|done]. intros [= <-].
  by apply DryRunFacts.pick_elem_of, DryRunFacts.elem_of_candidates in Hp.
Qed.

(** One real round keeps what the earlier rounds have written. *)
Lemma sync_track_mirrors album_def ws pb imp fs0 track_dir
    log w log' w' :
  ws_shape ws → pb_shape pb → import_shape imp →
  child_of ws track_dir →
  grown (near [ws; pb]) fs0 (files w) →
  (∀ n md, (n, Resolved md) ∈ log →
     decision fnmatch fs0 imp n = Resolved md ∧
     mirrored fs0 (files w) ws pb n md) →
  sync_track fnmatch album_def false pb imp track_dir log w = (Ret log', w') →
  ∀ n md, (n, Resolved md) ∈ log' →
    decision fnmatch fs0 imp n = Resolved md ∧
    mirrored fs0 (files w') ws pb n md.
Proof.
  intros Hws Hpb Himp Hchild Hg Hlog H.
  assert (∀ q, imp `prefix_of` q → files w !! q = fs0 !! q) as Hsame.
  { intros q Hq. apply (grown_outside _ _ _ _ Hg).
    by eapply imports_not_near. }
  assert (decision fnmatch (files w) imp (Fs.name track_dir)
          = decision fnmatch fs0 imp (Fs.name track_dir)) as Hdec.
  { unfold decision. rewrite (candidates_same fs0 (files w)); [done| |done].
    by apply import_shape_ne. }
  apply sync_track_inv in H. cbv zeta in H. rewrite Hdec in H.
  pose proof (child_of_inv _ _ Hchild) as Etd. clear Hchild Hdec.
  set (n' := Fs.name track_dir) in *. clearbody n'. subst track_dir.
  destruct H as [(_ & -> & ->)|[_ [(a & Ha & Hsm & -> & ->)|H]]].
  - done.
  - intros n md [Hin|Hin%list_elem_of_singleton]%elem_of_app.
    + by apply Hlog.
    + injection Hin as -> <-. by destruct Hsm.
  - destruct H as (md' & b' & fs1 & j' & Hd' & -> & Hb' & Hmk & ->).
    pose proof (decision_resolved _ _ _ _ Hd') as Hmd'.
    rewrite Hsame in Hb' by (by apply child_of_prefix).
    apply mkdir_parents_spec in Hmk as [Hsub _].
    destruct Hws as (s & a & ->), Hpb as (s' & a' & ->).
    unfold child. cbn [app].
    assert (∀ n md, decision fnmatch fs0 imp n = Resolved md →
              mirrored fs0 (files w) [s; "_workspace"; a]
                [s'; "_pull-bucket"; a'] n md ∨
              (n = n' ∧ md = md') →
              mirrored fs0
                (<[[s'; "_pull-bucket"; a'; n' +:+ ".json"] := File j']>
                   (<[[s'; "_pull-bucket"; a'; n' +:+ ".md"]
                        := File (decoded b')]>
                      (<[[s; "_workspace"; a; n'; "data"; "lyrics.md"]
                           := File (decoded b')]> fs1)))
                [s; "_workspace"; a] [s'; "_pull-bucket"; a'] n md)
      as Hstep.
    { intros n md Hd Hcase.
      destruct (decide (n = n')) as [->|Hn].
      - rewrite Hd' in Hd. injection Hd as <-.
        exists b'. unfold child. cbn [app]. split; [done|].
        split; [|split].
        + do 2 (rewrite lookup_insert_ne by other_path).
          by rewrite lookup_insert_eq.
        + rewrite lookup_insert_ne by other_path.
          by rewrite lookup_insert_eq.
        + eexists. by rewrite lookup_insert_eq.
      - destruct Hcase as [(b & Hb & Hw & Hm & j & Hj)|[? _]]; [|done].
        unfold child in *. cbn [app] in *.
        exists b. cbn [app]. split; [done|]. split; [|split].
        + do 3 (rewrite lookup_insert_ne by other_path).
          by eapply lookup_weaken.
        + do 3 (rewrite lookup_insert_ne by other_path).
          by eapply lookup_weaken.
        + exists j. do 3 (rewrite lookup_insert_ne by other_path).
          by eapply lookup_weaken. }
    intros n md [Hin|Hin%list_elem_of_singleton]%elem_of_app.
    + destruct (Hlog n md Hin) as [Hd Hm]. split; [done|].
      apply Hstep; auto.
    + injection Hin as -> <-. split; [done|]. apply Hstep; auto.
Qed.

End sync.



(** X18. After a real run of [sync_album] that returned, every track
    folder it resolved holds, in [data/lyrics.md] of the workspace and in
    its [.md] file of the pull bucket, the same text: the bytes of the
    chosen import file as the run found them, decoded with undecodable
    bytes dropped and line endings turned into line feeds; and the
    [.json] file of the track is there.  No later round of the loop has
    written over an earlier one. *)
Theorem real_sync_mirrors
    (fnmatch : string → string → bool) (album_def : AlbumDef)
    (w : world) (log : list (string * action)) (w' : world) :
  album_def ∈ ALBUMS →
  sync_album fnmatch album_def false w = (Ret log, w') →
  ∀ n import_md, (n, Resolved import_md) ∈ log →
    ∃ b, files w !! import_md = Some (File b) ∧
         files w' !! (sync_ws album_def ++ [n; "data"; "lyrics.md"])
           = Some (File (decoded b)) ∧
         files w' !! child (sync_pb album_def) (n +:+ ".md")
           = Some (File (decoded b)) ∧
         ∃ j, files w' !! child (sync_pb album_def) (n +:+ ".json")
              = Some (File j).
Proof.
  intros (Hws & Hpb & Himp)%DryRunFacts.album_shapes H.
  unfold sync_album in H. cbv zeta in H.
  fold (sync_ws album_def) (sync_pb album_def) (sync_imports album_def)
    in *.
  unfold io_exists, io_mkdir, io_iterdir in H.
  do 3 (apply bind_inv in H as ([] & w1 & [= <-] & H)).
  apply bind_inv in H as (e & w1 & [-> ->]%query_inv & H).
  destruct (path_exists _ _); cbn [negb] in H.
  2:{ apply bind_inv in H as ([] & w1 & _ & [= <- _]).
      by intros n md ?%elem_of_nil. }
  apply bind_inv in H as (e & w1 & [-> ->]%query_inv & H).
  destruct (path_exists _ _); cbn [negb] in H.
  2:{ apply bind_inv in H as ([] & w1 & _ & [= <- _]).
      by intros n md ?%elem_of_nil. }
  apply bind_inv in H as ([] & w1 & (fs1 & Hmk & ->)%update_inv & H).
  apply bind_inv in H as (items & w1 & [Hit ->]%try_read_inv & H).
  cbn [files stdout] in *.
  apply iterdir_inv in Hit as [-> _].
  assert (grown (near [sync_ws album_def; sync_pb album_def])
            (files w) fs1) as Hg.
  { eapply grown_mkdir_in; [apply grown_refl|right; by left|done|done]. }
  intros n md Hin.
  eapply (for_fold_inv _ _
    (λ log w1,
       grown (near [sync_ws album_def; sync_pb album_def])
         (files w) (files w1) ∧
       ∀ n md, (n, Resolved md) ∈ log →
         decision fnmatch (files w) (sync_imports album_def) n
           = Resolved md ∧
         mirrored (files w) (files w1) (sync_ws album_def)
           (sync_pb album_def) n md)) in H.
  - destruct H as [_ H]. by destruct (H n md Hin) as [_ ?].
  - clear Hin. intros td log0 w0 log1 w1 Htd [Hg0 Hlog0] Hstep.
    apply (proj1 (elem_of_sorted _ _)) in Htd.
    apply elem_of_entries in Htd as [_ Htd].
    split.
    + pose proof (sync_track_grown fnmatch
                    [sync_ws album_def; sync_pb album_def] (files w)
                    album_def false _ _ (sync_imports album_def) td log0 w0
                    ltac:(by left) ltac:(right; by left)
                    (child_of_prefix _ _ Htd) Hg0) as Hg1.
      unfold wp in Hg1. by rewrite Hstep in Hg1.
    + by eapply sync_track_mirrors.
  - split; [done|]. by intros ? ? ?%elem_of_nil.
Qed.

(** The real run on the sample workspace. *)
Lemma real_sync_mirrors_witness :
  ∃ b, Sample.fs_fresh
         !! ["_imports"; "HAWK-ARS-00"; "01_singles"; "07_song.md"]
       = Some (File b) ∧
    files (sync_album fnmatch_plain
             {| name := "Singles"; sku := "HAWK-ARS-01";
                ws_album := "01_Singles"; import_subdir := "01_singles" |}
             false (World Sample.fs_fresh [])).2
      !! (sync_ws {| name := "Singles"; sku := "HAWK-ARS-01";
                     ws_album := "01_Singles";
                     import_subdir := "01_singles" |}
          ++ ["07_song"; "data"; "lyrics.md"])
      = Some (File (decoded b)) ∧
    files (sync_album fnmatch_plain
             {| name := "Singles"; sku := "HAWK-ARS-01";
                ws_album := "01_Singles"; import_subdir := "01_singles" |}
             false (World Sample.fs_fresh [])).2
      !! child (sync_pb {| name := "Singles"; sku := "HAWK-ARS-01";
                           ws_album := "01_Singles";
                           import_subdir := "01_singles" |})
               ("07_song" +:+ ".md")
      = Some (File (decoded b)) ∧
    ∃ j, files (sync_album fnmatch_plain
                  {| name := "Singles"; sku := "HAWK-ARS-01";
                     ws_album := "01_Singles";
                     import_subdir := "01_singles" |}
                  false (World Sample.fs_fresh [])).2
           !! child (sync_pb {| name := "Singles"; sku := "HAWK-ARS-01";
                                ws_album := "01_Singles";
                                import_subdir := "01_singles" |})
                    ("07_song" +:+ ".json")
         = Some (File j).
Proof.
  apply (real_sync_mirrors fnmatch_plain
           {| name := "Singles"; sku := "HAWK-ARS-01";
              ws_album := "01_Singles"; import_subdir := "01_singles" |}
           (World Sample.fs_fresh [])
           [("07_song",
             Resolved ["_imports"; "HAWK-ARS-00"; "01_singles";
                       "07_song.md"])]).
  - by left.
  - apply (run_eq (sync_album fnmatch_plain _ false)
             (World Sample.fs_fresh [])).
    vm_compute. reflexivity.
  - by left.
Defined.

End SyncRunFacts.

(** ** The sync tool: what the chosen import file is *)

Module MatchFacts.

Import Fs Sync Notions Run StrFacts FsFacts PathFacts.

Section matches.

Variable fnmatch : string → string → bool.

Lemma elem_of_glob_iff fs d pat q :
  q ∈ glob_select fnmatch fs d pat ↔ selected fnmatch fs d pat q.
Proof.
  unfold glob_select, selected. destruct (is_dir fs d).
  - rewrite list_elem_of_filter, elem_of_entries, Is_true_true. tauto.
  - rewrite elem_of_nil. split; [done|]. by intros [? _].
Qed.

Lemma sorted_nil_inv (l : list Path) : sorted l = [] → l = [].
Proof.
  intros H. destruct l as [|x l]; [done|].
  assert (x ∈ sorted (x :: l)) as Hx by (apply elem_of_sorted; by left).
  rewrite H in Hx. by apply elem_of_nil in Hx.
Qed.

Lemma candidates_of_cases fs d n :
  let prefix := Str.before_first "_"%char n in
  (candidates_of fnmatch fs d n = [] ∧
   ∀ q, ¬ selected fnmatch fs d (prefix +:+ "_*.md") q ∧
        ¬ selected fnmatch fs d (prefix +:+ "*.md") q) ∨
  (candidates_of fnmatch fs d n ≠ [] ∧
   ∀ c, c ∈ candidates_of fnmatch fs d n →
     selected fnmatch fs d (prefix +:+ "_*.md") c ∨
     (selected fnmatch fs d (prefix +:+ "*.md") c ∧
      ∀ q, ¬ selected fnmatch fs d (prefix +:+ "_*.md") q)).
Proof.
  cbv zeta. unfold candidates_of. cbv zeta.
  set (p1 := _ +:+ "_*.md"). set (p2 := _ +:+ "*.md").
  destruct (sorted (glob_select fnmatch fs d p1)) as [|c1 l1] eqn:E1.
  - apply sorted_nil_inv in E1.
    assert (∀ q, ¬ selected fnmatch fs d p1 q) as Hno1.
    { intros q Hq%elem_of_glob_iff. rewrite E1 in Hq.
      by apply elem_of_nil in Hq. }
    destruct (sorted (glob_select fnmatch fs d p2)) as [|c2 l2] eqn:E2.
    + left. split; [done|]. apply sorted_nil_inv in E2.
      intros q. split; [done|]. intros Hq%elem_of_glob_iff.
      rewrite E2 in Hq. by apply elem_of_nil in Hq.
    + right. split; [done|]. rewrite <-E2. intros c Hc.
      apply (proj1 (elem_of_sorted _ _)) in Hc. right.
      split; [by apply elem_of_glob_iff|done].
  - right. split; [done|]. rewrite <-E1. intros c Hc.
    apply (proj1 (elem_of_sorted _ _)) in Hc. left.
    by apply elem_of_glob_iff.
Qed.

(** When [choose_import_md] stops on a pattern, in terms of what the
    patterns select. *)
Lemma refused_cases fs d n :
  let prefix := Str.before_first "_"%char n in
  refused fnmatch fs d n = true ↔
  Str.contains "**" (prefix +:+ "_*.md") = true ∨
  ((∀ q, ¬ selected fnmatch fs d (prefix +:+ "_*.md") q) ∧
   Str.contains "**" (prefix +:+ "*.md") = true).
Proof.
  cbv zeta. unfold refused. cbv zeta.
  set (p1 := _ +:+ "_*.md"). set (p2 := _ +:+ "*.md").
  rewrite orb_true_iff.
  destruct (sorted (glob_select fnmatch fs d p1)) as [|c1 l1] eqn:E1.
  - apply sorted_nil_inv in E1.
    assert (∀ q, ¬ selected fnmatch fs d p1 q) as Hno1.
    { intros q Hq%elem_of_glob_iff. rewrite E1 in Hq.
      by apply elem_of_nil in Hq. }
    tauto.
  - assert (selected fnmatch fs d p1 c1) as Hc1.
    { apply elem_of_glob_iff, elem_of_sorted. rewrite E1. by left. }
    split; [intros [?|?]; [by left|done]|].
    intros [?|[Hno _]]; [by left|]. by destruct (Hno c1).
Qed.

End matches.

(** X19. [choose_import_md] reads only.  It raises [ValueError] when
    the first pattern holds ["**"], and when the first pattern selects
    nothing and the second holds ["**"]; in every other case it
    returns.  When it returns, it answers [None] exactly when the import
    directory has no entry that either pattern selects (or is no
    directory); a file it answers with is an entry directly inside the
    import directory that [<prefix>_*.md] selects, or one that
    [<prefix>*.md] selects when the first pattern selects nothing. *)
Theorem choose_import_md_matches
    (fnmatch : string → string → bool) (import_dir : Path)
    (track_folder_name : string) (w : world) :
  let prefix := Str.before_first "_"%char track_folder_name in
  let first_pattern := prefix +:+ "_*.md" in
  let fallback := prefix +:+ "*.md" in
  let stops :=
    Str.contains "**" first_pattern = true ∨
    ((∀ q, ¬ selected fnmatch (files w) import_dir first_pattern q) ∧
     Str.contains "**" fallback = true) in
  (stops →
   choose_import_md fnmatch import_dir track_folder_name w
   = (Raise ValueError, w)) ∧
  (¬ stops →
   ∃ r, choose_import_md fnmatch import_dir track_folder_name w
        = (Ret r, w)) ∧
  (∀ r w',
     choose_import_md fnmatch import_dir track_folder_name w = (Ret r, w') →
     w' = w ∧
     (r = None ↔
      ∀ q, ¬ selected fnmatch (files w) import_dir first_pattern q ∧
           ¬ selected fnmatch (files w) import_dir fallback q) ∧
     (∀ c, r = Some c →
        selected fnmatch (files w) import_dir first_pattern c ∨
        (selected fnmatch (files w) import_dir fallback c ∧
         ∀ q, ¬ selected fnmatch (files w) import_dir first_pattern q))).
Proof.
  cbv zeta.
  pose proof (refused_cases fnmatch (files w) import_dir track_folder_name)
    as Hstop. cbv zeta in Hstop.
  split; [|split].
  - intros H%Hstop. by rewrite ChooseFacts.choose_import_md_run, H.
  - intros H. rewrite ChooseFacts.choose_import_md_run.
    destruct (refused _ _ _ _); [|eauto]. destruct H. by apply Hstop.
  - intros r w' [-> ->]%ChooseFacts.choose_import_md_pick. split; [done|].
    pose proof (ChooseFacts.candidates_of_sorted fnmatch (files w) import_dir
                  track_folder_name) as Hsorted.
    apply ChooseFacts.pick_spec in Hsorted as [Hnil Hcons].
    destruct (candidates_of_cases fnmatch (files w) import_dir
                track_folder_name) as [[E Hno]|[E Hall]]; cbv zeta in *.
    + rewrite (Hnil E). split; [done|]. by intros c.
    + destruct (Hcons E) as (c & -> & Hc & _). split.
      * split; [done|]. intros Hno. exfalso.
        destruct (Hno c) as [H1 H2].
        destruct (Hall c Hc) as [Hs|[Hs _]]; auto.
      * intros c' [= <-]. by apply Hall.
Qed.

End MatchFacts.

(** ** Exceptions: decoding the import files *)

Module DecodeFacts.

Import Fs Notions Run StrFacts FsFacts
  PathFacts GrowFacts.

(** *** The exceptions of the file system operations *)

Lemma mkdir_from_raises fs above todo e :
  mkdir_from fs above todo = inl e → e ∈ os_errors.
Proof.
  revert fs above. induction todo as [|c rest IH]; intros fs above; [done|].
  cbn [mkdir_from]. destruct (fs !! (above ++ [c])) as [[b|]|].
  - intros [= <-]. unfold os_errors. destruct rest.
    + by left.
    + do 2 right. by left.
  - apply IH.
  - apply IH.
Qed.

Lemma mkdir_parents_raises fs p e :
  mkdir_parents fs p = inl e → e ∈ os_errors.
Proof. apply mkdir_from_raises. Qed.

Lemma write_bytes_raises fs p b e :
  write_bytes fs p b = inl e → e ∈ os_errors.
Proof.
  unfold write_bytes, os_errors.
  destruct (stat fs p) as [[c|]|]; destruct (stat fs (parent p)) as [[c'|]|];
    intros [= <-]; rewrite !elem_of_cons; tauto.
Qed.

Lemma read_text_ignore_raises fs p e :
  read_text_ignore fs p = inl e → e ∈ os_errors.
Proof.
  unfold read_text_ignore, read_bytes, os_errors.
  destruct (stat fs p) as [[c|]|]; intros [= <-];
    rewrite !elem_of_cons; tauto.
Qed.

Lemma iterdir_raises fs d e : iterdir fs d = inl e → e ∈ os_errors.
Proof.
  unfold iterdir, os_errors.
  destruct (stat fs d) as [[c|]|]; intros [= <-];
    rewrite !elem_of_cons; tauto.
Qed.

(** *** Scripts that raise only some exceptions *)

Section raises.

Variable allowed : list exn.

Lemma raises_bind {A B : Type} (m : IO A) (k : A → IO B) w :
  wp m (λ o _, raises_only allowed o) w →
  (∀ a w', wp (k a) (λ o _, raises_only allowed o) w') →
  wp (m ≫= k) (λ o _, raises_only allowed o) w.
Proof.
  intros Hm Hk. apply wp_bind. eapply wp_mono; [exact Hm|].
  intros [a|e] w' Ho; [apply Hk|done].
Qed.

Lemma raises_ret {A : Type} (a : A) w :
  wp (mret a) (λ o _, raises_only allowed o) w.
Proof. by apply wp_ret. Qed.

Lemma raises_print s w : wp (print s) (λ o _, raises_only allowed o) w.
Proof. by apply wp_print. Qed.

Lemma raises_query {A : Type} (f : FS → A) w :
  wp (query f) (λ o _, raises_only allowed o) w.
Proof. by apply wp_query. Qed.

Lemma raises_update f w :
  (∀ fs e, f fs = inl e → e ∈ allowed) →
  wp (update f) (λ o _, raises_only allowed o) w.
Proof.
  intros Hf. apply wp_update. destruct (f (files w)) eqn:E; [|done].
  by eapply Hf.
Qed.

Lemma raises_try_read {A : Type} (f : FS → exn + A) w :
  (∀ fs e, f fs = inl e → e ∈ allowed) →
  wp (try_read f) (λ o _, raises_only allowed o) w.
Proof.
  intros Hf. apply wp_try_read. destruct (f (files w)) eqn:E; [|done].
  by eapply Hf.
Qed.

Lemma raises_for_fold {A S' : Type} (l : list A) (body : A → S' → IO S') :
  (∀ x s w, wp (body x s) (λ o _, raises_only allowed o) w) →
  ∀ s w, wp (for_fold l s body) (λ o _, raises_only allowed o) w.
Proof.
  intros Hbody. induction l as [|x l IH]; intros s w; cbn [for_fold].
  - apply raises_ret.
  - apply raises_bind; [apply Hbody|]. intros s' w'. apply IH.
Qed.

End raises.

Lemma os_errors_sync e : e ∈ os_errors → e ∈ sync_errors.
Proof. intros H. unfold sync_errors. apply elem_of_app. by left. Qed.

Lemma raises_write_text p s w :
  wp (io_write_text p s) (λ o _, raises_only sync_errors o) w.
Proof.
  unfold io_write_text. destruct (Codec.utf8_valid s).
  - apply raises_update. intros fs e H.
    by eapply os_errors_sync, write_bytes_raises.
  - apply raises_bind.
    + apply raises_update. intros fs e H.
      by eapply os_errors_sync, write_bytes_raises.
    + intros _ w'. apply wp_raise.
      change (UnicodeEncodeError ∈ sync_errors). unfold sync_errors.
      apply elem_of_app. right. right. left.
Qed.

(** Steps through a script of the sync tool. *)
Ltac raises_steps :=
  repeat first
    [ apply raises_ret
    | apply raises_print
    | apply raises_write_text
    | apply raises_bind; [|intros ? ?]
    | apply raises_query
    | apply raises_update; intros ? ? ?;
      eapply os_errors_sync, mkdir_parents_raises; eassumption
    | apply raises_try_read; intros ? ? ?; apply os_errors_sync;
      first [ eapply read_text_ignore_raises; eassumption
            | eapply iterdir_raises; eassumption ] ].

Lemma sync_track_raises fnmatch album_def dry_run pb_album import_dir
    track_dir log w :
  wp (Sync.sync_track fnmatch album_def dry_run pb_album import_dir
        track_dir log)
     (λ o _, raises_only sync_errors o) w.
Proof.
  unfold Sync.sync_track, io_is_dir, io_read_text_ignore, io_mkdir.
  apply raises_bind; [apply raises_query|]. intros [|] w1; cbn [negb];
    [|apply raises_ret].
  destruct (Str.contains _ _); [raises_steps|].
  apply wp_bind, ChooseFacts.wp_choose_import_md.
  { change (ValueError ∈ sync_errors). unfold sync_errors.
    apply elem_of_app. right. left. }
  destruct (pick _) as [import_md|]; [|raises_steps].
  apply raises_bind; [raises_steps|]. intros lyrics w3.
  apply raises_bind; [raises_steps|]. intros _ w4.
  destruct dry_run; raises_steps.
Qed.

Lemma sync_album_raises fnmatch album_def dry_run w :
  wp (Sync.sync_album fnmatch album_def dry_run)
     (λ o _, raises_only sync_errors o) w.
Proof.
  unfold Sync.sync_album, io_exists, io_mkdir, io_iterdir. cbv zeta.
  do 3 (apply raises_bind; [apply raises_print|]; intros _ ?).
  apply raises_bind; [apply raises_query|]. intros [|] w1; cbn [negb];
    [|raises_steps].
  apply raises_bind; [apply raises_query|]. intros [|] w2; cbn [negb];
    [|raises_steps].
  apply raises_bind; [raises_steps|]. intros _ w3.
  apply raises_bind; [raises_steps|]. intros items w4.
  apply raises_for_fold. intros track_dir log w5.
  apply sync_track_raises.
Qed.


(** *** The album builder decodes strictly *)

Section builder.

Import Build BuildGrowFacts.

Local Abbreviation canon slug :=
  (Unicode.fsencode (canonicalize_slug (Unicode.fsdecode slug))).

Variables (spec : AlbumSpec) (base_dir template_root : Path)
  (roots : list Path) (fs0 : FS).

Hypothesis Hroot : workspace_album_dir spec base_dir ∈ roots.

Lemma import_one_reads md_path tracks w ts w' :
  grown (near roots) fs0 (files w) →
  import_one spec base_dir template_root md_path tracks w = (Ret ts, w') →
  track_of_name (name md_path) ≠ None →
  ∃ w2 b, grown (near roots) fs0 (files w2) ∧
          files w2 !! md_path = Some (File b) ∧
          Codec.utf8_valid b = true.
Proof.
  intros Hg H Hsel. unfold import_one in H. unfold track_of_name in Hsel.
  destruct (Str.contains _ _); [done|].
  destruct (TRACK_FILE_RE _) as [[num slug]|]; [|done].
  unfold io_mkdir, io_read_text in H.
  apply bind_inv in H as ([] & w1 & (fs1 & Hmk & ->)%update_inv & H).
  apply bind_inv in H as ([] & w2 & Htpl & H).
  apply bind_inv in H as (lyrics & w3 & [Hrd ->]%try_read_inv & _).
  apply read_text_inv in Hrd as (b & Hb & Hv & _).
  exists w2, b. split; [|done].
  pose proof (grown_mkdir_in _ _ _ _ _ _ Hg Hroot (prefix_child _ _) Hmk)
    as Hg1.
  pose proof (apply_track_template_grown roots fs0 _
                (child (workspace_album_dir spec base_dir)
                       (num +:+ "_" +:+ canon slug))
                template_root
                (World fs1 (stdout w)) Hroot (prefix_child _ _) Hg1) as Hg2.
  unfold wp in Hg2. by rewrite Htpl in Hg2.
Qed.

Lemma for_fold_reads (l : list Path) :
  ∀ acc w tracks w',
    grown (near roots) fs0 (files w) →
    for_fold l acc (import_one spec base_dir template_root) w
      = (Ret tracks, w') →
    ∀ md, md ∈ l → track_of_name (name md) ≠ None →
      ∃ w2 b, grown (near roots) fs0 (files w2) ∧
              files w2 !! md = Some (File b) ∧
              Codec.utf8_valid b = true.
Proof.
  induction l as [|x l IH]; intros acc w tracks w' Hg H md Hmd Hsel.
  { by apply elem_of_nil in Hmd. }
  cbn [for_fold] in H. apply bind_inv in H as (acc1 & w1 & H1 & H).
  apply elem_of_cons in Hmd as [->|Hmd].
  - by eapply import_one_reads.
  - eapply IH; [|exact H|done..].
    pose proof (import_one_grown roots fs0 spec base_dir template_root
                  x acc w Hroot Hg) as Hg1.
    unfold wp in Hg1. by rewrite H1 in Hg1.
Qed.

End builder.

(** X21. The album builder decodes strictly: when
    [build_workspaces_for_album] returns for one of the albums, every
    file of its listing that was selected (a track name without
    ["-checkpoint"]) is a regular file whose bytes are valid UTF-8.  A
    selected file that does not decode makes the builder raise. *)
Theorem builder_needs_valid_utf8
    (spec : Build.AlbumSpec) (template_root : Path) (w : world)
    (tracks : list Build.Track) (w' : world) (md_path : Path) :
  spec ∈ Build.ALBUM_SPECS →
  Build.build_workspaces_for_album spec [] template_root w
    = (Ret tracks, w') →
  md_path ∈ rglob_md (files w) (join [] (Build.import_dir spec)) →
  track_of_name (name md_path) ≠ None →
  ∃ b, files w !! md_path = Some (File b) ∧ Codec.utf8_valid b = true.
Proof.
  intros Hspec H Hmd Hsel.
  pose proof (SelectFacts.album_specs_layout spec Hspec)
    as (Himp & Hws & Hpb).
  set (ws := Build.workspace_album_dir spec []) in *.
  set (pb := Build.pull_album_dir spec []) in *.
  set (imp := join [] (Build.import_dir spec)) in *.
  assert (∀ q, imp `prefix_of` q → ¬ near [ws; pb] q) as Hfar.
  { intros q [k ->] [_ (r & Hr & Hc)].
    assert (head (imp ++ k) = Some "_imports") as Hq
      by (by destruct imp).
    assert (head r ≠ Some "_imports" ∧ r ≠ []) as [Hr1 Hr2].
    { apply elem_of_cons in Hr as [->|Hr];
        [|apply list_elem_of_singleton in Hr as ->];
        (split; [done|apply child_ne]). }
    destruct Hc as [[k' ->]|[k' Hk]].
    - destruct (imp ++ k) as [|s l]; [done|]. simpl in *. congruence.
    - rewrite Hk in Hq. destruct r; [done|]. simpl in *. congruence. }
  unfold Build.build_workspaces_for_album in H. fold ws pb imp in H.
  unfold io_mkdir, io_exists in H.
  apply bind_inv in H as ([] & w1 & (fs1 & Hmk1 & ->)%update_inv & H).
  apply bind_inv in H as ([] & w2 & (fs2 & Hmk2 & ->)%update_inv & H).
  cbn [files stdout] in *.
  assert (grown (near [ws; pb]) (files w) fs2) as Hg.
  { eapply grown_mkdir_in; [|right; by left|done|exact Hmk2].
    eapply grown_mkdir_in; [apply grown_refl|by left|done|exact Hmk1]. }
  assert (rglob_md fs2 imp = rglob_md (files w) imp) as Hlist.
  { apply rglob_md_agree. intros q Hq.
    apply (grown_outside _ _ _ _ Hg). by apply Hfar. }
  apply bind_inv in H as (e & w3 & [-> ->]%query_inv & H).
  cbn [files] in H. destruct (path_exists fs2 imp) eqn:He; cbn [negb] in H.
  2:{ exfalso. rewrite <-Hlist in Hmd. unfold rglob_md, rglob_all in Hmd.
      assert (is_dir fs2 imp = false) as Hd.
      { unfold is_dir, path_exists in *. by destruct (stat fs2 imp). }
      rewrite Hd in Hmd. by apply elem_of_nil in Hmd. }
  apply bind_inv in H as (l & w3 & [-> ->]%query_inv & H).
  cbn [files] in H. rewrite Hlist in H.
  destruct (for_fold_reads spec [] template_root [ws; pb] (files w)
              ltac:(by left) _ _ (World fs2 _) _ _ Hg H md_path
              ltac:(by apply elem_of_sorted) Hsel)
    as (w2 & b & Hg2 & Hb & Hv).
  exists b. split; [|done]. rewrite <-Hb. symmetry.
  apply (grown_outside _ _ _ _ Hg2). apply Hfar.
  apply list_elem_of_filter in Hmd as [_ Hmd].
  by apply elem_of_rglob_all in Hmd as [_ [? _]].
Qed.

(** The builder run on the sample imports and its one track file. *)
Lemma builder_needs_valid_utf8_witness :
  ∃ b, files Sample.w_imports
         !! ["_imports"; "HAWK-ARS-00"; "01_singles";
             "05_Return_Of_Kings.md"] = Some (File b) ∧
       Codec.utf8_valid b = true.
Proof.
  apply (builder_needs_valid_utf8 Sample.singles Sample.template_root
           Sample.w_imports [Sample.kings] Sample.w_built).
  - by left.
  - apply (run_eq (Build.build_workspaces_for_album Sample.singles []
                     Sample.template_root) Sample.w_imports).
    vm_compute. reflexivity.
  - apply (bool_decide_unpack _). vm_compute. reflexivity.
  - vm_compute. discriminate.
Defined.

End DecodeFacts.

(** ** The album builder: what it makes of the files it selects *)

Module ProcessFacts.

Import Fs Build Notions Run StrFacts FsFacts PathFacts GrowFacts
  BuildGrowFacts SelectFacts TrackFacts.

Lemma str_app_inv_head (a s1 s2 : string) : a +:+ s1 = a +:+ s2 → s1 = s2.
Proof.
  induction a as [|c a IH]; [done|]. rewrite !UnicodeFacts.app_cons.
  intros [= H]. by apply IH.
Qed.

(** Two well-made records with the same lyrics path have the same
    number and the same canonical slug. *)
Lemma well_made_same_folder spec base_dir t t' :
  well_made spec base_dir t → well_made spec base_dir t' →
  lyrics_path t = lyrics_path t' →
  track_number t = track_number t' ∧ canonical_slug t = canonical_slug t'.
Proof.
  intros Ht Ht' E.
  pose proof (well_made_prefix _ _ _ Ht) as Hp.
  pose proof (well_made_prefix _ _ _ Ht') as Hp'.
  destruct Ht as (_ & _ & _ & Hd & Hl), Ht' as (_ & _ & _ & Hd' & Hl').
  assert (workspace_dir t = workspace_dir t') as Ew.
  { rewrite Hl, Hl' in E. unfold child in E.
    apply app_inj_tail in E as [E _]. by apply app_inj_tail in E as [E _]. }
  assert (track_number t = track_number t') as En
    by (by rewrite <-Hp, <-Hp', Ew).
  split; [done|].
  rewrite Hd, Hd' in Ew. unfold child in Ew.
  apply app_inj_tail in Ew as [_ Ew]. unfold file_root in Ew.
  rewrite En in Ew. apply str_app_inv_head in Ew.
  by apply (str_app_inv_head "_") in Ew.
Qed.

Section album.

Variables (spec : AlbumSpec) (base_dir template_root : Path)
  (roots : list Path) (fs0 : FS) (listing : list Path).

Hypothesis Hroot : workspace_album_dir spec base_dir ∈ roots.
Hypothesis Hlisting :
  ∀ md, md ∈ listing → is_Some (fs0 !! md) ∧ ¬ near roots md.

(** What holds of the tracks made so far. *)
Local Abbreviation made w tracks :=
  (Forall (λ t, well_made spec base_dir t ∧
                ∃ md, md ∈ listing ∧ taken_from fs0 (files w) md t) tracks).

Lemma import_one_taken md_path tracks w ts w' :
  md_path ∈ listing →
  grown (near roots) fs0 (files w) → made w tracks →
  import_one spec base_dir template_root md_path tracks w = (Ret ts, w') →
  grown (near roots) fs0 (files w') ∧ made w' ts.
Proof.
  intros Hmd Hg Hacc H.
  pose proof (import_one_grown roots fs0 spec base_dir template_root
                md_path tracks w Hroot Hg) as Hg'.
  unfold wp in Hg'. rewrite H in Hg'. cbn [snd] in Hg'.
  split; [done|].
  pose proof (import_one_step spec base_dir template_root md_path tracks
                w ts w' H) as Hstep.
  apply import_one_inv in H
    as [[-> ->]|(num & slug & Hre & -> & Hbuilt & _ & b & Hck & Hn & Hv
                 & Hlyr & Hold)]; [done|].
  set (t := {| track_number := num |}) in *.
  assert (well_made spec base_dir t) as Hwm.
  { assert (Forall (λ t0, well_made spec base_dir t0
                          ∧ built (files w) t0) ([] : list Track)) as H0
      by constructor.
    pose proof (import_one_step spec base_dir template_root md_path []
                  w) as Hs.
    clear Hs H0.
    apply TRACK_FILE_RE_spec in Hre
      as (d1 & d2 & sep & m & d & eol & _ & -> & H1 & H2 & _ & Hs & _).
    split; [by exists d1, d2|]. done. }
  destruct (Hlisting md_path Hmd) as [[n0 Hn0] Hfar].
  assert (files w !! md_path = fs0 !! md_path) as Esame
    by (by apply (grown_outside _ _ _ _ Hg)).
  assert (taken_from fs0 (files w') md_path t) as Hnew.
  { exists slug, b. unfold track_of_name. rewrite Hck.
    split; [done|]. split; [done|]. split; [|done].
    rewrite <-Esame. rewrite Esame, Hn0. f_equal. apply Hn.
    by rewrite Esame. }
  apply Forall_app. split; [|apply Forall_singleton; eauto].
  eapply Forall_impl; [exact Hacc|].
  intros t0 (Hwm0 & md0 & Hmd0 & slug0 & b0 & Hsel0 & Hcan0 & Hb0 & Hv0
             & Hl0). split; [done|].
  destruct (decide (lyrics_path t0 = lyrics_path t)) as [E|Hne].
  - exists md_path. split; [done|].
    destruct (well_made_same_folder _ _ _ _ Hwm0 Hwm E) as [En Ec].
    destruct Hnew as (slug' & b' & Hsel' & Hcan' & Hb' & Hv' & Hl').
    exists slug', b'. rewrite En, Ec, E. done.
  - exists md0. split; [done|]. exists slug0, b0.
    repeat (split; [done|]).
    apply Hold; [by apply well_made_recorded|done..].
Qed.

Lemma for_fold_taken :
  ∀ acc w tracks w',
    grown (near roots) fs0 (files w) → made w acc →
    for_fold listing acc (import_one spec base_dir template_root) w
      = (Ret tracks, w') →
    made w' tracks.
Proof.
  intros acc w tracks w' Hg Hacc H.
  apply (for_fold_inv listing (import_one spec base_dir template_root)
           (λ acc w, grown (near roots) fs0 (files w) ∧ made w acc))
    with (s := acc) (w := w) (s' := tracks) (w' := w') in H; [by destruct H| |done].
  intros md acc1 w1 acc2 w2 Hmd [Hg1 Hacc1] Hone.
  by eapply import_one_taken.
Qed.

End album.

(** The tracks [build_workspaces_for_album] returns, and the files they
    are made from. *)
Lemma build_workspaces_taken spec template_root w tracks w' :
  spec ∈ ALBUM_SPECS →
  build_workspaces_for_album spec [] template_root w = (Ret tracks, w') →
  ∀ t, t ∈ tracks →
    ∃ md_path,
      md_path ∈ sorted (rglob_md (files w) (join [] (import_dir spec))) ∧
      taken_from (files w) (files w') md_path t.
Proof.
  intros Hspec H.
  pose proof (album_specs_layout spec Hspec) as (Himp & Hws & Hpb).
  set (ws := workspace_album_dir spec []) in *.
  set (pb := pull_album_dir spec []) in *.
  set (imp := join [] (import_dir spec)) in *.
  assert (∀ q, imp `prefix_of` q → ¬ near [ws; pb] q) as Hfar.
  { intros q [k ->] [_ (r & Hr & Hc)].
    assert (head (imp ++ k) = Some "_imports") as Hq
      by (by destruct imp).
    assert (head r ≠ Some "_imports" ∧ r ≠ []) as [Hr1 Hr2].
    { apply elem_of_cons in Hr as [->|Hr];
        [|apply list_elem_of_singleton in Hr as ->];
        (split; [done|apply child_ne]). }
    destruct Hc as [[k' ->]|[k' Hk]].
    - destruct (imp ++ k) as [|s l]; [done|]. simpl in *. congruence.
    - rewrite Hk in Hq. destruct r; [done|]. simpl in *. congruence. }
  unfold build_workspaces_for_album in H. fold ws pb imp in H.
  unfold io_mkdir, io_exists in H.
  apply bind_inv in H as ([] & w1 & (fs1 & Hmk1 & ->)%update_inv & H).
  apply bind_inv in H as ([] & w2 & (fs2 & Hmk2 & ->)%update_inv & H).
  cbn [files stdout] in *.
  assert (grown (near [ws; pb]) (files w) fs2) as Hg.
  { eapply grown_mkdir_in; [|right; by left|done|exact Hmk2].
    eapply grown_mkdir_in; [apply grown_refl|by left|done|exact Hmk1]. }
  assert (rglob_md fs2 imp = rglob_md (files w) imp) as Hlist.
  { apply rglob_md_agree. intros q Hq.
    apply (grown_outside _ _ _ _ Hg). by apply Hfar. }
  apply bind_inv in H as (e & w3 & [-> ->]%query_inv & H).
  cbn [files] in H. destruct (path_exists fs2 imp) eqn:He; cbn [negb] in H.
  2:{ apply bind_inv in H as ([] & w3 & _ & H).
      cbv [mret IO_ret ret] in H. injection H as <- _.
      by intros t ?%elem_of_nil. }
  apply bind_inv in H as (l & w3 & [-> ->]%query_inv & H).
  cbn [files] in H. rewrite Hlist in H.
  pose proof (for_fold_taken spec [] template_root [ws; pb] (files w)
                (sorted (rglob_md (files w) imp)) ltac:(by left)) as Hfold.
  eapply Hfold in H; [| |exact Hg|constructor].
  - intros t Ht. rewrite (Forall_forall _ _) in H.
    by destruct (H t Ht) as [_ ?].
  - intros md Hmd. apply (proj1 (elem_of_sorted _ _)) in Hmd.
    apply list_elem_of_filter in Hmd as [_ Hmd].
    apply elem_of_rglob_all in Hmd as [? [? _]]. split; [done|].
    by apply Hfar.
Qed.




End ProcessFacts.
